(** * Pico NeoPixel 16x16: the paddle game and the formation shooter

    A shallow embedding of [src/pong.py] and [src/space_invaders.py].

    Conventions of the embedding:
    - Python [int] is [Z]; [//] is [Z.div] and [%] is [Z.modulo] (both
      round toward minus infinity, as Python does for a positive divisor).
    - Python [float] is idealised as an exact rational [Q]; an [int] that
      is mixed with floats is injected with [inject_Z].  [int(v)] on a
      number truncates toward zero ([py_int]).
    - The module-level singletons [game] and [np] become explicit values
      that every operation takes and returns.
    - [random] and [time.ticks_ms] are inputs of the operations that
      consult them. *)

From Stdlib Require Import ZArith QArith Qabs Qminmax List Bool Lia.
From Stdlib Require Import Lqa Sorted.
Import ListNotations.

Local Open Scope Z_scope.

(** ** Configuration and pixel surface shared by both programs *)

Module Display.

Definition WIDTH : Z := 16.
Definition HEIGHT : Z := 16.
Definition NUM_LEDS : Z := WIDTH * HEIGHT.
Definition BRIGHTNESS : Q := 0.3%Q.

Definition Color : Type := (Z * Z * Z)%type.

Definition BLACK : Color := (0, 0, 0).
Definition WHITE : Color := (255, 255, 255).
Definition RED : Color := (255, 0, 0).
Definition GREEN : Color := (0, 255, 0).
Definition YELLOW : Color := (255, 255, 0).
Definition CYAN : Color := (0, 255, 255).
Definition MAGENTA : Color := (255, 0, 255).
Definition ORANGE : Color := (255, 150, 0).

(** [int(v)]: truncation toward zero. *)
Definition py_int (v : Q) : Z := Z.quot (Qnum v) (Z.pos (Qden v)).

(** [xy_to_index(x, y)]: serpentine layout, [-1] when out of bounds. *)
Definition xy_to_index (x y : Z) : Z :=
  if (x <? 0) || (x >=? WIDTH) || (y <? 0) || (y >=? HEIGHT) then -1
  else if y mod 2 =? 0 then y * WIDTH + x
  else y * WIDTH + (WIDTH - 1 - x).

(** [scale_color(color)]: every channel is [int(c * BRIGHTNESS)]. *)
Definition scale_channel (c : Z) : Z := py_int (inject_Z c * BRIGHTNESS).

Definition scale_color (color : Color) : Color :=
  let '(r, g, b) := color in (scale_channel r, scale_channel g, scale_channel b).

(** The NeoPixel buffer [np]: [NUM_LEDS] colour slots. *)
Definition Buffer : Type := list Color.

(** [np[idx] = v] for [0 <= idx].  The only caller passes an index that
    [xy_to_index] produced, which is below [NUM_LEDS]. *)
Fixpoint store (n : nat) (v : Color) (np : Buffer) : Buffer :=
  match np, n with
  | [], _ => []
  | _ :: rest, O => v :: rest
  | c :: rest, S n' => c :: store n' v rest
  end.

(** [np.fill((0, 0, 0))] *)
Definition clear (np : Buffer) : Buffer := map (fun _ => BLACK) np.

Definition blank : Buffer := repeat BLACK (Z.to_nat NUM_LEDS).

(** The coordinates of the matrix. *)
Definition in_grid (x y : Z) : Prop := 0 <= x < WIDTH /\ 0 <= y < HEIGHT.

(** Whether a list of calls is non-empty. *)
Definition some_call {A : Type} (l : list A) : bool :=
  match l with
  | [] => false
  | _ :: _ => true
  end.

End Display.

(** ** The paddle game ([src/pong.py]) *)

Module Pong.

Import Display.

(** [set_pixel(x, y, color)]: the coordinates go through [int()] first. *)
Definition set_pixel (x y : Q) (color : Color) (np : Buffer) : Buffer :=
  let idx := xy_to_index (py_int x) (py_int y) in
  if idx >=? 0 then store (Z.to_nat idx) (scale_color color) np else np.

(** The game object.  Every attribute [PongGame.reset] creates is a field. *)
Record PongGame : Type := mkPong {
  paddle_height : Z;
  paddle_speed : Z;
  p1_y : Z;
  p2_y : Z;
  p1_x : Z;
  p2_x : Z;
  ball_x : Q;
  ball_y : Q;
  ball_vx : Q;
  ball_vy : Q;
  p1_score : Z;
  p2_score : Z;
  winning_score : Z;
  game_over : bool;
  winner : option Z;
  paused : bool;
  rally_count : Z;
  ai_reaction_delay : Z;
  ai_error : Q
}.

Definition set_p1_y (v : Z) (g : PongGame) : PongGame :=
  {| paddle_height := paddle_height g; paddle_speed := paddle_speed g;
     p1_y := v; p2_y := p2_y g; p1_x := p1_x g; p2_x := p2_x g;
     ball_x := ball_x g; ball_y := ball_y g; ball_vx := ball_vx g;
     ball_vy := ball_vy g; p1_score := p1_score g; p2_score := p2_score g;
     winning_score := winning_score g; game_over := game_over g;
     winner := winner g; paused := paused g; rally_count := rally_count g;
     ai_reaction_delay := ai_reaction_delay g; ai_error := ai_error g |}.

Definition set_p2_y (v : Z) (g : PongGame) : PongGame :=
  {| paddle_height := paddle_height g; paddle_speed := paddle_speed g;
     p1_y := p1_y g; p2_y := v; p1_x := p1_x g; p2_x := p2_x g;
     ball_x := ball_x g; ball_y := ball_y g; ball_vx := ball_vx g;
     ball_vy := ball_vy g; p1_score := p1_score g; p2_score := p2_score g;
     winning_score := winning_score g; game_over := game_over g;
     winner := winner g; paused := paused g; rally_count := rally_count g;
     ai_reaction_delay := ai_reaction_delay g; ai_error := ai_error g |}.

Definition set_ball_x (v : Q) (g : PongGame) : PongGame :=
  {| paddle_height := paddle_height g; paddle_speed := paddle_speed g;
     p1_y := p1_y g; p2_y := p2_y g; p1_x := p1_x g; p2_x := p2_x g;
     ball_x := v; ball_y := ball_y g; ball_vx := ball_vx g;
     ball_vy := ball_vy g; p1_score := p1_score g; p2_score := p2_score g;
     winning_score := winning_score g; game_over := game_over g;
     winner := winner g; paused := paused g; rally_count := rally_count g;
     ai_reaction_delay := ai_reaction_delay g; ai_error := ai_error g |}.

Definition set_ball_y (v : Q) (g : PongGame) : PongGame :=
  {| paddle_height := paddle_height g; paddle_speed := paddle_speed g;
     p1_y := p1_y g; p2_y := p2_y g; p1_x := p1_x g; p2_x := p2_x g;
     ball_x := ball_x g; ball_y := v; ball_vx := ball_vx g;
     ball_vy := ball_vy g; p1_score := p1_score g; p2_score := p2_score g;
     winning_score := winning_score g; game_over := game_over g;
     winner := winner g; paused := paused g; rally_count := rally_count g;
     ai_reaction_delay := ai_reaction_delay g; ai_error := ai_error g |}.

Definition set_ball_vx (v : Q) (g : PongGame) : PongGame :=
  {| paddle_height := paddle_height g; paddle_speed := paddle_speed g;
     p1_y := p1_y g; p2_y := p2_y g; p1_x := p1_x g; p2_x := p2_x g;
     ball_x := ball_x g; ball_y := ball_y g; ball_vx := v;
     ball_vy := ball_vy g; p1_score := p1_score g; p2_score := p2_score g;
     winning_score := winning_score g; game_over := game_over g;
     winner := winner g; paused := paused g; rally_count := rally_count g;
     ai_reaction_delay := ai_reaction_delay g; ai_error := ai_error g |}.

Definition set_ball_vy (v : Q) (g : PongGame) : PongGame :=
  {| paddle_height := paddle_height g; paddle_speed := paddle_speed g;
     p1_y := p1_y g; p2_y := p2_y g; p1_x := p1_x g; p2_x := p2_x g;
     ball_x := ball_x g; ball_y := ball_y g; ball_vx := ball_vx g;
     ball_vy := v; p1_score := p1_score g; p2_score := p2_score g;
     winning_score := winning_score g; game_over := game_over g;
     winner := winner g; paused := paused g; rally_count := rally_count g;
     ai_reaction_delay := ai_reaction_delay g; ai_error := ai_error g |}.

Definition set_p1_score (v : Z) (g : PongGame) : PongGame :=
  {| paddle_height := paddle_height g; paddle_speed := paddle_speed g;
     p1_y := p1_y g; p2_y := p2_y g; p1_x := p1_x g; p2_x := p2_x g;
     ball_x := ball_x g; ball_y := ball_y g; ball_vx := ball_vx g;
     ball_vy := ball_vy g; p1_score := v; p2_score := p2_score g;
     winning_score := winning_score g; game_over := game_over g;
     winner := winner g; paused := paused g; rally_count := rally_count g;
     ai_reaction_delay := ai_reaction_delay g; ai_error := ai_error g |}.

Definition set_p2_score (v : Z) (g : PongGame) : PongGame :=
  {| paddle_height := paddle_height g; paddle_speed := paddle_speed g;
     p1_y := p1_y g; p2_y := p2_y g; p1_x := p1_x g; p2_x := p2_x g;
     ball_x := ball_x g; ball_y := ball_y g; ball_vx := ball_vx g;
     ball_vy := ball_vy g; p1_score := p1_score g; p2_score := v;
     winning_score := winning_score g; game_over := game_over g;
     winner := winner g; paused := paused g; rally_count := rally_count g;
     ai_reaction_delay := ai_reaction_delay g; ai_error := ai_error g |}.

Definition set_game_over (v : bool) (g : PongGame) : PongGame :=
  {| paddle_height := paddle_height g; paddle_speed := paddle_speed g;
     p1_y := p1_y g; p2_y := p2_y g; p1_x := p1_x g; p2_x := p2_x g;
     ball_x := ball_x g; ball_y := ball_y g; ball_vx := ball_vx g;
     ball_vy := ball_vy g; p1_score := p1_score g; p2_score := p2_score g;
     winning_score := winning_score g; game_over := v; winner := winner g;
     paused := paused g; rally_count := rally_count g;
     ai_reaction_delay := ai_reaction_delay g; ai_error := ai_error g |}.

Definition set_winner (v : option Z) (g : PongGame) : PongGame :=
  {| paddle_height := paddle_height g; paddle_speed := paddle_speed g;
     p1_y := p1_y g; p2_y := p2_y g; p1_x := p1_x g; p2_x := p2_x g;
     ball_x := ball_x g; ball_y := ball_y g; ball_vx := ball_vx g;
     ball_vy := ball_vy g; p1_score := p1_score g; p2_score := p2_score g;
     winning_score := winning_score g; game_over := game_over g;
     winner := v; paused := paused g; rally_count := rally_count g;
     ai_reaction_delay := ai_reaction_delay g; ai_error := ai_error g |}.

Definition set_rally_count (v : Z) (g : PongGame) : PongGame :=
  {| paddle_height := paddle_height g; paddle_speed := paddle_speed g;
     p1_y := p1_y g; p2_y := p2_y g; p1_x := p1_x g; p2_x := p2_x g;
     ball_x := ball_x g; ball_y := ball_y g; ball_vx := ball_vx g;
     ball_vy := ball_vy g; p1_score := p1_score g; p2_score := p2_score g;
     winning_score := winning_score g; game_over := game_over g;
     winner := winner g; paused := paused g; rally_count := v;
     ai_reaction_delay := ai_reaction_delay g; ai_error := ai_error g |}.


Local Open Scope Q_scope.

(** [a < b] on numbers. *)
Definition Qltb (a b : Q) : bool := negb (Qle_bool b a).

(** The values drawn from [random] during one call. *)
Record Random : Type := mkRandom {
  choice_dir : Z;   (* random.choice([-1, 1]) *)
  uniform : Q       (* random.uniform(lo, hi) *)
}.

(** [PongGame.reset] *)
Definition reset (r : Random) : PongGame :=
  let paddle_height := 4%Z in
  {| paddle_height := paddle_height;
     paddle_speed := 1;
     p1_y := (HEIGHT - paddle_height) / 2;
     p2_y := (HEIGHT - paddle_height) / 2;
     p1_x := 0;
     p2_x := WIDTH - 1;
     ball_x := inject_Z (WIDTH / 2);
     ball_y := inject_Z (HEIGHT / 2);
     ball_vx := inject_Z (choice_dir r) * 0.8;
     ball_vy := uniform r;
     p1_score := 0;
     p2_score := 0;
     winning_score := 5;
     game_over := false;
     winner := None;
     paused := false;
     rally_count := 0;
     ai_reaction_delay := 2;
     ai_error := 0.3 |}.

(** [PongGame.reset_ball(direction=None)] *)
Definition reset_ball (direction : option Z) (r : Random) (g : PongGame) : PongGame :=
  let g := set_ball_x (inject_Z (WIDTH / 2)) g in
  let g := set_ball_y (inject_Z (HEIGHT / 2)) g in
  let direction :=
    match direction with
    | None => choice_dir r
    | Some d => d
    end in
  let g := set_ball_vx (inject_Z direction * 0.8) g in
  let g := set_ball_vy (uniform r) g in
  set_rally_count 0 g.

(** [move_paddle(paddle, direction)] *)
Definition move_paddle (paddle direction : Z) (g : PongGame) : PongGame :=
  if (paddle =? 1)%Z then
    let new_y := (p1_y g + direction)%Z in
    if ((0 <=? new_y) && (new_y <=? HEIGHT - paddle_height g))%Z
    then set_p1_y new_y g else g
  else
    let new_y := (p2_y g + direction)%Z in
    if ((0 <=? new_y) && (new_y <=? HEIGHT - paddle_height g))%Z
    then set_p2_y new_y g else g.

(** [update_ball], block by block.  [old_x] and [old_y] are stored by the
    source and never read.  [show_score_effect] only paints and flushes the
    display, it does not touch the game state. *)

(* Update position *)
Definition integrate (g : PongGame) : PongGame :=
  let g := set_ball_x (ball_x g + ball_vx g) g in
  set_ball_y (ball_y g + ball_vy g) g.

(* Top/bottom wall collision *)
Definition wall_collision (g : PongGame) : PongGame :=
  if Qle_bool (ball_y g) 0 then
    let g := set_ball_y 0 g in
    set_ball_vy (Qabs (ball_vy g)) g
  else if Qle_bool (inject_Z (HEIGHT - 1)) (ball_y g) then
    let g := set_ball_y (inject_Z (HEIGHT - 1)) g in
    set_ball_vy (- Qabs (ball_vy g)) g
  else g.

(* Paddle 1 collision (left).  The division by [paddle_height] is only
   reached when the paddle span is non-empty, hence [paddle_height >= 1]. *)
Definition paddle1_collision (g : PongGame) : PongGame :=
  if Qle_bool (ball_x g) (inject_Z (p1_x g + 1)) && Qltb (ball_vx g) 0 then
    if Qle_bool (inject_Z (p1_y g)) (ball_y g)
       && Qle_bool (ball_y g) (inject_Z (p1_y g + paddle_height g - 1)) then
      let g := set_ball_x (inject_Z (p1_x g + 1)) g in
      let g := set_ball_vx (Qabs (ball_vx g)) g in
      let hit_pos := (ball_y g - inject_Z (p1_y g)) / inject_Z (paddle_height g) in
      let g := set_ball_vy ((hit_pos - 0.5) * 1.5) g in
      let g := set_ball_vx (Qmin (ball_vx g * 1.05) 2.0) g in
      set_rally_count (rally_count g + 1) g
    else g
  else g.

(* Paddle 2 collision (right) *)
Definition paddle2_collision (g : PongGame) : PongGame :=
  if Qle_bool (inject_Z (p2_x g - 1)) (ball_x g) && Qltb 0 (ball_vx g) then
    if Qle_bool (inject_Z (p2_y g)) (ball_y g)
       && Qle_bool (ball_y g) (inject_Z (p2_y g + paddle_height g - 1)) then
      let g := set_ball_x (inject_Z (p2_x g - 1)) g in
      let g := set_ball_vx (- Qabs (ball_vx g)) g in
      let hit_pos := (ball_y g - inject_Z (p2_y g)) / inject_Z (paddle_height g) in
      let g := set_ball_vy ((hit_pos - 0.5) * 1.5) g in
      let g := set_ball_vx (Qmax (ball_vx g * 1.05) (- 2.0)) g in
      set_rally_count (rally_count g + 1) g
    else g
  else g.

(* Scoring *)
Definition scoring (r : Random) (g : PongGame) : PongGame :=
  if Qle_bool (ball_x g) 0 then
    (* Player 2 scores *)
    let g := set_p2_score (p2_score g + 1) g in
    if (p2_score g >=? winning_score g)%Z then
      let g := set_game_over true g in
      set_winner (Some 2%Z) g
    else reset_ball (Some 1%Z) r g
  else if Qle_bool (inject_Z (WIDTH - 1)) (ball_x g) then
    (* Player 1 scores *)
    let g := set_p1_score (p1_score g + 1) g in
    if (p1_score g >=? winning_score g)%Z then
      let g := set_game_over true g in
      set_winner (Some 1%Z) g
    else reset_ball (Some (-1)%Z) r g
  else g.

(** The ball as the scoring block sees it: moved, bounced off the walls and
    off the paddles. *)
Definition ball_physics (g : PongGame) : PongGame :=
  paddle2_collision (paddle1_collision (wall_collision (integrate g))).

Definition update_ball (r : Random) (g : PongGame) : PongGame :=
  scoring r (ball_physics g).

(** The values [ai_control] draws: for each paddle a [random.random()] roll
    and a [random.randint(-2, 2)] offset. *)
Record AiRandom : Type := mkAiRandom {
  roll1 : Q; offset1 : Z;
  roll2 : Q; offset2 : Z
}.

(** [ai_control] *)
Definition ai_control (a : AiRandom) (g : PongGame) : PongGame :=
  let predict_y := ball_y g + ball_vy g * 3 in
  (* Player 1 AI (left paddle) *)
  let target_y :=
    if Qltb (ball_vx g) 0 then
      let target_y := predict_y - inject_Z (paddle_height g / 2) in
      if Qltb (roll1 a) (ai_error g) then target_y + inject_Z (offset1 a) else target_y
    else inject_Z ((HEIGHT - paddle_height g) / 2) in
  let g :=
    if Qltb (inject_Z (p1_y g)) target_y then move_paddle 1 1 g
    else if Qltb target_y (inject_Z (p1_y g)) then move_paddle 1 (-1) g
    else g in
  (* Player 2 AI (right paddle) *)
  let target_y :=
    if Qltb 0 (ball_vx g) then
      let target_y := predict_y - inject_Z (paddle_height g / 2) in
      if Qltb (roll2 a) (ai_error g) then target_y + inject_Z (offset2 a) else target_y
    else inject_Z ((HEIGHT - paddle_height g) / 2) in
  if Qltb (inject_Z (p2_y g)) target_y then move_paddle 2 1 g
  else if Qltb target_y (inject_Z (p2_y g)) then move_paddle 2 (-1) g
  else g.

(** One sample of the four button pins ([Pin.value()], 0 when pressed). *)
Record Buttons : Type := mkButtons {
  btn_p1_up : Z;
  btn_p1_down : Z;
  btn_p2_up : Z;
  btn_p2_down : Z
}.

(** [check_buttons]; [BUTTONS_ENABLED] is fixed when the pins are set up. *)
Definition check_buttons (BUTTONS_ENABLED : bool) (b : Buttons) (g : PongGame)
  : PongGame * bool :=
  if negb BUTTONS_ENABLED then (g, false)
  else
    let pressed := false in
    let '(g, pressed) :=
      if (btn_p1_up b =? 0)%Z then (move_paddle 1 (-1) g, true) else (g, pressed) in
    let '(g, pressed) :=
      if (btn_p1_down b =? 0)%Z then (move_paddle 1 1 g, true) else (g, pressed) in
    let '(g, pressed) :=
      if (btn_p2_up b =? 0)%Z then (move_paddle 2 (-1) g, true) else (g, pressed) in
    let '(g, pressed) :=
      if (btn_p2_down b =? 0)%Z then (move_paddle 2 1 g, true) else (g, pressed) in
    (g, pressed).

(** The calls [check_buttons] makes, in order: each one is an intent. *)
Inductive Intent : Type :=
| MovePaddle (paddle direction : Z).

Definition apply_intent (g : PongGame) (i : Intent) : PongGame :=
  match i with
  | MovePaddle paddle direction => move_paddle paddle direction g
  end.

Definition emitted (BUTTONS_ENABLED : bool) (b : Buttons) : list Intent :=
  if negb BUTTONS_ENABLED then []
  else
    (if (btn_p1_up b =? 0)%Z then [MovePaddle 1 (-1)] else []) ++
    (if (btn_p1_down b =? 0)%Z then [MovePaddle 1 1] else []) ++
    (if (btn_p2_up b =? 0)%Z then [MovePaddle 2 (-1)] else []) ++
    (if (btn_p2_down b =? 0)%Z then [MovePaddle 2 1] else []).

(** One iteration of the game loop of [run_game] (drawing and sleeping
    left out); [frame] is the loop counter. *)
Definition tick (BUTTONS_ENABLED : bool) (b : Buttons) (a : AiRandom)
  (r : Random) (frame : Z) (g : PongGame) : PongGame :=
  let '(g, buttons_used) := check_buttons BUTTONS_ENABLED b g in
  let g :=
    if negb buttons_used then
      if (frame mod 2 =? 0)%Z then ai_control a g else g
    else g in
  update_ball r g.

(** *** Vocabulary for the statements about the paddle game *)

Definition paddle_y (paddle : Z) (g : PongGame) : Z :=
  if (paddle =? 1)%Z then p1_y g else p2_y g.

Definition paddles_in_range (g : PongGame) : Prop :=
  (0 <= p1_y g <= HEIGHT - paddle_height g)%Z /\
  (0 <= p2_y g <= HEIGHT - paddle_height g)%Z.

(** A sequence of move intents [(paddle, direction)], applied in order. *)
Definition apply_moves (moves : list (Z * Z)) (g : PongGame) : PongGame :=
  fold_left (fun g '(paddle, direction) => move_paddle paddle direction g) moves g.

(** [n] consecutive polls of the same button sample. *)
Definition hold (BUTTONS_ENABLED : bool) (b : Buttons) (n : nat) (g : PongGame) : PongGame :=
  Nat.iter n (fun g => fst (check_buttons BUTTONS_ENABLED b g)) g.

(** A fresh match in which the ball, heading left, is half a cell from the
    left edge and above paddle 1 (which spans rows 6 to 9). *)
Definition left_miss : PongGame :=
  let g := reset {| choice_dir := -1; uniform := 0 |} in
  let g := set_ball_x 0.5 g in
  set_ball_y 1 g.

(** Only the "player 1 down" button is held. *)
Definition p1_down_held : Buttons :=
  {| btn_p1_up := 1; btn_p1_down := 0; btn_p2_up := 1; btn_p2_down := 1 |}.

End Pong.

(** ** The formation shooter ([src/space_invaders.py]) *)

Module Invaders.

Import Display.

(* Alien colors by row *)
Definition ALIEN_COLORS : list Color := [MAGENTA; CYAN; GREEN; YELLOW; ORANGE].

(** [set_pixel(x, y, color)] *)
Definition set_pixel (x y : Z) (color : Color) (np : Buffer) : Buffer :=
  let idx := xy_to_index x y in
  if idx >=? 0 then store (Z.to_nat idx) (scale_color color) np else np.

(** Sprites, as offsets relative to the position of their owner. *)
Definition PLAYER_SPRITE : list (Z * Z) := [(0, 0); (-1, 0); (1, 0); (0, -1)].
Definition ALIEN_SPRITE_1 : list (Z * Z) := [(-1, 0); (0, 0); (1, 0); (-1, -1); (1, -1)].
Definition ALIEN_SPRITE_2 : list (Z * Z) := [(-1, 0); (0, 0); (1, 0); (0, -1)].
Definition ALIEN_SPRITE_3 : list (Z * Z) := [(0, 0); (-1, -1); (1, -1)].

(** An alien is the dict [{'x', 'y', 'alive', 'type'}]. *)
Record Alien : Type := mkAlien {
  alien_x : Z;
  alien_y : Z;
  alien_alive : bool;
  alien_type : Z
}.

(** A bullet is the two-element list [[x, y]]. *)
Definition Bullet : Type := (Z * Z)%type.

(** The game object.  Every attribute [Game.reset] creates is a field. *)
Record Game : Type := mkGame {
  player_x : Z;
  player_y : Z;
  player_alive : bool;
  player_bullets : list Bullet;
  alien_bullets : list Bullet;
  aliens : list Alien;
  alien_direction : Z;
  alien_drop : bool;
  score : Z;
  level : Z;
  game_over : bool;
  victory : bool;
  last_alien_move : Z;
  last_alien_shot : Z;
  alien_speed : Z;
  auto_target_x : Z;
  auto_fire_cooldown : Z
}.

Definition set_player_x (v : Z) (g : Game) : Game :=
  {| player_x := v; player_y := player_y g;
     player_alive := player_alive g; player_bullets := player_bullets g;
     alien_bullets := alien_bullets g; aliens := aliens g;
     alien_direction := alien_direction g; alien_drop := alien_drop g;
     score := score g; level := level g; game_over := game_over g;
     victory := victory g; last_alien_move := last_alien_move g;
     last_alien_shot := last_alien_shot g; alien_speed := alien_speed g;
     auto_target_x := auto_target_x g;
     auto_fire_cooldown := auto_fire_cooldown g |}.

Definition set_player_alive (v : bool) (g : Game) : Game :=
  {| player_x := player_x g; player_y := player_y g; player_alive := v;
     player_bullets := player_bullets g; alien_bullets := alien_bullets g;
     aliens := aliens g; alien_direction := alien_direction g;
     alien_drop := alien_drop g; score := score g; level := level g;
     game_over := game_over g; victory := victory g;
     last_alien_move := last_alien_move g;
     last_alien_shot := last_alien_shot g; alien_speed := alien_speed g;
     auto_target_x := auto_target_x g;
     auto_fire_cooldown := auto_fire_cooldown g |}.

Definition set_player_bullets (v : list Bullet) (g : Game) : Game :=
  {| player_x := player_x g; player_y := player_y g;
     player_alive := player_alive g; player_bullets := v;
     alien_bullets := alien_bullets g; aliens := aliens g;
     alien_direction := alien_direction g; alien_drop := alien_drop g;
     score := score g; level := level g; game_over := game_over g;
     victory := victory g; last_alien_move := last_alien_move g;
     last_alien_shot := last_alien_shot g; alien_speed := alien_speed g;
     auto_target_x := auto_target_x g;
     auto_fire_cooldown := auto_fire_cooldown g |}.

Definition set_alien_bullets (v : list Bullet) (g : Game) : Game :=
  {| player_x := player_x g; player_y := player_y g;
     player_alive := player_alive g; player_bullets := player_bullets g;
     alien_bullets := v; aliens := aliens g;
     alien_direction := alien_direction g; alien_drop := alien_drop g;
     score := score g; level := level g; game_over := game_over g;
     victory := victory g; last_alien_move := last_alien_move g;
     last_alien_shot := last_alien_shot g; alien_speed := alien_speed g;
     auto_target_x := auto_target_x g;
     auto_fire_cooldown := auto_fire_cooldown g |}.

Definition set_aliens (v : list Alien) (g : Game) : Game :=
  {| player_x := player_x g; player_y := player_y g;
     player_alive := player_alive g; player_bullets := player_bullets g;
     alien_bullets := alien_bullets g; aliens := v;
     alien_direction := alien_direction g; alien_drop := alien_drop g;
     score := score g; level := level g; game_over := game_over g;
     victory := victory g; last_alien_move := last_alien_move g;
     last_alien_shot := last_alien_shot g; alien_speed := alien_speed g;
     auto_target_x := auto_target_x g;
     auto_fire_cooldown := auto_fire_cooldown g |}.

Definition set_alien_direction (v : Z) (g : Game) : Game :=
  {| player_x := player_x g; player_y := player_y g;
     player_alive := player_alive g; player_bullets := player_bullets g;
     alien_bullets := alien_bullets g; aliens := aliens g;
     alien_direction := v; alien_drop := alien_drop g; score := score g;
     level := level g; game_over := game_over g; victory := victory g;
     last_alien_move := last_alien_move g;
     last_alien_shot := last_alien_shot g; alien_speed := alien_speed g;
     auto_target_x := auto_target_x g;
     auto_fire_cooldown := auto_fire_cooldown g |}.

Definition set_score (v : Z) (g : Game) : Game :=
  {| player_x := player_x g; player_y := player_y g;
     player_alive := player_alive g; player_bullets := player_bullets g;
     alien_bullets := alien_bullets g; aliens := aliens g;
     alien_direction := alien_direction g; alien_drop := alien_drop g;
     score := v; level := level g; game_over := game_over g;
     victory := victory g; last_alien_move := last_alien_move g;
     last_alien_shot := last_alien_shot g; alien_speed := alien_speed g;
     auto_target_x := auto_target_x g;
     auto_fire_cooldown := auto_fire_cooldown g |}.

Definition set_level (v : Z) (g : Game) : Game :=
  {| player_x := player_x g; player_y := player_y g;
     player_alive := player_alive g; player_bullets := player_bullets g;
     alien_bullets := alien_bullets g; aliens := aliens g;
     alien_direction := alien_direction g; alien_drop := alien_drop g;
     score := score g; level := v; game_over := game_over g;
     victory := victory g; last_alien_move := last_alien_move g;
     last_alien_shot := last_alien_shot g; alien_speed := alien_speed g;
     auto_target_x := auto_target_x g;
     auto_fire_cooldown := auto_fire_cooldown g |}.

Definition set_game_over (v : bool) (g : Game) : Game :=
  {| player_x := player_x g; player_y := player_y g;
     player_alive := player_alive g; player_bullets := player_bullets g;
     alien_bullets := alien_bullets g; aliens := aliens g;
     alien_direction := alien_direction g; alien_drop := alien_drop g;
     score := score g; level := level g; game_over := v;
     victory := victory g; last_alien_move := last_alien_move g;
     last_alien_shot := last_alien_shot g; alien_speed := alien_speed g;
     auto_target_x := auto_target_x g;
     auto_fire_cooldown := auto_fire_cooldown g |}.

Definition set_victory (v : bool) (g : Game) : Game :=
  {| player_x := player_x g; player_y := player_y g;
     player_alive := player_alive g; player_bullets := player_bullets g;
     alien_bullets := alien_bullets g; aliens := aliens g;
     alien_direction := alien_direction g; alien_drop := alien_drop g;
     score := score g; level := level g; game_over := game_over g;
     victory := v; last_alien_move := last_alien_move g;
     last_alien_shot := last_alien_shot g; alien_speed := alien_speed g;
     auto_target_x := auto_target_x g;
     auto_fire_cooldown := auto_fire_cooldown g |}.

Definition set_last_alien_move (v : Z) (g : Game) : Game :=
  {| player_x := player_x g; player_y := player_y g;
     player_alive := player_alive g; player_bullets := player_bullets g;
     alien_bullets := alien_bullets g; aliens := aliens g;
     alien_direction := alien_direction g; alien_drop := alien_drop g;
     score := score g; level := level g; game_over := game_over g;
     victory := victory g; last_alien_move := v;
     last_alien_shot := last_alien_shot g; alien_speed := alien_speed g;
     auto_target_x := auto_target_x g;
     auto_fire_cooldown := auto_fire_cooldown g |}.

Definition set_last_alien_shot (v : Z) (g : Game) : Game :=
  {| player_x := player_x g; player_y := player_y g;
     player_alive := player_alive g; player_bullets := player_bullets g;
     alien_bullets := alien_bullets g; aliens := aliens g;
     alien_direction := alien_direction g; alien_drop := alien_drop g;
     score := score g; level := level g; game_over := game_over g;
     victory := victory g; last_alien_move := last_alien_move g;
     last_alien_shot := v; alien_speed := alien_speed g;
     auto_target_x := auto_target_x g;
     auto_fire_cooldown := auto_fire_cooldown g |}.

Definition set_alien_speed (v : Z) (g : Game) : Game :=
  {| player_x := player_x g; player_y := player_y g;
     player_alive := player_alive g; player_bullets := player_bullets g;
     alien_bullets := alien_bullets g; aliens := aliens g;
     alien_direction := alien_direction g; alien_drop := alien_drop g;
     score := score g; level := level g; game_over := game_over g;
     victory := victory g; last_alien_move := last_alien_move g;
     last_alien_shot := last_alien_shot g; alien_speed := v;
     auto_target_x := auto_target_x g;
     auto_fire_cooldown := auto_fire_cooldown g |}.

Definition set_auto_fire_cooldown (v : Z) (g : Game) : Game :=
  {| player_x := player_x g; player_y := player_y g;
     player_alive := player_alive g; player_bullets := player_bullets g;
     alien_bullets := alien_bullets g; aliens := aliens g;
     alien_direction := alien_direction g; alien_drop := alien_drop g;
     score := score g; level := level g; game_over := game_over g;
     victory := victory g; last_alien_move := last_alien_move g;
     last_alien_shot := last_alien_shot g; alien_speed := alien_speed g;
     auto_target_x := auto_target_x g; auto_fire_cooldown := v |}.

(** [range(n)] *)
Definition range (n : Z) : list Z := map Z.of_nat (seq 0 (Z.to_nat n)).

(** [Game.spawn_aliens] *)
Definition spawn_row (cols start_x start_y row : Z) : list Alien :=
  let sprite_type := row mod 3 in
  flat_map (fun col =>
    let x := start_x + col * 2 in
    let y := start_y + row * 2 in
    if x <? WIDTH - 1
    then [{| alien_x := x; alien_y := y; alien_alive := true; alien_type := sprite_type |}]
    else []) (range cols).

Definition spawn_aliens (g : Game) : Game :=
  let rows := Z.min (3 + level g / 2) 5 in
  let cols := Z.min (6 + level g) 11 in
  let start_x := (WIDTH - cols * 2) / 2 + 1 in
  let start_y := 1 in
  let g := set_aliens (flat_map (spawn_row cols start_x start_y) (range rows)) g in
  set_alien_speed (Z.max 150 (400 - level g * 30)) g.

(** [Game.reset] *)
Definition reset : Game :=
  let player_x := WIDTH / 2 in
  spawn_aliens
    {| player_x := player_x;
       player_y := HEIGHT - 1;
       player_alive := true;
       player_bullets := [];
       alien_bullets := [];
       aliens := [];
       alien_direction := 1;
       alien_drop := false;
       score := 0;
       level := 1;
       game_over := false;
       victory := false;
       last_alien_move := 0;
       last_alien_shot := 0;
       alien_speed := 400;
       auto_target_x := player_x;
       auto_fire_cooldown := 0 |}.

(** Drawing: a sprite is painted pixel by pixel through [set_pixel]. *)
Definition draw_sprite (x y : Z) (color : Color) (sprite : list (Z * Z))
  (np : Buffer) : Buffer :=
  fold_left (fun np '(dx, dy) => set_pixel (x + dx) (y + dy) color np) sprite np.

(** [draw_player] *)
Definition draw_player (g : Game) (np : Buffer) : Buffer :=
  if negb (player_alive g) then np
  else draw_sprite (player_x g) (player_y g) GREEN PLAYER_SPRITE np.

(** The body of the loop of [draw_aliens]. *)
Definition draw_alien (np : Buffer) (alien : Alien) : Buffer :=
  if negb (alien_alive alien) then np
  else
    let color :=
      nth (Z.to_nat (alien_type alien mod Z.of_nat (length ALIEN_COLORS)))
          ALIEN_COLORS BLACK in
    let sprite :=
      if alien_type alien =? 0 then ALIEN_SPRITE_1
      else if alien_type alien =? 1 then ALIEN_SPRITE_2
      else ALIEN_SPRITE_3 in
    draw_sprite (alien_x alien) (alien_y alien) color sprite np.

(** [draw_aliens] *)
Definition draw_aliens (g : Game) (np : Buffer) : Buffer :=
  fold_left draw_alien (aliens g) np.

(** [draw_bullets] *)
Definition draw_bullets (g : Game) (np : Buffer) : Buffer :=
  let np := fold_left (fun np '(bx, by_) => set_pixel bx by_ YELLOW np) (player_bullets g) np in
  fold_left (fun np '(bx, by_) => set_pixel bx by_ RED np) (alien_bullets g) np.

(** [draw_score] *)
Definition draw_score (g : Game) (np : Buffer) : Buffer :=
  fold_left (fun np i => set_pixel (WIDTH - 1 - i) 0 WHITE np) (range (Z.min (level g) 3)) np.

(** [move_player(direction)] *)
Definition move_player (direction : Z) (g : Game) : Game :=
  let new_x := player_x g + direction in
  if (1 <=? new_x) && (new_x <=? WIDTH - 2) then set_player_x new_x g else g.

(** [fire_player] *)
Definition fire_player (g : Game) : Game :=
  if Z.of_nat (length (player_bullets g)) <? 3
  then set_player_bullets (player_bullets g ++ [(player_x g, player_y g - 2)]) g
  else g.

(** [move_bullets] *)
Definition move_bullets (g : Game) : Game :=
  (* Player bullets move up *)
  let new_bullets :=
    flat_map (fun '(bx, by_) => let by_ := by_ - 1 in if by_ >=? 0 then [(bx, by_)] else [])
             (player_bullets g) in
  let g := set_player_bullets new_bullets g in
  (* Alien bullets move down *)
  let new_bullets :=
    flat_map (fun '(bx, by_) => let by_ := by_ + 1 in if by_ <? HEIGHT then [(bx, by_)] else [])
             (alien_bullets g) in
  set_alien_bullets new_bullets g.

Definition set_alien_x (v : Z) (a : Alien) : Alien :=
  {| alien_x := v; alien_y := alien_y a; alien_alive := alien_alive a; alien_type := alien_type a |}.

Definition set_alien_y (v : Z) (a : Alien) : Alien :=
  {| alien_x := alien_x a; alien_y := v; alien_alive := alien_alive a; alien_type := alien_type a |}.

Definition set_alien_alive (v : bool) (a : Alien) : Alien :=
  {| alien_x := alien_x a; alien_y := alien_y a; alien_alive := v; alien_type := alien_type a |}.

(** The edge test of [move_aliens] for one alien; the loop stops at the
    first alien that passes it. *)
Definition at_edge (direction : Z) (alien : Alien) : bool :=
  alien_alive alien &&
  (((alien_x alien <=? 1) && (direction =? -1)) ||
   ((alien_x alien >=? WIDTH - 2) && (direction =? 1))).

Definition hit_edge (direction : Z) (l : list Alien) : bool := existsb (at_edge direction) l.

(** The drop loop of [move_aliens]: living aliens go down one row, in list
    order; the loop returns as soon as one of them reaches row
    [HEIGHT - 2], which leaves the aliens after it where they were.  The
    boolean tells whether that happened. *)
Fixpoint drop_aliens (l : list Alien) : list Alien * bool :=
  match l with
  | [] => ([], false)
  | alien :: rest =>
      if alien_alive alien then
        let alien := set_alien_y (alien_y alien + 1) alien in
        if alien_y alien >=? HEIGHT - 2 then (alien :: rest, true)
        else let '(rest, over) := drop_aliens rest in (alien :: rest, over)
      else let '(rest, over) := drop_aliens rest in (alien :: rest, over)
  end.

(** The horizontal loop of [move_aliens]. *)
Definition shift_aliens (direction : Z) (l : list Alien) : list Alien :=
  map (fun alien =>
         if alien_alive alien then set_alien_x (alien_x alien + direction) alien
         else alien) l.

(** [move_aliens]; [current_time] is what [time.ticks_ms()] returns. *)
Definition move_aliens (ticks_diff : Z -> Z -> Z) (current_time : Z) (g : Game) : Game :=
  if ticks_diff current_time (last_alien_move g) <? alien_speed g then g
  else
    let g := set_last_alien_move current_time g in
    if hit_edge (alien_direction g) (aliens g) then
      (* Drop down and reverse direction *)
      let g := set_alien_direction (alien_direction g * -1) g in
      let '(l, over) := drop_aliens (aliens g) in
      let g := set_aliens l g in
      if over then set_game_over true g else g
    else
      (* Move horizontally *)
      set_aliens (shift_aliens (alien_direction g) (aliens g)) g.

(** The dict [bottom_aliens] of [alien_shoot], keyed by column. *)
Fixpoint dict_get (col : Z) (d : list (Z * Alien)) : option Alien :=
  match d with
  | [] => None
  | (k, a) :: rest => if k =? col then Some a else dict_get col rest
  end.

Fixpoint dict_set (col : Z) (v : Alien) (d : list (Z * Alien)) : list (Z * Alien) :=
  match d with
  | [] => [(col, v)]
  | (k, a) :: rest => if k =? col then (k, v) :: rest else (k, a) :: dict_set col v rest
  end.

Definition bottom_insert (d : list (Z * Alien)) (a : Alien) : list (Z * Alien) :=
  let col := alien_x a in
  match dict_get col d with
  | None => dict_set col a d
  | Some b => if alien_y a >? alien_y b then dict_set col a d else d
  end.

(** [random.choice(seq)] on a non-empty sequence; [rnd] is the draw. *)
Definition random_choice {A : Type} (rnd : nat) (l : list A) : option A :=
  nth_error l (rnd mod length l)%nat.

(** [alien_shoot] *)
Definition alien_shoot (ticks_diff : Z -> Z -> Z) (current_time : Z) (rnd : nat)
  (g : Game) : Game :=
  let shoot_interval := Z.max 500 (1500 - level g * 100) in
  if ticks_diff current_time (last_alien_shot g) <? shoot_interval then g
  else
    let g := set_last_alien_shot current_time g in
    (* Get alive aliens *)
    let alive := filter alien_alive (aliens g) in
    match alive with
    | [] => g
    | _ :: _ =>
        (* Bottom aliens more likely to shoot *)
        let bottom_aliens := fold_left bottom_insert alive [] in
        match random_choice rnd (map snd bottom_aliens) with
        | Some shooter =>
            if Z.of_nat (length (alien_bullets g)) <? 5
            then set_alien_bullets
                   (alien_bullets g ++ [(alien_x shooter, alien_y shooter + 1)]) g
            else g
        | None => g
        end
    end.

(** Simple hit detection: both coordinates within one cell. *)
Definition near (bx by_ x y : Z) : bool :=
  (Z.abs (bx - x) <=? 1) && (Z.abs (by_ - y) <=? 1).

(** The inner loop of [check_collisions]: the first living alien next to
    the bullet is marked dead; its type is returned with the new roster. *)
Fixpoint hit_alien (bx by_ : Z) (l : list Alien) : option (Z * list Alien) :=
  match l with
  | [] => None
  | alien :: rest =>
      if negb (alien_alive alien) then
        match hit_alien bx by_ rest with
        | Some (t, rest) => Some (t, alien :: rest)
        | None => None
        end
      else if near bx by_ (alien_x alien) (alien_y alien) then
        Some (alien_type alien, set_alien_alive false alien :: rest)
      else
        match hit_alien bx by_ rest with
        | Some (t, rest) => Some (t, alien :: rest)
        | None => None
        end
  end.

Definition Bullet_eqb (a b : Bullet) : bool := (fst a =? fst b) && (snd a =? snd b).

(** [list.remove(v)]: the first element equal to [v] goes; the source
    calls it only after [v in list] held. *)
Fixpoint remove_first (v : Bullet) (l : list Bullet) : list Bullet :=
  match l with
  | [] => []
  | b :: rest => if Bullet_eqb b v then rest else b :: remove_first v rest
  end.

Definition alive_count (l : list Alien) : Z := Z.of_nat (length (filter alien_alive l)).

(** The body of the player-bullet loop of [check_collisions].  The new
    [alien_speed] goes through float arithmetic in the source; it is
    computed here with exact rationals. *)
Definition bullet_hits (g : Game) (bullet : Bullet) : Game :=
  let '(bx, by_) := bullet in
  match hit_alien bx by_ (aliens g) with
  | None => g
  | Some (t, l) =>
      let g := set_aliens l g in
      let g :=
        if existsb (Bullet_eqb bullet) (player_bullets g)
        then set_player_bullets (remove_first bullet (player_bullets g)) g
        else g in
      let g := set_score (score g + 10 * (t + 1)) g in
      (* Speed up remaining aliens *)
      let alive_count := alive_count (aliens g) in
      if alive_count >? 0 then
        let speed_factor := (inject_Z alive_count / inject_Z (Z.of_nat (length (aliens g))))%Q in
        set_alien_speed (py_int (Qmax 80 (400 * speed_factor))) g
      else g
  end.

(** [check_collisions] *)
Definition check_collisions (g : Game) : Game :=
  (* Player bullets hit aliens *)
  let g := fold_left bullet_hits (player_bullets g) g in
  (* Alien bullets hit player *)
  if existsb (fun '(bx, by_) => near bx by_ (player_x g) (player_y g)) (alien_bullets g) then
    let g := set_player_alive false g in
    set_game_over true g
  else
    (* Check victory *)
    if forallb (fun a => negb (alien_alive a)) (aliens g) then set_victory true g else g.

(** [auto_play] *)
Definition auto_play (g : Game) : Game :=
  (* Find nearest alien above player *)
  let alive_aliens := filter alien_alive (aliens g) in
  let '(target_x, min_dist) :=
    fold_left (fun '(target_x, min_dist) alien =>
                 let dist := Z.abs (alien_x alien - player_x g) in
                 if dist <? min_dist then (alien_x alien, dist) else (target_x, min_dist))
              alive_aliens (player_x g, 999) in
  (* Dodge incoming bullets *)
  let target_x :=
    match find (fun '(bx, by_) => (by_ >? HEIGHT - 4) && (Z.abs (bx - player_x g) <? 2))
               (alien_bullets g) with
    | Some (bx, _) => if bx <=? player_x g then player_x g + 2 else player_x g - 2
    | None => target_x
    end in
  (* Move toward target *)
  let g :=
    if player_x g <? target_x then move_player 1 g
    else if player_x g >? target_x then move_player (-1) g
    else g in
  (* Fire when aligned with alien *)
  let g := set_auto_fire_cooldown (auto_fire_cooldown g - 1) g in
  if auto_fire_cooldown g <=? 0 then
    if existsb (fun alien => Z.abs (alien_x alien - player_x g) <=? 1) alive_aliens then
      let g := fire_player g in
      set_auto_fire_cooldown 3 g
    else g
  else g.

(** One sample of the three button pins ([Pin.value()], 0 when pressed). *)
Record Buttons : Type := mkButtons {
  btn_left : Z;
  btn_right : Z;
  btn_fire : Z
}.

(** [check_buttons]; [BUTTONS_ENABLED] is fixed when the pins are set up. *)
Definition check_buttons (BUTTONS_ENABLED : bool) (b : Buttons) (g : Game) : Game * bool :=
  if negb BUTTONS_ENABLED then (g, false)
  else
    let button_pressed := false in
    let '(g, button_pressed) :=
      if btn_left b =? 0 then (move_player (-1) g, true) else (g, button_pressed) in
    let '(g, button_pressed) :=
      if btn_right b =? 0 then (move_player 1 g, true) else (g, button_pressed) in
    let '(g, button_pressed) :=
      if btn_fire b =? 0 then (fire_player g, true) else (g, button_pressed) in
    (g, button_pressed).

(** The calls [check_buttons] makes, in order: each one is an intent. *)
Inductive Intent : Type :=
| MovePlayer (direction : Z)
| FirePlayer.

Definition apply_intent (g : Game) (i : Intent) : Game :=
  match i with
  | MovePlayer direction => move_player direction g
  | FirePlayer => fire_player g
  end.

Definition emitted (BUTTONS_ENABLED : bool) (b : Buttons) : list Intent :=
  if negb BUTTONS_ENABLED then []
  else
    (if btn_left b =? 0 then [MovePlayer (-1)] else []) ++
    (if btn_right b =? 0 then [MovePlayer 1] else []) ++
    (if btn_fire b =? 0 then [FirePlayer] else []).

(** What one iteration of the game loop reads from outside the game. *)
Record Inputs : Type := mkInputs {
  buttons : Buttons;
  move_time : Z;    (* time.ticks_ms() in move_aliens *)
  shoot_time : Z;   (* time.ticks_ms() in alien_shoot *)
  shooter_draw : nat
}.

(** The state updates of one iteration of the game loop of [run_game],
    in three stretches: input, then what precedes the collision test,
    then the collision test. *)
Definition handle_input (BUTTONS_ENABLED : bool) (b : Buttons) (g : Game) : Game :=
  let '(g, pressed) := check_buttons BUTTONS_ENABLED b g in
  if negb pressed then auto_play g else g.

Definition before_move_aliens (BUTTONS_ENABLED : bool) (i : Inputs) (g : Game) : Game :=
  let g := handle_input BUTTONS_ENABLED (buttons i) g in
  move_bullets g.

Definition before_check_collisions (BUTTONS_ENABLED : bool) (ticks_diff : Z -> Z -> Z)
  (i : Inputs) (g : Game) : Game :=
  let g := before_move_aliens BUTTONS_ENABLED i g in
  let g := move_aliens ticks_diff (move_time i) g in
  alien_shoot ticks_diff (shoot_time i) (shooter_draw i) g.

Definition update (BUTTONS_ENABLED : bool) (ticks_diff : Z -> Z -> Z) (i : Inputs)
  (g : Game) : Game :=
  let g := before_check_collisions BUTTONS_ENABLED ticks_diff i g in
  check_collisions g.

(** What the same iteration draws, on the cleared buffer. *)
Definition render (g : Game) (np : Buffer) : Buffer :=
  let np := clear np in
  let np := draw_aliens g np in
  let np := draw_bullets g np in
  let np := draw_player g np in
  draw_score g np.

(** The [if game.victory:] branch that ends a level in [run_game]
    ([show_victory] only animates the display). *)
Definition next_level (g : Game) : Game :=
  let g := set_level (level g + 1) g in
  let g := set_victory false g in
  let g := set_game_over false g in
  let g := spawn_aliens g in
  let g := set_player_bullets [] g in
  set_alien_bullets [] g.

(** *** Vocabulary for the statements about the shooter *)

(** The roster without its dead aliens, and the game seen that way. *)
Definition living (l : list Alien) : list Alien := filter alien_alive l.

Definition erase_dead (g : Game) : Game := set_aliens (living (aliens g)) g.

(** [alien_speed] is computed from [len(game.aliens)], dead ones included;
    it is set aside when two games are compared up to their dead aliens. *)
Definition forget_speed (g : Game) : Game := set_alien_speed 0 g.

(** A dead alien is found unchanged. *)
Definition stays_dead (a a' : Alien) : Prop := alien_alive a = false -> a' = a.

(** Some living alien stands one row above row [HEIGHT - 2]. *)
Definition reaches_bottom (l : list Alien) : bool :=
  existsb (fun a => alien_alive a && (alien_y a + 1 >=? HEIGHT - 2)) l.

(** [move_aliens] runs its drop loop and a living alien reaches the
    bottom rows in it. *)
Definition drop_event (ticks_diff : Z -> Z -> Z) (current_time : Z) (g : Game) : bool :=
  negb (ticks_diff current_time (last_alien_move g) <? alien_speed g)
  && hit_edge (alien_direction g) (aliens g)
  && reaches_bottom (aliens g).

(** An alien bullet is within one cell of the player on both axes. *)
Definition player_hit (g : Game) : bool :=
  existsb (fun '(bx, by_) => near bx by_ (player_x g) (player_y g)) (alien_bullets g).

(** The formation a level asks for, and what fits left of column 15. *)
Definition formation_rows (level : Z) : Z := Z.min (3 + level / 2) 5.
Definition formation_cols (level : Z) : Z := Z.min (6 + level) 11.
Definition columns_spawned (level : Z) : Z :=
  if level <=? 2 then 7 else if level <=? 4 then 8 else 9.

(** A sequence of [move_player] calls. *)
Definition apply_player_moves (directions : list Z) (g : Game) : Game :=
  fold_left (fun g direction => move_player direction g) directions g.

(** [n] consecutive polls of the same button sample. *)
Definition hold (BUTTONS_ENABLED : bool) (b : Buttons) (n : nat) (g : Game) : Game :=
  Nat.iter n (fun g => fst (check_buttons BUTTONS_ENABLED b g)) g.

(** Only the fire button is held. *)
Definition fire_held : Buttons := {| btn_left := 1; btn_right := 1; btn_fire := 0 |}.

(** A level-1 game down to its last alien, with a player bullet on that
    alien and an alien bullet one row above the player. *)
Definition last_stand : Game :=
  let g := set_aliens
             [{| alien_x := 4; alien_y := 5; alien_alive := true; alien_type := 2 |}]
             reset in
  let g := set_player_bullets [(4, 6)] g in
  set_alien_bullets [(8, 14)] g.

(** What the player-bullet loop of [check_collisions] leaves alone. *)
Definition bullet_loop_frame (g h : Game) : Prop :=
  game_over h = game_over g /\ victory h = victory g /\
  alien_bullets h = alien_bullets g /\ player_x h = player_x g /\
  player_y h = player_y g /\ player_alive h = player_alive g /\
  level h = level g.

(** [h] has the flags and the roster of [g]. *)
Definition untouched (g h : Game) : Prop :=
  game_over h = game_over g /\ victory h = victory g /\ aliens h = aliens g.

(** The outcome of the alien scan of one bullet, up to dead aliens. *)
Definition observe_hit (o : option (Z * list Alien)) : option (Z * list Alien) :=
  match o with
  | Some (t, l) => Some (t, living l)
  | None => None
  end.

(** Consecutive iterations of the game loop, one per entry of [inputs]. *)
Definition run (BUTTONS_ENABLED : bool) (ticks_diff : Z -> Z -> Z) (inputs : list Inputs)
  (g : Game) : Game :=
  fold_left (fun g i => update BUTTONS_ENABLED ticks_diff i g) inputs g.

End Invaders.

(** ** Drawing and vocabulary of the paddle game *)

Module PongMore.

Import Display Pong.

Definition BLUE : Color := (0, 100, 255).

(** [range(start, stop, step)] for a positive [step]. *)
Definition range_step (start stop step : Z) : list Z :=
  map (fun k => start + k * step) (Invaders.range ((stop - start + step - 1) / step)).

(** [draw_paddle(x, y, height, color)] *)
Definition draw_paddle (x y height : Z) (color : Color) (np : Buffer) : Buffer :=
  fold_left (fun np i => set_pixel (inject_Z x) (inject_Z (y + i)) color np)
            (Invaders.range height) np.

(** [draw_ball(x, y, color)] *)
Definition draw_ball (x y : Q) (color : Color) (np : Buffer) : Buffer :=
  set_pixel (inject_Z (py_int x)) (inject_Z (py_int y)) color np.

(** [draw_center_line] *)
Definition draw_center_line (np : Buffer) : Buffer :=
  fold_left (fun np y => set_pixel (inject_Z (WIDTH / 2)) (inject_Z y) (50, 50, 50) np)
            (range_step 0 HEIGHT 2) np.

(** [draw_score(score, x_start, color)] *)
Definition draw_score (score x_start : Z) (color : Color) (np : Buffer) : Buffer :=
  fold_left (fun np i => set_pixel (inject_Z x_start) (inject_Z (HEIGHT - 1 - i)) color np)
            (Invaders.range (Z.min score HEIGHT)) np.

(** [draw_game], up to the final [show()] which only flushes the buffer. *)
Definition draw_game (g : PongGame) (np : Buffer) : Buffer :=
  let np := clear np in
  (* Center line *)
  let np := draw_center_line np in
  (* Paddles *)
  let np := draw_paddle (p1_x g) (p1_y g) (paddle_height g) BLUE np in
  let np := draw_paddle (p2_x g) (p2_y g) (paddle_height g) RED np in
  (* Ball with trail effect *)
  let trail_color := (100, 100, 50) in
  let np :=
    if Qltb 0 (ball_vx g)
    then set_pixel (inject_Z (py_int (ball_x g) - 1)) (inject_Z (py_int (ball_y g)))
                   trail_color np
    else set_pixel (inject_Z (py_int (ball_x g) + 1)) (inject_Z (py_int (ball_y g)))
                   trail_color np in
  let np := draw_ball (ball_x g) (ball_y g) WHITE np in
  (* Scores (small dots at top) *)
  let np := fold_left (fun np i => set_pixel (inject_Z (2 + i)) 0 BLUE np)
                      (Invaders.range (p1_score g)) np in
  fold_left (fun np i => set_pixel (inject_Z (WIDTH - 3 - i)) 0 RED np)
            (Invaders.range (p2_score g)) np.

(** The slot of the buffer that shows the cell [(x, y)]. *)
Definition pixel (x y : Z) (np : Buffer) : Color :=
  nth (Z.to_nat (xy_to_index x y)) np BLACK.

(** The horizontal speed is between the serve speed and the cap. *)
Definition speed_ok (g : PongGame) : Prop :=
  (0.8 <= Qabs (ball_vx g) <= 2)%Q.

(** The state of the match: while it runs nobody has reached
    [winning_score] and there is no winner; once it is over the winner has
    exactly [winning_score] and the other player less. *)
Definition match_consistent (g : PongGame) : Prop :=
  if game_over g then
    (winner g = Some 1 /\ p1_score g = winning_score g /\ p2_score g < winning_score g) \/
    (winner g = Some 2 /\ p2_score g = winning_score g /\ p1_score g < winning_score g)
  else
    winner g = None /\ p1_score g < winning_score g /\ p2_score g < winning_score g.

(** The row on which [ai_control] parks a paddle. *)
Definition center_row (g : PongGame) : Z := (HEIGHT - paddle_height g) / 2.

(** A game with its two paddle rows set aside: what [move_paddle] never
    changes. *)
Definition paddles_aside (g : PongGame) : PongGame := set_p2_y 0 (set_p1_y 0 g).

(** [n] iterations of the game loop of [run_game], with the inputs of
    each one ([frame] counts from [frame0]). *)
Fixpoint ticks (BUTTONS_ENABLED : bool) (inputs : list (Buttons * AiRandom * Random))
  (frame0 : Z) (g : PongGame) : PongGame :=
  match inputs with
  | [] => g
  | (b, a, r) :: rest =>
      ticks BUTTONS_ENABLED rest (frame0 + 1) (tick BUTTONS_ENABLED b a r frame0 g)
  end.

End PongMore.

(** ** Further code and vocabulary of the formation shooter *)

Module InvadersMore.

Import Display Invaders.

(** [wheel(pos)]: the rainbow colour wheel of the victory animation. *)
Definition wheel (pos : Z) : Color :=
  let pos := pos mod 256 in
  if pos <? 85 then (255 - pos * 3, pos * 3, 0)
  else if pos <? 170 then
    let pos := pos - 85 in (0, 255 - pos * 3, pos * 3)
  else
    let pos := pos - 170 in (pos * 3, 0, 255 - pos * 3).

(** The caps of [fire_player] and [alien_shoot]. *)
Definition bullets_capped (g : Game) : Prop :=
  (length (player_bullets g) <= 3)%nat /\ (length (alien_bullets g) <= 5)%nat.

(** Bullet [a] flies above bullet [b]. *)
Definition above (a b : Bullet) : Prop := snd a < snd b.

(** The player stands on the bottom row inside columns 1..14, and the
    player bullets, oldest first, are on strictly increasing rows of
    [0, top] inside columns 1..14. *)
Definition flight_ok (top : Z) (g : Game) : Prop :=
  player_y g = HEIGHT - 1 /\ 1 <= player_x g <= 14 /\
  StronglySorted above (player_bullets g) /\
  Forall (fun b => 1 <= fst b <= 14 /\ 0 <= snd b <= top) (player_bullets g).

(** The formation travels left or right and its living aliens are inside
    columns 1..14. *)
Definition inside (a : Alien) : Prop := alien_alive a = true -> 1 <= alien_x a <= 14.

Definition formation_inside (g : Game) : Prop :=
  (alien_direction g = 1 \/ alien_direction g = -1) /\ Forall inside (aliens g).

(** Living aliens stand on both margins. *)
Definition on_left_margin (a : Alien) : bool := alien_alive a && (alien_x a <=? 1).
Definition on_right_margin (a : Alien) : bool := alien_alive a && (alien_x a >=? WIDTH - 2).
Definition both_margins (l : list Alien) : bool :=
  existsb on_left_margin l && existsb on_right_margin l.

(** The timer of [move_aliens] has run out. *)
Definition move_due (ticks_diff : Z -> Z -> Z) (current_time : Z) (g : Game) : bool :=
  negb (ticks_diff current_time (last_alien_move g) <? alien_speed g).

(** A living alien within one cell of the bullet. *)
Definition target (bx by_ : Z) (a : Alien) : bool :=
  alien_alive a && near bx by_ (alien_x a) (alien_y a).

(** The points of the aliens of a roster that are alive in [l] and dead
    in [l'] at the same place. *)
Fixpoint points_between (l l' : list Alien) : Z :=
  match l, l' with
  | a :: rest, a' :: rest' =>
      (if alien_alive a && negb (alien_alive a') then 10 * (alien_type a + 1) else 0)
      + points_between rest rest'
  | _, _ => 0
  end.

(** One alien before and after a drop of the formation. *)
Definition dropped (a a' : Alien) : Prop :=
  alien_x a' = alien_x a /\ alien_alive a' = alien_alive a /\ alien_type a' = alien_type a /\
  (alien_y a' = alien_y a \/ (alien_alive a = true /\ alien_y a' = alien_y a + 1)).

(** One alien before and after a horizontal step of the formation. *)
Definition shifted (d : Z) (a a' : Alien) : Prop :=
  alien_y a' = alien_y a /\ alien_alive a' = alien_alive a /\ alien_type a' = alien_type a /\
  alien_x a' = if alien_alive a then alien_x a + d else alien_x a.

(** [h] has the formation, the level, the score and the player row of [g]. *)
Definition formation_kept (g h : Game) : Prop :=
  aliens h = aliens g /\ alien_direction h = alien_direction g /\
  player_y h = player_y g /\ level h = level g /\
  alien_speed h = alien_speed g /\ score h = score g.

(** One alien before and after a collision check: as it was, or shot. *)
Definition shot (a a' : Alien) : Prop :=
  a' = a \/ (alien_alive a = true /\ a' = set_alien_alive false a).

(** What the input stretch of an iteration may do. *)
Definition input_effect (g h : Game) : Prop :=
  alien_bullets h = alien_bullets g /\ player_y h = player_y g /\
  Z.abs (player_x h - player_x g) <= 1 /\
  (1 <= player_x g <= 14 -> 1 <= player_x h <= 14) /\
  (player_bullets h = player_bullets g \/
   ((length (player_bullets g) < 3)%nat /\
    player_bullets h = player_bullets g ++ [(player_x h, player_y g - 2)])).

(** The dict [bottom_aliens] after the aliens [p] have been processed:
    one entry per column of [p], holding an alien of [p] of that column
    that no alien of [p] of that column is below. *)
Definition bottom_ok (p : list Alien) (d : list (Z * Alien)) : Prop :=
  NoDup (map fst d) /\
  (forall k a, In (k, a) d ->
     k = alien_x a /\ In a p /\
     forall b, In b p -> alien_x b = k -> alien_y b <= alien_y a) /\
  (forall b, In b p -> In (alien_x b) (map fst d)).

(** The timer of [alien_shoot] has run out. *)
Definition shoot_due (ticks_diff : Z -> Z -> Z) (current_time : Z) (g : Game) : bool :=
  negb (ticks_diff current_time (last_alien_shot g) <? Z.max 500 (1500 - level g * 100)).

(** The formation as [spawn_aliens] lays it out: alive, on the odd rows
    1..9, typed by row, between columns -2 and 14. *)
Definition fresh (a : Alien) : Prop :=
  alien_alive a = true /\
  1 <= alien_y a <= 9 /\ alien_y a mod 2 = 1 /\
  alien_type a = ((alien_y a - 1) / 2) mod 3 /\
  -2 <= alien_x a <= 14.

Definition freshb (a : Alien) : bool :=
  alien_alive a && (1 <=? alien_y a) && (alien_y a <=? 9) && (alien_y a mod 2 =? 1)
  && (alien_type a =? ((alien_y a - 1) / 2) mod 3)
  && (-2 <=? alien_x a) && (alien_x a <=? 14).

(** No two entries of a list of cells are equal. *)
Fixpoint distinct_cells (l : list (Z * Z)) : bool :=
  match l with
  | [] => true
  | c :: rest =>
      negb (existsb (fun c' => (fst c' =? fst c) && (snd c' =? snd c)) rest)
      && distinct_cells rest
  end.

Definition cell_of (a : Alien) : Z * Z := (alien_x a, alien_y a).

End InvadersMore.

(** ** Proof automation *)

(** Projections of an updated game, reduced without touching arithmetic. *)
Ltac pong_fields :=
  cbn [Pong.paddle_height Pong.paddle_speed Pong.p1_y Pong.p2_y Pong.p1_x Pong.p2_x
       Pong.ball_x Pong.ball_y Pong.ball_vx Pong.ball_vy Pong.p1_score Pong.p2_score
       Pong.winning_score Pong.game_over Pong.winner Pong.paused Pong.rally_count
       Pong.ai_reaction_delay Pong.ai_error
       Pong.set_p1_y Pong.set_p2_y Pong.set_ball_x Pong.set_ball_y Pong.set_ball_vx
       Pong.set_ball_vy Pong.set_p1_score Pong.set_p2_score Pong.set_game_over
       Pong.set_winner Pong.set_rally_count] in *.

Ltac split_ifs :=
  repeat match goal with
         | |- context [if ?c then _ else _] => destruct c eqn:?
         end.

Ltac inv_fields :=
  cbn [Invaders.player_x Invaders.player_y Invaders.player_alive Invaders.player_bullets
       Invaders.alien_bullets Invaders.aliens Invaders.alien_direction Invaders.alien_drop
       Invaders.score Invaders.level Invaders.game_over Invaders.victory
       Invaders.last_alien_move Invaders.last_alien_shot Invaders.alien_speed
       Invaders.auto_target_x Invaders.auto_fire_cooldown
       Invaders.set_player_x Invaders.set_player_alive Invaders.set_player_bullets
       Invaders.set_alien_bullets Invaders.set_aliens Invaders.set_alien_direction
       Invaders.set_score Invaders.set_level Invaders.set_game_over Invaders.set_victory
       Invaders.set_last_alien_move Invaders.set_last_alien_shot Invaders.set_alien_speed
       Invaders.set_auto_fire_cooldown
       Invaders.alien_x Invaders.alien_y Invaders.alien_alive Invaders.alien_type
       Invaders.set_alien_x Invaders.set_alien_y Invaders.set_alien_alive] in *.

Ltac button_cases :=
  repeat match goal with
         | |- context [?v =? 0] => destruct (Z.eqb_spec v 0)
         end;
  cbn [app In];
  intuition (try discriminate; try congruence).

(** [pong_fields] on the goal only. *)
Ltac pong_goal :=
  cbn [Pong.paddle_height Pong.paddle_speed Pong.p1_y Pong.p2_y Pong.p1_x Pong.p2_x
       Pong.ball_x Pong.ball_y Pong.ball_vx Pong.ball_vy Pong.p1_score Pong.p2_score
       Pong.winning_score Pong.game_over Pong.winner Pong.paused Pong.rally_count
       Pong.ai_reaction_delay Pong.ai_error
       Pong.set_p1_y Pong.set_p2_y Pong.set_ball_x Pong.set_ball_y Pong.set_ball_vx
       Pong.set_ball_vy Pong.set_p1_score Pong.set_p2_score Pong.set_game_over
       Pong.set_winner Pong.set_rally_count].

(** ** Properties of the pixel surface *)

Section SurfaceFacts.

Import Display.

Lemma xy_to_index_in_bounds (x y : Z) :
  0 <= x < WIDTH -> 0 <= y < HEIGHT ->
  xy_to_index x y = if y mod 2 =? 0 then y * WIDTH + x else y * WIDTH + (WIDTH - 1 - x).
Proof.
  unfold xy_to_index, WIDTH, HEIGHT. intros Hx Hy.
  replace (x <? 0) with false by (symmetry; apply Z.ltb_ge; lia).
  replace (x >=? 16) with false by (symmetry; rewrite Z.geb_leb; apply Z.leb_gt; lia).
  replace (y <? 0) with false by (symmetry; apply Z.ltb_ge; lia).
  replace (y >=? 16) with false by (symmetry; rewrite Z.geb_leb; apply Z.leb_gt; lia).
  reflexivity.
Qed.

Lemma xy_to_index_out_of_bounds (x y : Z) :
  x < 0 \/ WIDTH <= x \/ y < 0 \/ HEIGHT <= y -> xy_to_index x y = -1.
Proof.
  unfold xy_to_index, WIDTH, HEIGHT. intros H.
  destruct (x <? 0) eqn:E1; [reflexivity|].
  destruct (x >=? 16) eqn:E2; [reflexivity|].
  destruct (y <? 0) eqn:E3; [reflexivity|].
  destruct (y >=? 16) eqn:E4; [reflexivity|].
  apply Z.ltb_ge in E1, E3. rewrite Z.geb_leb in E2, E4.
  apply Z.leb_gt in E2, E4. lia.
Qed.

Lemma xy_to_index_row (x y : Z) :
  0 <= x < WIDTH -> 0 <= y < HEIGHT ->
  y * 16 <= xy_to_index x y < y * 16 + 16.
Proof.
  intros Hx Hy. rewrite xy_to_index_in_bounds by assumption.
  unfold WIDTH, HEIGHT in *. destruct (y mod 2 =? 0); lia.
Qed.

End SurfaceFacts.

Section SurfaceClaims.

Import Display.

Lemma xy_to_index_injective (x1 y1 x2 y2 : Z) :
  in_grid x1 y1 -> in_grid x2 y2 ->
  xy_to_index x1 y1 = xy_to_index x2 y2 -> x1 = x2 /\ y1 = y2.
Proof.
  intros [Hx1 Hy1] [Hx2 Hy2] E.
  pose proof (xy_to_index_row x1 y1 Hx1 Hy1) as R1.
  pose proof (xy_to_index_row x2 y2 Hx2 Hy2) as R2.
  assert (y1 = y2) as -> by lia.
  split; [|reflexivity].
  rewrite !xy_to_index_in_bounds in E by assumption.
  unfold WIDTH in *. destruct (y2 mod 2 =? 0); lia.
Qed.

Lemma xy_to_index_surjective (i : Z) :
  0 <= i < NUM_LEDS -> exists x y, in_grid x y /\ xy_to_index x y = i.
Proof.
  unfold NUM_LEDS, WIDTH, HEIGHT. intros Hi.
  pose proof (Z.div_mod i 16 ltac:(lia)) as D.
  pose proof (Z.mod_pos_bound i 16 ltac:(lia)) as B.
  assert (0 <= i / 16 < 16) as Hy
    by (split; [apply Z.div_pos; lia | apply Z.div_lt_upper_bound; lia]).
  destruct ((i / 16) mod 2 =? 0) eqn:P.
  - exists (i mod 16), (i / 16). split; [split; assumption|].
    rewrite xy_to_index_in_bounds by assumption. rewrite P. unfold WIDTH. lia.
  - exists (15 - i mod 16), (i / 16).
    assert (0 <= 15 - i mod 16 < 16) as Hx by lia.
    split; [split; assumption|].
    rewrite xy_to_index_in_bounds by assumption. rewrite P. unfold WIDTH. lia.
Qed.

(** C5. On the grid [0,16) x [0,16) the serpentine mapping [xy_to_index]
    lands in [0,256), is injective and reaches every index of [0,256):
    it is a bijection.  Along an even row the index grows strictly with
    [x]; along an odd row it shrinks strictly with [x]. *)
Theorem xy_to_index_serpentine_bijection (x1 y1 x2 y2 i : Z) :
  in_grid x1 y1 -> in_grid x2 y2 -> 0 <= i < 256 ->
  0 <= xy_to_index x1 y1 < 256 /\
  (xy_to_index x1 y1 = xy_to_index x2 y2 -> x1 = x2 /\ y1 = y2) /\
  (exists x y, in_grid x y /\ xy_to_index x y = i) /\
  (y1 mod 2 = 0 -> x1 < x2 -> xy_to_index x1 y1 < xy_to_index x2 y1) /\
  (y1 mod 2 <> 0 -> x1 < x2 -> xy_to_index x2 y1 < xy_to_index x1 y1).
Proof.
  intros G1 G2 Hi.
  split; [|split; [|split; [|split]]].
  - destruct G1 as [Hx Hy]. pose proof (xy_to_index_row x1 y1 Hx Hy).
    unfold HEIGHT in Hy. lia.
  - apply xy_to_index_injective; assumption.
  - apply xy_to_index_surjective. exact Hi.
  - destruct G1 as [Hx1 Hy1], G2 as [Hx2 _]. intros Even Lt.
    rewrite !xy_to_index_in_bounds by assumption.
    rewrite Even. simpl. lia.
  - destruct G1 as [Hx1 Hy1], G2 as [Hx2 _]. intros Odd Lt.
    rewrite !xy_to_index_in_bounds by assumption.
    apply Z.eqb_neq in Odd. rewrite Odd. lia.
Qed.

Lemma xy_to_index_serpentine_bijection_witness :
  0 <= xy_to_index 3 5 < 256 /\
  (xy_to_index 3 5 = xy_to_index 9 5 -> 3 = 9 /\ 5 = 5) /\
  (exists x y, in_grid x y /\ xy_to_index x y = 92) /\
  (5 mod 2 = 0 -> 3 < 9 -> xy_to_index 3 5 < xy_to_index 9 5) /\
  (5 mod 2 <> 0 -> 3 < 9 -> xy_to_index 9 5 < xy_to_index 3 5).
Proof.
  apply (xy_to_index_serpentine_bijection 3 5 9 5 92); unfold in_grid, WIDTH, HEIGHT; lia.
Defined.

Lemma py_int_le_neg1 (v : Q) : (v <= -1)%Q -> py_int v < 0.
Proof.
  unfold Qle, py_int. destruct v as [n d]. simpl. intros H.
  assert (n ÷ Z.pos d <= (- Z.pos d) ÷ Z.pos d) as L
    by (apply Z.quot_le_mono; lia).
  rewrite Z.quot_opp_l, Z.quot_same in L by lia. lia.
Qed.

Lemma py_int_ge (k : Z) (v : Q) : 0 <= k -> (inject_Z k <= v)%Q -> k <= py_int v.
Proof.
  unfold Qle, py_int, inject_Z. destruct v as [n d]. simpl. intros Hk H.
  assert ((k * Z.pos d) ÷ Z.pos d <= n ÷ Z.pos d) as L
    by (apply Z.quot_le_mono; lia).
  rewrite Z.quot_mul in L by lia. exact L.
Qed.

(** [Pong.set_pixel] passes its coordinates through [int()].  A write
    at a coordinate at or beyond -1 or 16 on either axis is dropped. *)
Lemma set_pixel_beyond_is_dropped (x y : Q) (color : Color) (np : Buffer) :
  (x <= -1 \/ 16 <= x \/ y <= -1 \/ 16 <= y)%Q ->
  Pong.set_pixel x y color np = np.
Proof.
  intros H. unfold Pong.set_pixel.
  rewrite xy_to_index_out_of_bounds; [reflexivity|].
  unfold WIDTH, HEIGHT.
  destruct H as [H | [H | [H | H]]].
  - left. apply py_int_le_neg1. exact H.
  - right; left. apply (py_int_ge 16); [lia | exact H].
  - right; right; left. apply py_int_le_neg1. exact H.
  - right; right; right. apply (py_int_ge 16); [lia | exact H].
Qed.

(** C4.  For every coordinate [(x, y)] outside the grid
    [0,16) x [0,16) and every colour, [set_pixel(x, y, color)] returns the
    buffer it was given: every slot is unchanged.  The embedding is
    total, so nothing is raised. *)
Theorem set_pixel_outside_is_dropped (x y : Z) (color : Color) (np : Buffer) :
  ~ in_grid x y ->
  Pong.set_pixel (inject_Z x) (inject_Z y) color np = np.
Proof.
  intros H. apply set_pixel_beyond_is_dropped.
  change (-1)%Q with (inject_Z (-1)). change 16%Q with (inject_Z 16).
  rewrite <- !Zle_Qle. unfold in_grid, WIDTH, HEIGHT in H. lia.
Qed.

Lemma set_pixel_outside_is_dropped_witness :
  Pong.set_pixel (inject_Z (-1)) (inject_Z 16) WHITE blank = blank.
Proof.
  apply (set_pixel_outside_is_dropped (-1) 16 WHITE blank).
  unfold in_grid, WIDTH, HEIGHT. lia.
Defined.

End SurfaceClaims.

(** ** Properties of the paddle game *)

Section PaddleClaims.

Import Display Pong.

Lemma move_paddle_in_range (paddle direction : Z) (g : PongGame) :
  paddles_in_range g -> paddles_in_range (move_paddle paddle direction g).
Proof.
  unfold paddles_in_range, move_paddle, HEIGHT. intros [H1 H2].
  destruct (paddle =? 1).
  - destruct ((0 <=? p1_y g + direction) && (p1_y g + direction <=? 16 - paddle_height g)) eqn:E.
    + apply andb_true_iff in E. destruct E as [Ea Eb].
      apply Z.leb_le in Ea, Eb. pong_fields. lia.
    + split; assumption.
  - destruct ((0 <=? p2_y g + direction) && (p2_y g + direction <=? 16 - paddle_height g)) eqn:E.
    + apply andb_true_iff in E. destruct E as [Ea Eb].
      apply Z.leb_le in Ea, Eb. pong_fields. lia.
    + split; assumption.
Qed.

Lemma apply_moves_in_range (moves : list (Z * Z)) :
  forall g, paddles_in_range g -> paddles_in_range (apply_moves moves g).
Proof.
  unfold apply_moves.
  induction moves as [|[paddle direction] rest IH]; intros g H; simpl.
  - exact H.
  - apply IH. apply move_paddle_in_range. exact H.
Qed.

Lemma range_test (lo hi v : Z) : (lo <=? v) && (v <=? hi) = true <-> lo <= v <= hi.
Proof.
  rewrite andb_true_iff, !Z.leb_le. tauto.
Qed.

(** C7. Starting from paddles inside [0, 16 - paddle_height], any sequence
    of move intents (either paddle, any direction, any length) leaves both
    paddles inside that range.  One intent is applied exactly when the new
    [y] is in the range: then the addressed paddle takes the new [y] and
    the other paddle keeps its own; otherwise the game is left as it was. *)
Theorem paddle_stays_in_range (moves : list (Z * Z)) (paddle direction : Z) (g : PongGame) :
  paddles_in_range g ->
  paddles_in_range (apply_moves moves g) /\
  (0 <= paddle_y paddle g + direction <= 16 - paddle_height g ->
     paddle_y paddle (move_paddle paddle direction g) = paddle_y paddle g + direction /\
     (forall other, (other =? 1) <> (paddle =? 1) ->
        paddle_y other (move_paddle paddle direction g) = paddle_y other g)) /\
  (~ 0 <= paddle_y paddle g + direction <= 16 - paddle_height g ->
     move_paddle paddle direction g = g).
Proof.
  intros H. split; [apply apply_moves_in_range; exact H|].
  unfold paddle_y, move_paddle. change HEIGHT with 16.
  destruct (paddle =? 1) eqn:P.
  - destruct ((0 <=? p1_y g + direction) && (p1_y g + direction <=? 16 - paddle_height g)) eqn:E.
    + apply range_test in E. split; [|tauto].
      intros _. split; [reflexivity|].
      intros other Ho. destruct (other =? 1); [congruence | reflexivity].
    + split; [|reflexivity]. intros R. apply range_test in R. congruence.
  - destruct ((0 <=? p2_y g + direction) && (p2_y g + direction <=? 16 - paddle_height g)) eqn:E.
    + apply range_test in E. split; [|tauto].
      intros _. split; [reflexivity|].
      intros other Ho. destruct (other =? 1); [reflexivity | congruence].
    + split; [|reflexivity]. intros R. apply range_test in R. congruence.
Qed.

Lemma paddle_stays_in_range_witness :
  let g := reset {| choice_dir := 1; uniform := 0 |} in
  paddles_in_range (apply_moves [(1, 1); (1, 1); (2, -1)] g) /\
  (0 <= paddle_y 1 g + 1 <= 16 - paddle_height g ->
     paddle_y 1 (move_paddle 1 1 g) = paddle_y 1 g + 1 /\
     (forall other, (other =? 1) <> (1 =? 1) ->
        paddle_y other (move_paddle 1 1 g) = paddle_y other g)) /\
  (~ 0 <= paddle_y 1 g + 1 <= 16 - paddle_height g -> move_paddle 1 1 g = g).
Proof.
  apply (paddle_stays_in_range [(1, 1); (1, 1); (2, -1)] 1 1).
  unfold paddles_in_range. simpl. vm_compute. intuition discriminate.
Defined.

Local Open Scope Q_scope.

Lemma Qle_bool_false (a b : Q) : Qle_bool a b = false -> b < a.
Proof.
  intros E. destruct (Qlt_le_dec b a) as [L | L]; [exact L|].
  apply Qle_bool_iff in L. congruence.
Qed.

Lemma wall_collision_y_range (g : PongGame) :
  0 <= ball_y (wall_collision g) <= 15.
Proof.
  unfold wall_collision. change (inject_Z (HEIGHT - 1)) with 15.
  destruct (Qle_bool (ball_y g) 0) eqn:E0.
  - pong_fields. split; [apply Qle_refl | discriminate].
  - destruct (Qle_bool 15 (ball_y g)) eqn:E15.
    + pong_fields. split; [discriminate | apply Qle_refl].
    + apply Qle_bool_false in E0, E15. split; apply Qlt_le_weak; assumption.
Qed.

Lemma paddle1_collision_ball_y (g : PongGame) :
  ball_y (paddle1_collision g) = ball_y g.
Proof. unfold paddle1_collision. split_ifs; reflexivity. Qed.

Lemma paddle2_collision_ball_y (g : PongGame) :
  ball_y (paddle2_collision g) = ball_y g.
Proof. unfold paddle2_collision. split_ifs; reflexivity. Qed.

Lemma ball_physics_y_range (g : PongGame) : 0 <= ball_y (ball_physics g) <= 15.
Proof.
  unfold ball_physics.
  rewrite paddle2_collision_ball_y, paddle1_collision_ball_y.
  apply wall_collision_y_range.
Qed.

Lemma scoring_ball_y (r : Random) (g : PongGame) :
  ball_y (scoring r g) = ball_y g \/ ball_y (scoring r g) = 8.
Proof.
  unfold scoring, reset_ball. split_ifs; pong_fields; auto.
Qed.

(** When the ball is strictly between the paddle planes and strictly
    between the scoring columns, nothing happens after the wall test. *)
Lemma update_ball_mid_court (r : Random) (g : PongGame) :
  inject_Z (p1_x g + 1) < ball_x g + ball_vx g ->
  ball_x g + ball_vx g < inject_Z (p2_x g - 1) ->
  0 < ball_x g + ball_vx g < 15 ->
  update_ball r g = wall_collision (integrate g).
Proof.
  intros L1 L2 [L0 L15].
  assert (forall h, ball_x (wall_collision (integrate h)) = ball_x h + ball_vx h) as X
    by (intros h; unfold wall_collision, integrate; split_ifs; reflexivity).
  assert (forall h, p1_x (wall_collision (integrate h)) = p1_x h) as P1
    by (intros h; unfold wall_collision, integrate; split_ifs; reflexivity).
  assert (forall h, p2_x (wall_collision (integrate h)) = p2_x h) as P2
    by (intros h; unfold wall_collision, integrate; split_ifs; reflexivity).
  unfold update_ball, ball_physics.
  set (w := wall_collision (integrate g)).
  assert (paddle1_collision w = w) as E1.
  { unfold paddle1_collision. unfold w at 1. rewrite X. unfold w at 1. rewrite P1.
    destruct (Qle_bool (ball_x g + ball_vx g) (inject_Z (p1_x g + 1))) eqn:E; [|reflexivity].
    apply Qle_bool_iff in E. exfalso. apply (Qlt_not_le _ _ L1). exact E. }
  rewrite E1.
  assert (paddle2_collision w = w) as E2.
  { unfold paddle2_collision. unfold w at 2. rewrite X. unfold w at 1. rewrite P2.
    destruct (Qle_bool (inject_Z (p2_x g - 1)) (ball_x g + ball_vx g)) eqn:E; [|reflexivity].
    apply Qle_bool_iff in E. exfalso. apply (Qlt_not_le _ _ L2). exact E. }
  rewrite E2.
  unfold scoring. unfold w at 1. rewrite X.
  destruct (Qle_bool (ball_x g + ball_vx g) 0) eqn:E.
  { apply Qle_bool_iff in E. exfalso. apply (Qlt_not_le _ _ L0). exact E. }
  unfold w at 1. rewrite X. change (inject_Z (WIDTH - 1)) with 15.
  destruct (Qle_bool 15 (ball_x g + ball_vx g)) eqn:E'; [|reflexivity].
  apply Qle_bool_iff in E'. exfalso. apply (Qlt_not_le _ _ L15). exact E'.
Qed.

(** C6. From a ball with [y] in [0,15], one [update_ball] leaves [y] in
    [0,15].  When the integrated [y] falls below 0 the wall block of that
    update puts [y] on row 0 and negates [vy] (which was negative); when
    it rises above 15 the block puts [y] on row 15 and negates [vy] (which
    was positive): one sign flip per crossing.  That is the state the
    whole update returns whenever the ball is away from the paddle planes
    and the scoring columns. *)
Theorem ball_y_stays_on_board (r : Random) (g : PongGame) :
  0 <= ball_y g <= 15 ->
  0 <= ball_y (update_ball r g) <= 15 /\
  (ball_y g + ball_vy g < 0 ->
     ball_y (wall_collision (integrate g)) = 0 /\
     ball_vy g < 0 /\
     ball_vy (wall_collision (integrate g)) == - ball_vy g) /\
  (15 < ball_y g + ball_vy g ->
     ball_y (wall_collision (integrate g)) = 15 /\
     0 < ball_vy g /\
     ball_vy (wall_collision (integrate g)) == - ball_vy g) /\
  (inject_Z (p1_x g + 1) < ball_x g + ball_vx g < inject_Z (p2_x g - 1) ->
   0 < ball_x g + ball_vx g < 15 ->
     update_ball r g = wall_collision (integrate g)).
Proof.
  intros [Y0 Y15]. split; [|split; [|split]].
  - unfold update_ball.
    destruct (scoring_ball_y r (ball_physics g)) as [E | E]; rewrite E.
    + apply ball_physics_y_range.
    + split; discriminate.
  - intros Low.
    assert (ball_vy g < 0) as V.
    { apply Qnot_le_lt. intros V. apply (Qlt_not_le _ _ Low).
      rewrite <- (Qplus_0_r 0). apply Qplus_le_compat; assumption. }
    unfold wall_collision, integrate. pong_fields.
    assert (Qle_bool (ball_y g + ball_vy g) 0 = true) as ->
      by (apply Qle_bool_iff, Qlt_le_weak; exact Low).
    pong_fields. split; [reflexivity|]. split; [exact V|].
    apply Qabs_neg, Qlt_le_weak. exact V.
  - intros High.
    assert (0 < ball_vy g) as V.
    { apply Qnot_le_lt. intros V. apply (Qlt_not_le _ _ High).
      rewrite <- (Qplus_0_r 15). apply Qplus_le_compat; assumption. }
    unfold wall_collision, integrate. pong_fields.
    assert (Qle_bool (ball_y g + ball_vy g) 0 = false) as ->.
    { destruct (Qle_bool (ball_y g + ball_vy g) 0) eqn:E; [|reflexivity].
      apply Qle_bool_iff in E. exfalso. apply (Qlt_not_le _ _ High).
      apply Qle_trans with 0; [exact E | discriminate]. }
    change (inject_Z (HEIGHT - 1)) with 15.
    assert (Qle_bool 15 (ball_y g + ball_vy g) = true) as ->
      by (apply Qle_bool_iff, Qlt_le_weak; exact High).
    pong_fields. split; [reflexivity|]. split; [exact V|].
    rewrite Qabs_pos by (apply Qlt_le_weak; exact V). reflexivity.
  - intros [L1 L2] L. apply update_ball_mid_court; assumption.
Qed.

Lemma ball_y_stays_on_board_witness :
  let r := {| choice_dir := 1; uniform := 0 |} in
  let g := set_ball_vy (-0.5) (set_ball_y 0.2 (reset r)) in
  0 <= ball_y (update_ball r g) <= 15 /\
  (ball_y g + ball_vy g < 0 ->
     ball_y (wall_collision (integrate g)) = 0 /\
     ball_vy g < 0 /\
     ball_vy (wall_collision (integrate g)) == - ball_vy g) /\
  (15 < ball_y g + ball_vy g ->
     ball_y (wall_collision (integrate g)) = 15 /\
     0 < ball_vy g /\
     ball_vy (wall_collision (integrate g)) == - ball_vy g) /\
  (inject_Z (p1_x g + 1) < ball_x g + ball_vx g < inject_Z (p2_x g - 1) ->
   0 < ball_x g + ball_vx g < 15 ->
     update_ball r g = wall_collision (integrate g)).
Proof.
  apply (ball_y_stays_on_board {| choice_dir := 1; uniform := 0 |}
           (set_ball_vy (-0.5) (set_ball_y 0.2 (reset {| choice_dir := 1; uniform := 0 |})))).
  split; discriminate.
Defined.

Lemma ball_physics_keeps_match (g : PongGame) :
  p1_score (ball_physics g) = p1_score g /\
  p2_score (ball_physics g) = p2_score g /\
  winning_score (ball_physics g) = winning_score g /\
  game_over (ball_physics g) = game_over g /\
  winner (ball_physics g) = winner g.
Proof.
  unfold ball_physics, paddle2_collision, paddle1_collision, wall_collision, integrate.
  split_ifs; pong_fields; repeat split; reflexivity.
Qed.

(** C1, as amended.  The scoring block looks at the ball [b] that the
    update has moved and bounced.  With [x <= 0] player 2 gains one point
    and player 1 none; with [x >= 15] player 1 gains one point and
    player 2 none; strictly between, the block changes nothing, so no
    score moves.  After a point that leaves the scorer below
    [winning_score] the ball is at the center (8,8) and its horizontal
    velocity points to the side of the player who scored ([+0.8], to the
    right, after a point of player 2; [-0.8], to the left, after a point
    of player 1).  After a point that reaches [winning_score],
    [game_over] is set and [winner] is the scorer. *)
Theorem score_event (r : Random) (g : PongGame) :
  let b := ball_physics g in
  let g' := update_ball r g in
  (ball_x b <= 0 ->
     p2_score g' = (p2_score g + 1)%Z /\ p1_score g' = p1_score g /\
     ((p2_score g + 1 < winning_score g)%Z ->
        ball_x g' = 8 /\ ball_y g' = 8 /\ ball_vx g' == 0.8 /\ 0 < ball_vx g' /\
        game_over g' = game_over g /\ winner g' = winner g) /\
     ((winning_score g <= p2_score g + 1)%Z ->
        game_over g' = true /\ winner g' = Some 2%Z)) /\
  (15 <= ball_x b ->
     p1_score g' = (p1_score g + 1)%Z /\ p2_score g' = p2_score g /\
     ((p1_score g + 1 < winning_score g)%Z ->
        ball_x g' = 8 /\ ball_y g' = 8 /\ ball_vx g' == - 0.8 /\ ball_vx g' < 0 /\
        game_over g' = game_over g /\ winner g' = winner g) /\
     ((winning_score g <= p1_score g + 1)%Z ->
        game_over g' = true /\ winner g' = Some 1%Z)) /\
  (0 < ball_x b < 15 ->
     g' = b /\ p1_score g' = p1_score g /\ p2_score g' = p2_score g).
Proof.
  intros b g'.
  destruct (ball_physics_keeps_match g) as (S1 & S2 & W & GO & Wi).
  fold b in S1, S2, W, GO, Wi.
  subst g'. unfold update_ball. fold b. unfold scoring.
  change (inject_Z (WIDTH - 1)) with 15.
  split; [|split].
  - intros X0. apply Qle_bool_iff in X0. rewrite X0. pong_fields.
    rewrite S2, W.
    destruct (p2_score g + 1 >=? winning_score g)%Z eqn:E;
      rewrite Z.geb_leb in E; unfold reset_ball; pong_fields.
    + apply Z.leb_le in E. repeat split; try assumption; try lia.
    + apply Z.leb_gt in E. repeat split; try assumption; try reflexivity; try lia.
  - intros X15.
    assert (Qle_bool (ball_x b) 0 = false) as ->.
    { destruct (Qle_bool (ball_x b) 0) eqn:E; [|reflexivity].
      apply Qle_bool_iff in E. exfalso.
      assert (15 <= 0) as A by (apply Qle_trans with (ball_x b); assumption).
      apply A. reflexivity. }
    apply Qle_bool_iff in X15. rewrite X15. pong_fields.
    rewrite S1, W.
    destruct (p1_score g + 1 >=? winning_score g)%Z eqn:E;
      rewrite Z.geb_leb in E; unfold reset_ball; pong_fields.
    + apply Z.leb_le in E. repeat split; try assumption; try lia.
    + apply Z.leb_gt in E. repeat split; try assumption; try reflexivity; try lia.
  - intros [L0 L15].
    assert (Qle_bool (ball_x b) 0 = false) as ->.
    { destruct (Qle_bool (ball_x b) 0) eqn:E; [|reflexivity].
      apply Qle_bool_iff in E. exfalso. apply (Qlt_not_le _ _ L0). exact E. }
    assert (Qle_bool 15 (ball_x b) = false) as ->.
    { destruct (Qle_bool 15 (ball_x b)) eqn:E; [|reflexivity].
      apply Qle_bool_iff in E. exfalso. apply (Qlt_not_le _ _ L15). exact E. }
    repeat split; assumption.
Qed.

(** C1 as stated fails.  In [left_miss] the ball passes the left edge
    above paddle 1: player 2 scores, player 1 (left side) is the one
    scored against, the ball is put back at the center, and its velocity
    is not directed to the left. *)
Lemma serve_goes_to_the_scorer :
  let r := {| choice_dir := -1; uniform := 0 |} in
  let g' := update_ball r left_miss in
  ball_x (ball_physics left_miss) <= 0 /\
  p2_score g' = (p2_score left_miss + 1)%Z /\
  p1_score g' = p1_score left_miss /\
  game_over g' = false /\
  ball_x g' = 8 /\ ball_y g' = 8 /\
  ~ ball_vx g' < 0.
Proof.
  vm_compute. repeat split; try discriminate.
Qed.

End PaddleClaims.

(** ** Properties of the formation shooter *)

Section ShooterClaims.

Import Display Invaders.

Variable ticks_diff : Z -> Z -> Z.

Lemma move_player_in_range (direction : Z) (g : Game) :
  1 <= player_x g <= 14 -> 1 <= player_x (move_player direction g) <= 14.
Proof.
  unfold move_player. change (WIDTH - 2) with 14. intros H.
  destruct ((1 <=? player_x g + direction) && (player_x g + direction <=? 14)) eqn:E.
  - apply andb_true_iff in E. destruct E as [Ea Eb].
    apply Z.leb_le in Ea, Eb. inv_fields. lia.
  - exact H.
Qed.

(** C10. Starting from a player column in [1,14], any sequence of
    [move_player] calls leaves it in [1,14], so columns 0 and 15 are never
    reached.  A single call whose target column is outside [1,14] returns
    the game as it was; otherwise the player stands on the target column. *)
Theorem player_stays_in_range (directions : list Z) (direction : Z) (g : Game) :
  1 <= player_x g <= 14 ->
  1 <= player_x (apply_player_moves directions g) <= 14 /\
  (~ 1 <= player_x g + direction <= 14 -> move_player direction g = g) /\
  (1 <= player_x g + direction <= 14 ->
     player_x (move_player direction g) = player_x g + direction).
Proof.
  intros H. split.
  - revert g H. unfold apply_player_moves.
    induction directions as [|d rest IH]; intros g H; simpl.
    + exact H.
    + apply IH. apply move_player_in_range. exact H.
  - unfold move_player. change (WIDTH - 2) with 14.
    destruct ((1 <=? player_x g + direction) && (player_x g + direction <=? 14)) eqn:E.
    + apply andb_true_iff in E. destruct E as [Ea Eb]. apply Z.leb_le in Ea, Eb.
      split; [intros N; exfalso; apply N; lia | intros _; reflexivity].
    + split; [reflexivity|]. intros [Ra Rb].
      apply Z.leb_le in Ra, Rb. rewrite Ra, Rb in E. discriminate E.
Qed.

Lemma player_stays_in_range_witness :
  1 <= player_x (apply_player_moves [1; 1; 1; 1; 1; 1; 1; -1] reset) <= 14 /\
  (~ 1 <= player_x reset + 1 <= 14 -> move_player 1 reset = reset) /\
  (1 <= player_x reset + 1 <= 14 ->
     player_x (move_player 1 reset) = player_x reset + 1).
Proof.
  apply (player_stays_in_range [1; 1; 1; 1; 1; 1; 1; -1] 1 reset).
  vm_compute. split; discriminate.
Defined.

(** *** The two ways to [game_over] *)

Lemma drop_aliens_over (l : list Alien) : snd (drop_aliens l) = reaches_bottom l.
Proof.
  induction l as [|a rest IH]; [reflexivity|].
  cbn [drop_aliens reaches_bottom existsb]. fold (reaches_bottom rest).
  destruct (alien_alive a) eqn:A; inv_fields.
  - destruct (alien_y a + 1 >=? HEIGHT - 2) eqn:B; [reflexivity|].
    destruct (drop_aliens rest) as [rest' over]. exact IH.
  - destruct (drop_aliens rest) as [rest' over]. exact IH.
Qed.

Lemma move_aliens_game_over (t : Z) (g : Game) :
  game_over (move_aliens ticks_diff t g) = game_over g || drop_event ticks_diff t g.
Proof.
  unfold move_aliens, drop_event.
  destruct (ticks_diff t (last_alien_move g) <? alien_speed g); simpl.
  - rewrite orb_false_r. reflexivity.
  - inv_fields. destruct (hit_edge (alien_direction g) (aliens g)); simpl.
    + rewrite <- drop_aliens_over.
      destruct (drop_aliens (aliens g)) as [l over]. simpl.
      destruct over; inv_fields.
      * rewrite orb_true_r. reflexivity.
      * rewrite orb_false_r. reflexivity.
    + rewrite orb_false_r. reflexivity.
Qed.

Lemma bullet_hits_frame (g : Game) (b : Bullet) : bullet_loop_frame g (bullet_hits g b).
Proof.
  unfold bullet_loop_frame, bullet_hits. destruct b as [bx by_].
  destruct (hit_alien bx by_ (aliens g)) as [[t l]|]; [|repeat split].
  split_ifs; inv_fields; repeat split.
Qed.

Lemma bullet_loop_keeps_frame (bullets : list Bullet) :
  forall g, bullet_loop_frame g (fold_left bullet_hits bullets g).
Proof.
  induction bullets as [|b rest IH]; intros g; simpl.
  - repeat split.
  - specialize (IH (bullet_hits g b)).
    pose proof (bullet_hits_frame g b) as F.
    unfold bullet_loop_frame in *. intuition congruence.
Qed.

Lemma check_collisions_game_over (g : Game) :
  game_over (check_collisions g) = game_over g || player_hit g.
Proof.
  unfold check_collisions, player_hit.
  destruct (bullet_loop_keeps_frame (player_bullets g) g) as (GO & _ & AB & PX & PY & _).
  rewrite AB, PX, PY.
  match goal with
  | |- context [existsb ?f (alien_bullets g)] => destruct (existsb f (alien_bullets g))
  end; inv_fields.
  - rewrite orb_true_r. reflexivity.
  - rewrite orb_false_r. split_ifs; inv_fields; exact GO.
Qed.

Lemma untouched_refl (g : Game) : untouched g g.
Proof. repeat split. Qed.

Lemma untouched_trans (g h k : Game) : untouched g h -> untouched h k -> untouched g k.
Proof. unfold untouched. intuition congruence. Qed.

Lemma move_player_untouched (d : Z) (g : Game) : untouched g (move_player d g).
Proof. unfold move_player. split_ifs; repeat split. Qed.

Lemma fire_player_untouched (g : Game) : untouched g (fire_player g).
Proof. unfold fire_player. split_ifs; repeat split. Qed.

Lemma move_bullets_untouched (g : Game) : untouched g (move_bullets g).
Proof. repeat split. Qed.

Lemma alien_shoot_untouched (t : Z) (rnd : nat) (g : Game) :
  untouched g (alien_shoot ticks_diff t rnd g).
Proof.
  unfold alien_shoot.
  destruct (ticks_diff t (last_alien_shot g) <? _); [repeat split|]. inv_fields.
  destruct (filter alien_alive (aliens g)); [repeat split|].
  destruct (random_choice rnd _); [|repeat split].
  split_ifs; repeat split.
Qed.

Lemma auto_play_untouched (g : Game) : untouched g (auto_play g).
Proof.
  unfold auto_play.
  destruct (fold_left _ _ _) as [target_x min_dist].
  set (target := match find _ _ with Some _ => _ | None => _ end).
  set (g1 := if player_x g <? target then _ else _).
  assert (untouched g g1) as U1
    by (subst g1; split_ifs; auto using move_player_untouched, untouched_refl).
  set (g2 := set_auto_fire_cooldown _ g1).
  assert (untouched g g2) as U2 by exact U1.
  split_ifs; try exact U2.
  apply untouched_trans with g2; [exact U2|].
  apply (untouched_trans _ (fire_player g2)); [apply fire_player_untouched | repeat split].
Qed.

Lemma check_buttons_untouched (en : bool) (b : Buttons) (g : Game) :
  untouched g (fst (check_buttons en b g)).
Proof.
  unfold check_buttons. destruct en; simpl; [|apply untouched_refl].
  set (g1 := if btn_left b =? 0 then move_player (-1) g else g).
  assert (untouched g g1) as U1
    by (subst g1; split_ifs; auto using move_player_untouched, untouched_refl).
  set (g2 := if btn_right b =? 0 then move_player 1 g1 else g1).
  assert (untouched g g2) as U2
    by (subst g2; split_ifs; eauto using move_player_untouched, untouched_trans).
  destruct (btn_left b =? 0), (btn_right b =? 0), (btn_fire b =? 0); simpl;
    subst g2 g1; eauto using fire_player_untouched, untouched_trans.
Qed.

Lemma handle_input_untouched (en : bool) (b : Buttons) (g : Game) :
  untouched g (handle_input en b g).
Proof.
  unfold handle_input.
  pose proof (check_buttons_untouched en b g) as U.
  destruct (check_buttons en b g) as [g1 pressed]. simpl in U.
  destruct pressed; simpl; [exact U|].
  eauto using auto_play_untouched, untouched_trans.
Qed.

Lemma before_move_aliens_untouched (en : bool) (i : Inputs) (g : Game) :
  untouched g (before_move_aliens en i g).
Proof.
  unfold before_move_aliens.
  eauto using handle_input_untouched, move_bullets_untouched, untouched_trans.
Qed.

(** C9. [move_aliens] turns [game_over] on exactly when its drop loop
    runs and a living alien reaches row [HEIGHT - 2] in it;
    [check_collisions] turns it on exactly when an alien bullet is within
    one cell of the player on both axes.  [move_player], [fire_player],
    [move_bullets], [alien_shoot], [auto_play], [check_buttons] and
    [spawn_aliens] return it as they found it, [reset] and the level-up
    branch clear it.  Over one whole iteration of the game loop,
    [game_over] therefore holds afterwards iff it held before, or the drop
    event happened, or the player was hit. *)
Theorem game_over_has_two_causes (en : bool) (i : Inputs) (t d : Z) (rnd : nat)
  (b : Buttons) (g : Game) :
  game_over (move_aliens ticks_diff t g) = game_over g || drop_event ticks_diff t g /\
  game_over (check_collisions g) = game_over g || player_hit g /\
  game_over (move_player d g) = game_over g /\
  game_over (fire_player g) = game_over g /\
  game_over (move_bullets g) = game_over g /\
  game_over (alien_shoot ticks_diff t rnd g) = game_over g /\
  game_over (auto_play g) = game_over g /\
  game_over (fst (check_buttons en b g)) = game_over g /\
  game_over (spawn_aliens g) = game_over g /\
  game_over reset = false /\
  game_over (next_level g) = false /\
  game_over (update en ticks_diff i g) =
    game_over g
    || drop_event ticks_diff (move_time i) (before_move_aliens en i g)
    || player_hit (before_check_collisions en ticks_diff i g).
Proof.
  split; [apply move_aliens_game_over|].
  split; [apply check_collisions_game_over|].
  split; [apply move_player_untouched|].
  split; [apply fire_player_untouched|].
  split; [reflexivity|].
  split; [apply alien_shoot_untouched|].
  split; [apply auto_play_untouched|].
  split; [apply check_buttons_untouched|].
  split; [reflexivity|].
  split; [reflexivity|].
  split; [reflexivity|].
  unfold update. rewrite check_collisions_game_over. f_equal.
  unfold before_check_collisions.
  destruct (alien_shoot_untouched (shoot_time i) (shooter_draw i)
              (move_aliens ticks_diff (move_time i) (before_move_aliens en i g))) as [-> _].
  rewrite move_aliens_game_over. f_equal.
  apply before_move_aliens_untouched.
Qed.

(** *** Dead aliens *)

Lemma living_idempotent (l : list Alien) : living (living l) = living l.
Proof.
  unfold living. induction l as [|a rest IH]; simpl; [reflexivity|].
  destruct (alien_alive a) eqn:A; simpl; [rewrite A, IH|]; auto.
Qed.

Lemma stays_dead_refl (l : list Alien) : Forall2 stays_dead l l.
Proof. induction l; constructor; auto. intros _. reflexivity. Qed.

Lemma stays_dead_trans (l1 l2 l3 : list Alien) :
  Forall2 stays_dead l1 l2 -> Forall2 stays_dead l2 l3 -> Forall2 stays_dead l1 l3.
Proof.
  intros H. revert l3. induction H as [|a b l1 l2 Hab H IH]; intros l3 H3.
  - inversion H3. constructor.
  - inversion H3 as [|b' c l2' l3' Hbc H3']; subst. constructor; [|apply IH; exact H3'].
    intros D. specialize (Hab D). subst b. apply Hbc. exact D.
Qed.

Lemma draw_aliens_living (l : list Alien) :
  forall np, fold_left draw_alien l np = fold_left draw_alien (living l) np.
Proof.
  unfold living. induction l as [|a rest IH]; intros np; simpl; [reflexivity|].
  destruct (alien_alive a) eqn:A; simpl.
  - apply IH.
  - unfold draw_alien at 2. rewrite A. simpl. apply IH.
Qed.

Lemma hit_edge_living (d : Z) (l : list Alien) : hit_edge d l = hit_edge d (living l).
Proof.
  unfold hit_edge, living. induction l as [|a rest IH]; simpl; [reflexivity|].
  destruct (alien_alive a) eqn:A; simpl; rewrite IH; [reflexivity|].
  unfold at_edge. rewrite A. reflexivity.
Qed.

Lemma drop_aliens_living (l : list Alien) :
  drop_aliens (living l) = (living (fst (drop_aliens l)), snd (drop_aliens l)).
Proof.
  unfold living. induction l as [|a rest IH]; [reflexivity|].
  cbn [filter drop_aliens]. destruct (alien_alive a) eqn:A.
  - cbn [drop_aliens]. rewrite A. inv_fields.
    destruct (alien_y a + 1 >=? HEIGHT - 2).
    + cbn [fst snd filter]. inv_fields. rewrite A. reflexivity.
    + rewrite IH. destruct (drop_aliens rest) as [rest' over].
      cbn [fst snd filter]. inv_fields. rewrite A. reflexivity.
  - rewrite IH. destruct (drop_aliens rest) as [rest' over].
    cbn [fst snd filter]. rewrite A. reflexivity.
Qed.

Lemma drop_aliens_stays_dead (l : list Alien) : Forall2 stays_dead l (fst (drop_aliens l)).
Proof.
  induction l as [|a rest IH]; [constructor|].
  cbn [drop_aliens]. destruct (alien_alive a) eqn:A.
  - destruct (alien_y (set_alien_y (alien_y a + 1) a) >=? HEIGHT - 2).
    + constructor; [intros D; congruence | apply stays_dead_refl].
    + destruct (drop_aliens rest) as [rest' over].
      constructor; [intros D; congruence | exact IH].
  - destruct (drop_aliens rest) as [rest' over].
    constructor; [intros _; reflexivity | exact IH].
Qed.

Lemma shift_aliens_living (d : Z) (l : list Alien) :
  shift_aliens d (living l) = living (shift_aliens d l).
Proof.
  unfold living, shift_aliens. induction l as [|a rest IH]; simpl; [reflexivity|].
  destruct (alien_alive a) eqn:A; simpl; rewrite ?A; simpl; rewrite ?A, IH; reflexivity.
Qed.

Lemma shift_aliens_stays_dead (d : Z) (l : list Alien) :
  Forall2 stays_dead l (shift_aliens d l).
Proof.
  unfold shift_aliens. induction l as [|a rest IH]; simpl; constructor; [|exact IH].
  intros D. rewrite D. reflexivity.
Qed.

Lemma move_aliens_erase_dead (t : Z) (g : Game) :
  erase_dead (move_aliens ticks_diff t g) = move_aliens ticks_diff t (erase_dead g).
Proof.
  unfold move_aliens, erase_dead. inv_fields.
  destruct (ticks_diff t (last_alien_move g) <? alien_speed g); [reflexivity|].
  rewrite <- hit_edge_living.
  destruct (hit_edge (alien_direction g) (aliens g)).
  - rewrite drop_aliens_living.
    destruct (drop_aliens (aliens g)) as [l over]. cbn [fst snd].
    destruct over; reflexivity.
  - inv_fields. rewrite shift_aliens_living. reflexivity.
Qed.

Lemma move_aliens_stays_dead (t : Z) (g : Game) :
  Forall2 stays_dead (aliens g) (aliens (move_aliens ticks_diff t g)).
Proof.
  unfold move_aliens.
  destruct (ticks_diff t (last_alien_move g) <? alien_speed g); [apply stays_dead_refl|].
  inv_fields. destruct (hit_edge (alien_direction g) (aliens g)).
  - pose proof (drop_aliens_stays_dead (aliens g)) as D.
    destruct (drop_aliens (aliens g)) as [l over]. cbn [fst] in D.
    destruct over; exact D.
  - apply shift_aliens_stays_dead.
Qed.

Lemma hit_alien_living (bx by_ : Z) (l : list Alien) :
  observe_hit (hit_alien bx by_ l) = observe_hit (hit_alien bx by_ (living l)).
Proof.
  unfold living. induction l as [|a rest IH]; [reflexivity|].
  cbn [filter hit_alien]. destruct (alien_alive a) eqn:A; cbn [negb].
  - cbn [hit_alien]. rewrite A. cbn [negb].
    destruct (near bx by_ (alien_x a) (alien_y a)).
    + unfold observe_hit. f_equal. f_equal.
      change (living (set_alien_alive false a :: rest)) with (living rest).
      change (living (set_alien_alive false a :: filter alien_alive rest))
        with (living (living rest)).
      symmetry. apply living_idempotent.
    + destruct (hit_alien bx by_ rest) as [[t l1]|],
               (hit_alien bx by_ (filter alien_alive rest)) as [[t' l2]|];
        unfold observe_hit, living in *; cbn [filter]; rewrite ?A;
        try discriminate IH; [|reflexivity].
      injection IH as -> ->. reflexivity.
  - destruct (hit_alien bx by_ rest) as [[t l1]|]; [|exact IH].
    rewrite <- IH. unfold observe_hit, living. cbn [filter]. rewrite A. reflexivity.
Qed.

Lemma hit_alien_stays_dead (bx by_ t : Z) (l l' : list Alien) :
  hit_alien bx by_ l = Some (t, l') -> Forall2 stays_dead l l'.
Proof.
  revert t l'. induction l as [|a rest IH]; intros t l' H; [discriminate H|].
  cbn [hit_alien] in H. destruct (alien_alive a) eqn:A; cbn [negb] in H.
  - destruct (near bx by_ (alien_x a) (alien_y a)).
    + injection H as _ <-. constructor; [intros D; congruence | apply stays_dead_refl].
    + destruct (hit_alien bx by_ rest) as [[t1 l1]|]; [|discriminate H].
      injection H as _ <-.
      constructor; [intros D; congruence | apply (IH t1); reflexivity].
  - destruct (hit_alien bx by_ rest) as [[t1 l1]|]; [|discriminate H].
    injection H as _ <-.
    constructor; [intros _; reflexivity | apply (IH t1); reflexivity].
Qed.

Lemma bullet_hits_stays_dead (g : Game) (b : Bullet) :
  Forall2 stays_dead (aliens g) (aliens (bullet_hits g b)).
Proof.
  unfold bullet_hits. destruct b as [bx by_].
  destruct (hit_alien bx by_ (aliens g)) as [[t l]|] eqn:H; [|apply stays_dead_refl].
  apply hit_alien_stays_dead in H. split_ifs; exact H.
Qed.

Lemma bullet_loop_stays_dead (bullets : list Bullet) :
  forall g, Forall2 stays_dead (aliens g) (aliens (fold_left bullet_hits bullets g)).
Proof.
  induction bullets as [|b rest IH]; intros g; simpl; [apply stays_dead_refl|].
  eapply stays_dead_trans; [apply bullet_hits_stays_dead | apply IH].
Qed.

Lemma check_collisions_aliens (g : Game) :
  aliens (check_collisions g) = aliens (fold_left bullet_hits (player_bullets g) g).
Proof. unfold check_collisions. split_ifs; reflexivity. Qed.

Lemma check_collisions_stays_dead (g : Game) :
  Forall2 stays_dead (aliens g) (aliens (check_collisions g)).
Proof. rewrite check_collisions_aliens. apply bullet_loop_stays_dead. Qed.

Lemma all_dead_living (l : list Alien) :
  forallb (fun a => negb (alien_alive a)) l = true <-> living l = [].
Proof.
  unfold living. induction l as [|a rest IH]; simpl; [tauto|].
  destruct (alien_alive a); simpl; [split; discriminate | exact IH].
Qed.

Lemma all_dead_count (l : list Alien) :
  forallb (fun a => negb (alien_alive a)) l = (alive_count l =? 0).
Proof.
  unfold alive_count. induction l as [|a rest IH]; [reflexivity|].
  cbn [forallb filter]. destruct (alien_alive a); cbn [negb andb]; [|exact IH].
  symmetry. apply Z.eqb_neq. cbn [length]. lia.
Qed.

(** Two games that agree up to dead aliens and [alien_speed]. *)
Lemma up_to_dead_fields (g h : Game) :
  forget_speed (erase_dead g) = forget_speed (erase_dead h) <->
  living (aliens g) = living (aliens h) /\
  set_alien_speed 0 (set_aliens [] g) = set_alien_speed 0 (set_aliens [] h).
Proof.
  destruct g, h. unfold forget_speed, erase_dead. inv_fields.
  split.
  - intros E. injection E as; subst. split; [assumption | reflexivity].
  - intros [L E]. injection E as; subst. rewrite L. reflexivity.
Qed.

Lemma bullet_hits_up_to_dead (g h : Game) (b : Bullet) :
  forget_speed (erase_dead g) = forget_speed (erase_dead h) ->
  forget_speed (erase_dead (bullet_hits g b)) = forget_speed (erase_dead (bullet_hits h b)).
Proof.
  rewrite !up_to_dead_fields. intros [L E].
  destruct b as [bx by_]. unfold bullet_hits.
  pose proof (hit_alien_living bx by_ (aliens g)) as Hg.
  pose proof (hit_alien_living bx by_ (aliens h)) as Hh.
  rewrite L, <- Hh in Hg.
  destruct g, h. inv_fields. injection E as; subst.
  destruct (hit_alien bx by_ aliens0) as [[t1 l1]|],
           (hit_alien bx by_ aliens1) as [[t2 l2]|];
    cbn [observe_hit] in Hg; try discriminate Hg.
  - injection Hg as -> Ll.
    destruct (existsb (Bullet_eqb (bx, by_)) player_bullets1); inv_fields;
      unfold alive_count;
      change (filter alien_alive l1) with (living l1);
      change (filter alien_alive l2) with (living l2);
      rewrite Ll;
      destruct (Z.of_nat (length (living l2)) >? 0); inv_fields;
      (split; [exact Ll | reflexivity]).
  - split; [exact L | reflexivity].
Qed.

Lemma bullet_loop_up_to_dead (bullets : list Bullet) :
  forall g h,
    forget_speed (erase_dead g) = forget_speed (erase_dead h) ->
    forget_speed (erase_dead (fold_left bullet_hits bullets g)) =
    forget_speed (erase_dead (fold_left bullet_hits bullets h)).
Proof.
  induction bullets as [|b rest IH]; intros g h E; simpl; [exact E|].
  apply IH. apply bullet_hits_up_to_dead. exact E.
Qed.

Lemma check_collisions_erase_dead (g : Game) :
  forget_speed (erase_dead (check_collisions g)) =
  forget_speed (erase_dead (check_collisions (erase_dead g))).
Proof.
  unfold check_collisions.
  assert (forget_speed (erase_dead g) = forget_speed (erase_dead (erase_dead g))) as E0
    by (unfold erase_dead at 3; inv_fields; unfold erase_dead at 2;
        inv_fields; rewrite living_idempotent; reflexivity).
  pose proof (bullet_loop_up_to_dead (player_bullets g) _ _ E0) as E.
  change (player_bullets (erase_dead g)) with (player_bullets g).
  revert E.
  generalize (fold_left bullet_hits (player_bullets g) g).
  generalize (fold_left bullet_hits (player_bullets g) (erase_dead g)).
  intros h k E. apply up_to_dead_fields in E. destruct E as [L E].
  assert (forallb (fun a => negb (alien_alive a)) (aliens k)
          = forallb (fun a => negb (alien_alive a)) (aliens h)) as V.
  { apply eq_true_iff_eq. rewrite !all_dead_living, L. tauto. }
  rewrite V. destruct k, h. inv_fields. injection E as; subst.
  split_ifs; apply up_to_dead_fields; inv_fields; (split; [exact L | reflexivity]).
Qed.

Lemma update_stays_dead (en : bool) (i : Inputs) (g : Game) :
  Forall2 stays_dead (aliens g) (aliens (update en ticks_diff i g)).
Proof.
  unfold update, before_check_collisions.
  destruct (before_move_aliens_untouched en i g) as (_ & _ & E1).
  set (g1 := before_move_aliens en i g) in *.
  set (g2 := move_aliens ticks_diff (move_time i) g1).
  destruct (alien_shoot_untouched (shoot_time i) (shooter_draw i) g2) as (_ & _ & E3).
  set (g3 := alien_shoot ticks_diff (shoot_time i) (shooter_draw i) g2) in *.
  rewrite <- E1.
  apply stays_dead_trans with (aliens g2); [apply move_aliens_stays_dead|].
  rewrite <- E3. apply check_collisions_stays_dead.
Qed.

Lemma run_stays_dead (en : bool) (inputs : list Inputs) :
  forall g, Forall2 stays_dead (aliens g) (aliens (run en ticks_diff inputs g)).
Proof.
  unfold run. induction inputs as [|i rest IH]; intros g; simpl.
  - apply stays_dead_refl.
  - eapply stays_dead_trans; [apply update_stays_dead | apply IH].
Qed.

(** C8. An alien whose [alive] flag is false takes no part in the game:
    - rendering: it paints no pixel, and [draw_aliens] paints what it
      would paint with the dead aliens removed from the roster;
    - edge check and movement: it never counts as being at an edge, and
      [move_aliens] (gate, edge test, drop, horizontal step, bottom test)
      commutes with removing the dead aliens;
    - collisions: no bullet hits it, and [check_collisions] gives the
      same bullets, score, flags and living aliens with the dead aliens
      removed (only [alien_speed], computed from the roster length, is
      set aside);
    - victory evaluation: the test succeeds iff no living alien is left;
    and it stays as it is, dead and in place, through any number of
    iterations of the game loop. *)
Theorem dead_aliens_are_excluded (en : bool) (inputs : list Inputs) (t d bx by_ : Z)
  (a : Alien) (g : Game) (np : Buffer) :
  (draw_alien np (set_alien_alive false a) = np /\
   draw_aliens g np = draw_aliens (erase_dead g) np) /\
  (at_edge d (set_alien_alive false a) = false /\
   hit_edge d (aliens g) = hit_edge d (living (aliens g)) /\
   erase_dead (move_aliens ticks_diff t g) = move_aliens ticks_diff t (erase_dead g)) /\
  (hit_alien bx by_ [set_alien_alive false a] = None /\
   forget_speed (erase_dead (check_collisions g)) =
   forget_speed (erase_dead (check_collisions (erase_dead g)))) /\
  (forallb (fun a => negb (alien_alive a)) (aliens g) = true <-> living (aliens g) = []) /\
  Forall2 stays_dead (aliens g) (aliens (run en ticks_diff inputs g)).
Proof.
  split; [split|split; [split; [|split]|split; [split|split]]].
  - reflexivity.
  - unfold draw_aliens, erase_dead. inv_fields. apply draw_aliens_living.
  - reflexivity.
  - apply hit_edge_living.
  - apply move_aliens_erase_dead.
  - reflexivity.
  - apply check_collisions_erase_dead.
  - apply all_dead_living.
  - apply run_stays_dead.
Qed.

(** *** Victory and the next formation *)

Lemma check_collisions_victory (g : Game) :
  victory (check_collisions g) =
  victory g || (negb (player_hit g) && (alive_count (aliens (check_collisions g)) =? 0)).
Proof.
  rewrite check_collisions_aliens, <- all_dead_count.
  unfold check_collisions, player_hit.
  destruct (bullet_loop_keeps_frame (player_bullets g) g) as (_ & V & AB & PX & PY & _).
  rewrite AB, PX, PY.
  match goal with
  | |- context [existsb ?f (alien_bullets g)] => destruct (existsb f (alien_bullets g))
  end; inv_fields; cbn [negb andb].
  - rewrite orb_false_r. exact V.
  - destruct (forallb _ (aliens (fold_left bullet_hits (player_bullets g) g))); inv_fields.
    + rewrite orb_true_r. reflexivity.
    + rewrite orb_false_r. exact V.
Qed.

Lemma formation_from_level_5 (lv : Z) :
  5 <= lv -> formation_rows lv = 5 /\ formation_cols lv = 11 /\ columns_spawned lv = 9.
Proof.
  intros H. unfold formation_rows, formation_cols, columns_spawned.
  assert (2 <= lv / 2) by (apply Z.div_le_lower_bound; lia).
  destruct (lv <=? 2) eqn:E2; [apply Z.leb_le in E2; lia|].
  destruct (lv <=? 4) eqn:E4; [apply Z.leb_le in E4; lia|].
  repeat split; lia.
Qed.

Lemma spawn_count (g : Game) :
  1 <= level g ->
  alive_count (aliens (spawn_aliens g)) = formation_rows (level g) * columns_spawned (level g).
Proof.
  intros H. unfold spawn_aliens. inv_fields.
  fold (formation_rows (level g)) (formation_cols (level g)).
  assert (level g = 1 \/ level g = 2 \/ level g = 3 \/ level g = 4 \/ 5 <= level g)
    as [E | [E | [E | [E | E]]]] by lia;
    try (rewrite E; vm_compute; reflexivity).
  destruct (formation_from_level_5 _ E) as (-> & -> & ->). vm_compute. reflexivity.
Qed.

Lemma full_formation_only_at_level_1 (lv : Z) :
  1 <= lv ->
  (formation_rows lv * columns_spawned lv = formation_rows lv * formation_cols lv <-> lv = 1).
Proof.
  intros H.
  assert (lv = 1 \/ lv = 2 \/ lv = 3 \/ lv = 4 \/ 5 <= lv)
    as [E | [E | [E | [E | E]]]] by lia;
    try (rewrite E; vm_compute; split; intros; congruence).
  destruct (formation_from_level_5 _ E) as (-> & -> & ->). lia.
Qed.

(** C2, as amended.  [check_collisions] sets [victory] exactly when no
    alien bullet is within one cell of the player and the living-alien
    count it leaves is zero (a hit on the player returns before the
    victory test).  For every level from 1 up, [spawn_aliens] yields
    [rows] times the number of configured columns placed left of column
    15, that is 7 per row up to level 2, 8 up to level 4 and 9 from level
    5, with rows = min(3 + level//2, 5); this is rows x cols only at
    level 1.  The level-up branch moves to [level + 1], respawns with that
    count and empties both bullet lists. *)
Theorem victory_and_respawn (g : Game) :
  1 <= level g ->
  victory (check_collisions g) =
    victory g || (negb (player_hit g) && (alive_count (aliens (check_collisions g)) =? 0)) /\
  alive_count (aliens (spawn_aliens g)) = formation_rows (level g) * columns_spawned (level g) /\
  (alive_count (aliens (spawn_aliens g)) = formation_rows (level g) * formation_cols (level g)
   <-> level g = 1) /\
  level (next_level g) = level g + 1 /\
  alive_count (aliens (next_level g)) =
    formation_rows (level g + 1) * columns_spawned (level g + 1) /\
  player_bullets (next_level g) = [] /\
  alien_bullets (next_level g) = [].
Proof.
  intros H.
  split; [apply check_collisions_victory|].
  split; [apply spawn_count; exact H|].
  split; [rewrite spawn_count by exact H; apply full_formation_only_at_level_1; exact H|].
  split; [reflexivity|].
  split; [|split; reflexivity].
  unfold next_level. inv_fields.
  set (g1 := set_game_over false (set_victory false (set_level (level g + 1) g))).
  change (level g + 1) with (level g1).
  apply spawn_count. subst g1. inv_fields. lia.
Qed.

Lemma victory_and_respawn_witness :
  victory (check_collisions reset) =
    victory reset
    || (negb (player_hit reset) && (alive_count (aliens (check_collisions reset)) =? 0)) /\
  alive_count (aliens (spawn_aliens reset)) =
    formation_rows (level reset) * columns_spawned (level reset) /\
  (alive_count (aliens (spawn_aliens reset)) =
     formation_rows (level reset) * formation_cols (level reset)
   <-> level reset = 1) /\
  level (next_level reset) = level reset + 1 /\
  alive_count (aliens (next_level reset)) =
    formation_rows (level reset + 1) * columns_spawned (level reset + 1) /\
  player_bullets (next_level reset) = [] /\
  alien_bullets (next_level reset) = [].
Proof.
  apply (victory_and_respawn reset). vm_compute. discriminate.
Defined.

(** C2 as stated fails on both counts.  In [last_stand] the last alien
    is shot while an alien bullet is next to the player: the living count
    is zero and [victory] stays false.  The respawn after level 1 is
    cleared yields 28 living aliens, where rows x cols of level 2 is 32. *)
Lemma victory_and_respawn_counterexample :
  (alive_count (aliens (check_collisions last_stand)) = 0 /\
   victory (check_collisions last_stand) = false) /\
  (alive_count (aliens (next_level reset)) = 28 /\
   formation_rows (level (next_level reset)) * formation_cols (level (next_level reset)) = 32).
Proof.
  vm_compute. repeat split.
Qed.

End ShooterClaims.

(** ** Properties of the button polling of both games *)

Section InputClaims.

Import Display.

Lemma pong_check_buttons_calls (en : bool) (b : Pong.Buttons) (g : Pong.PongGame) :
  Pong.check_buttons en b g =
  (fold_left Pong.apply_intent (Pong.emitted en b) g, some_call (Pong.emitted en b)).
Proof.
  unfold Pong.check_buttons, Pong.emitted. destruct en; [|reflexivity]. cbn [negb].
  destruct (Pong.btn_p1_up b =? 0), (Pong.btn_p1_down b =? 0),
           (Pong.btn_p2_up b =? 0), (Pong.btn_p2_down b =? 0); reflexivity.
Qed.

Lemma shooter_check_buttons_calls (en : bool) (b : Invaders.Buttons) (g : Invaders.Game) :
  Invaders.check_buttons en b g =
  (fold_left Invaders.apply_intent (Invaders.emitted en b) g,
   some_call (Invaders.emitted en b)).
Proof.
  unfold Invaders.check_buttons, Invaders.emitted. destruct en; [|reflexivity]. cbn [negb].
  destruct (Invaders.btn_left b =? 0), (Invaders.btn_right b =? 0),
           (Invaders.btn_fire b =? 0); reflexivity.
Qed.

(** C3, as amended.  Neither game keeps a debounce timer or reads the
    clock when it polls the buttons.  With the buttons enabled, one poll
    performs exactly the calls listed by [emitted], in that order, and the
    call of a button is in that list iff the pin of that button reads 0 at
    this poll; with the buttons disabled nothing is emitted.  The list
    depends on the current sample alone, so a button that is held emits
    its intent again at every poll: each further poll of a run of polls
    applies the same calls once more. *)
Theorem buttons_emit_iff_pressed (en : bool) (n : nat)
  (pb : Pong.Buttons) (pg : Pong.PongGame) (sb : Invaders.Buttons) (sg : Invaders.Game) :
  (Pong.check_buttons en pb pg =
     (fold_left Pong.apply_intent (Pong.emitted en pb) pg, some_call (Pong.emitted en pb)) /\
   Invaders.check_buttons en sb sg =
     (fold_left Invaders.apply_intent (Invaders.emitted en sb) sg,
      some_call (Invaders.emitted en sb))) /\
  ((In (Pong.MovePaddle 1 (-1)) (Pong.emitted true pb) <-> Pong.btn_p1_up pb = 0) /\
   (In (Pong.MovePaddle 1 1) (Pong.emitted true pb) <-> Pong.btn_p1_down pb = 0) /\
   (In (Pong.MovePaddle 2 (-1)) (Pong.emitted true pb) <-> Pong.btn_p2_up pb = 0) /\
   (In (Pong.MovePaddle 2 1) (Pong.emitted true pb) <-> Pong.btn_p2_down pb = 0)) /\
  ((In (Invaders.MovePlayer (-1)) (Invaders.emitted true sb) <-> Invaders.btn_left sb = 0) /\
   (In (Invaders.MovePlayer 1) (Invaders.emitted true sb) <-> Invaders.btn_right sb = 0) /\
   (In Invaders.FirePlayer (Invaders.emitted true sb) <-> Invaders.btn_fire sb = 0)) /\
  (Pong.emitted false pb = [] /\ Invaders.emitted false sb = []) /\
  (Pong.hold en pb (S n) pg =
     fold_left Pong.apply_intent (Pong.emitted en pb) (Pong.hold en pb n pg) /\
   Invaders.hold en sb (S n) sg =
     fold_left Invaders.apply_intent (Invaders.emitted en sb) (Invaders.hold en sb n sg)).
Proof.
  split; [split; [apply pong_check_buttons_calls | apply shooter_check_buttons_calls]|].
  split; [unfold Pong.emitted; cbn [negb]; repeat split; button_cases|].
  split; [unfold Invaders.emitted; cbn [negb]; repeat split; button_cases|].
  split; [split; reflexivity|].
  change (Pong.hold en pb (S n) pg)
    with (fst (Pong.check_buttons en pb (Pong.hold en pb n pg))).
  change (Invaders.hold en sb (S n) sg)
    with (fst (Invaders.check_buttons en sb (Invaders.hold en sb n sg))).
  rewrite pong_check_buttons_calls, shooter_check_buttons_calls. split; reflexivity.
Qed.

(** C3 as stated fails.  With "player 1 down" held, three consecutive
    iterations of the paddle game loop each emit the move, and paddle 1
    goes from row 6 to rows 7, 8 and 9.  With fire held, two consecutive
    iterations of the shooter loop each fire, and two bullets are in
    flight. *)
Lemma held_button_emits_at_every_tick :
  let r := {| Pong.choice_dir := 1; Pong.uniform := 0 |} in
  let a := {| Pong.roll1 := 1; Pong.offset1 := 0; Pong.roll2 := 1; Pong.offset2 := 0 |} in
  let tick := Pong.tick true Pong.p1_down_held a r in
  let g := Pong.reset r in
  let i := {| Invaders.buttons := Invaders.fire_held; Invaders.move_time := 0;
              Invaders.shoot_time := 0; Invaders.shooter_draw := 0 |} in
  Pong.emitted true Pong.p1_down_held = [Pong.MovePaddle 1 1] /\
  Pong.p1_y g = 6 /\
  Pong.p1_y (tick 0 g) = 7 /\
  Pong.p1_y (tick 1 (tick 0 g)) = 8 /\
  Pong.p1_y (tick 2 (tick 1 (tick 0 g))) = 9 /\
  Invaders.emitted true Invaders.fire_held = [Invaders.FirePlayer] /\
  Invaders.player_bullets (Invaders.run true Z.sub [i] Invaders.reset) = [(8, 12)] /\
  Invaders.player_bullets (Invaders.run true Z.sub [i; i] Invaders.reset)
    = [(8, 11); (8, 12)].
Proof.
  vm_compute. repeat split.
Qed.

End InputClaims.

(** ** Further properties of the pixel surface *)

Section SurfaceMore.

Import Display PongMore.

Lemma store_length (n : nat) (v : Color) (np : Buffer) : length (store n v np) = length np.
Proof.
  revert n. induction np as [|c rest IH]; intros n; [destruct n; reflexivity|].
  destruct n; simpl; [reflexivity | rewrite IH; reflexivity].
Qed.

Lemma store_nth_same (n : nat) (v d : Color) (np : Buffer) :
  (n < length np)%nat -> nth n (store n v np) d = v.
Proof.
  revert n. induction np as [|c rest IH]; intros n H; simpl in H; [lia|].
  destruct n; simpl; [reflexivity | apply IH; lia].
Qed.

Lemma store_nth_other (n m : nat) (v d : Color) (np : Buffer) :
  m <> n -> nth m (store n v np) d = nth m np d.
Proof.
  revert n m. induction np as [|c rest IH]; intros n m H; [destruct n; reflexivity|].
  destruct n, m; simpl; try reflexivity; [congruence | apply IH; congruence].
Qed.

Lemma py_int_inject_Z (k : Z) : py_int (inject_Z k) = k.
Proof. unfold py_int, inject_Z. simpl. apply Z.quot_1_r. Qed.

Lemma set_pixel_length (x y : Q) (color : Color) (np : Buffer) :
  length (Pong.set_pixel x y color np) = length np.
Proof.
  unfold Pong.set_pixel. destruct (_ >=? 0); [apply store_length | reflexivity].
Qed.

Lemma xy_to_index_range (x y : Z) : in_grid x y -> 0 <= xy_to_index x y < 256.
Proof.
  intros [Hx Hy]. pose proof (xy_to_index_row x y Hx Hy). unfold HEIGHT in Hy. lia.
Qed.

Lemma xy_to_index_nonneg_in_grid (x y : Z) : xy_to_index x y >= 0 -> in_grid x y.
Proof.
  unfold xy_to_index, in_grid, WIDTH, HEIGHT.
  destruct (x <? 0) eqn:E1; [simpl; lia|].
  destruct (x >=? 16) eqn:E2; [simpl; lia|].
  destruct (y <? 0) eqn:E3; [simpl; lia|].
  destruct (y >=? 16) eqn:E4; [simpl; lia|].
  apply Z.ltb_ge in E1, E3. rewrite Z.geb_leb in E2, E4. apply Z.leb_gt in E2, E4. lia.
Qed.

(** A write at the integer cell [(x', y')], on or off the grid, leaves
    the slot of every other grid cell alone. *)
Lemma set_pixel_other (x y x' y' : Z) (color : Color) (np : Buffer) :
  in_grid x y -> (x', y') <> (x, y) ->
  pixel x y (Pong.set_pixel (inject_Z x') (inject_Z y') color np) = pixel x y np.
Proof.
  intros G N. unfold pixel, Pong.set_pixel. rewrite !py_int_inject_Z.
  destruct (xy_to_index x' y' >=? 0) eqn:E; [|reflexivity].
  rewrite Z.geb_leb in E. apply Z.leb_le in E.
  assert (in_grid x' y') as G' by (apply xy_to_index_nonneg_in_grid; lia).
  apply store_nth_other. intros C.
  pose proof (xy_to_index_range x y G). pose proof (xy_to_index_range x' y' G').
  apply Z2Nat.inj in C; try lia.
  apply N. destruct (xy_to_index_injective x y x' y' G G' C). congruence.
Qed.

Lemma set_pixel_same (x y : Z) (color : Color) (np : Buffer) :
  length np = 256%nat -> in_grid x y ->
  pixel x y (Pong.set_pixel (inject_Z x) (inject_Z y) color np) = scale_color color.
Proof.
  intros L G. unfold pixel, Pong.set_pixel. rewrite !py_int_inject_Z.
  pose proof (xy_to_index_range x y G) as R.
  destruct (xy_to_index x y >=? 0) eqn:E;
    [|rewrite Z.geb_leb in E; apply Z.leb_gt in E; lia].
  apply store_nth_same. rewrite L. lia.
Qed.

(** X1. On a buffer of 256 slots, [set_pixel] at a grid cell stores the
    scaled colour in the slot of that cell, leaves the slot of every other
    grid cell as it was, and keeps the buffer at 256 slots. *)
Theorem set_pixel_read_back (x y x' y' : Z) (color : Color) (np : Buffer) :
  length np = 256%nat -> in_grid x y -> in_grid x' y' ->
  let np' := Pong.set_pixel (inject_Z x) (inject_Z y) color np in
  length np' = 256%nat /\
  pixel x y np' = scale_color color /\
  ((x', y') <> (x, y) -> pixel x' y' np' = pixel x' y' np).
Proof.
  intros L G G'. cbv zeta. split; [rewrite set_pixel_length; exact L|].
  split; [apply set_pixel_same; assumption|].
  intros N. apply set_pixel_other; [exact G' | congruence].
Qed.

Lemma set_pixel_read_back_witness :
  let np' := Pong.set_pixel (inject_Z 3) (inject_Z 5) WHITE blank in
  length np' = 256%nat /\
  pixel 3 5 np' = scale_color WHITE /\
  ((4, 5) <> (3, 5) -> pixel 4 5 np' = pixel 4 5 blank).
Proof.
  apply (set_pixel_read_back 3 5 4 5 WHITE blank);
    [reflexivity | unfold in_grid, WIDTH, HEIGHT; lia | unfold in_grid, WIDTH, HEIGHT; lia].
Defined.

Lemma scale_channel_closed_form (c : Z) : 0 <= c -> scale_channel c = 3 * c / 10.
Proof.
  intros H. unfold scale_channel, py_int, BRIGHTNESS.
  change (Qnum (inject_Z c * 0.3)) with (c * 3).
  change (Z.pos (Qden (inject_Z c * 0.3))) with 10.
  rewrite Z.quot_div_nonneg by lia. f_equal. lia.
Qed.

(** X2. Brightness scaling of a channel value [c] in [0,255] is the
    integer part of [3c/10]: it lies in [0,76], never exceeds [c], and
    grows with [c]. *)
Theorem scale_channel_bounds (c c' : Z) :
  0 <= c <= c' -> c' <= 255 ->
  scale_channel c = 3 * c / 10 /\
  0 <= scale_channel c <= 76 /\
  scale_channel c <= c /\
  scale_channel c <= scale_channel c'.
Proof.
  intros [H0 H1] H2.
  rewrite !scale_channel_closed_form by lia.
  split; [reflexivity|].
  pose proof (Z.div_mod (3 * c) 10 ltac:(lia)) as D.
  pose proof (Z.mod_pos_bound (3 * c) 10 ltac:(lia)) as B.
  repeat split; try lia.
  apply Z.div_le_mono; lia.
Qed.

Lemma scale_channel_bounds_witness :
  scale_channel 100 = 3 * 100 / 10 /\
  0 <= scale_channel 100 <= 76 /\
  scale_channel 100 <= 100 /\
  scale_channel 100 <= scale_channel 255.
Proof.
  apply (scale_channel_bounds 100 255); lia.
Defined.

End SurfaceMore.

(** ** Further properties of the paddle game *)

Section PaddleMore.

Import Display Pong PongMore.

Local Open Scope Q_scope.

Lemma Qltb_lt (a b : Q) : Qltb a b = true <-> a < b.
Proof.
  unfold Qltb. split.
  - intros H. apply negb_true_iff in H. apply Qle_bool_false. exact H.
  - intros H. apply negb_true_iff.
    destruct (Qle_bool b a) eqn:E; [|reflexivity].
    apply Qle_bool_iff in E. lra.
Qed.

Lemma Qltb_inject_Z (a b : Z) : Qltb (inject_Z a) (inject_Z b) = (a <? b)%Z.
Proof.
  apply eq_true_iff_eq. rewrite Qltb_lt, Z.ltb_lt, Zlt_Qlt. tauto.
Qed.

Lemma wall_collision_vx (g : PongGame) :
  ball_vx (wall_collision (integrate g)) = ball_vx g.
Proof. unfold wall_collision, integrate. split_ifs; reflexivity. Qed.

Lemma wall_collision_vy (g : PongGame) :
  Qabs (ball_vy (wall_collision g)) == Qabs (ball_vy g).
Proof.
  unfold wall_collision. split_ifs; pong_fields.
  - apply Qabs_pos, Qabs_nonneg.
  - rewrite Qabs_opp. apply Qabs_pos, Qabs_nonneg.
  - reflexivity.
Qed.

Lemma paddle1_collision_speed (g : PongGame) :
  speed_ok g ->
  speed_ok (paddle1_collision g) /\ Qabs (ball_vx g) <= Qabs (ball_vx (paddle1_collision g)).
Proof.
  unfold speed_ok, paddle1_collision. intros S.
  split_ifs; pong_fields; try (split; [exact S | apply Qle_refl]).
  pose proof (Q.min_spec (Qabs (ball_vx g) * 1.05) 2.0) as M.
  set (m := Qmin (Qabs (ball_vx g) * 1.05) 2.0) in *.
  assert (0.8 <= m <= 2 /\ Qabs (ball_vx g) <= m) as B
    by (destruct M as [[L E]|[L E]]; lra).
  rewrite (Qabs_pos m) by lra. lra.
Qed.

Lemma paddle2_collision_speed (g : PongGame) :
  speed_ok g ->
  speed_ok (paddle2_collision g) /\ Qabs (ball_vx g) <= Qabs (ball_vx (paddle2_collision g)).
Proof.
  unfold speed_ok, paddle2_collision. intros S.
  split_ifs; pong_fields; try (split; [exact S | apply Qle_refl]).
  pose proof (Q.max_spec (- Qabs (ball_vx g) * 1.05) (- 2.0)) as M.
  set (m := Qmax (- Qabs (ball_vx g) * 1.05) (- 2.0)) in *.
  assert (- (2) <= m <= - 0.8 /\ Qabs (ball_vx g) <= - m) as B
    by (destruct M as [[L E]|[L E]]; lra).
  rewrite (Qabs_neg m) by lra. lra.
Qed.

Lemma ball_physics_speed (g : PongGame) :
  speed_ok g ->
  speed_ok (ball_physics g) /\ Qabs (ball_vx g) <= Qabs (ball_vx (ball_physics g)).
Proof.
  intros S. unfold ball_physics.
  set (w := wall_collision (integrate g)).
  assert (speed_ok w) as Sw by (unfold speed_ok, w; rewrite wall_collision_vx; exact S).
  assert (ball_vx w = ball_vx g) as Ew by apply wall_collision_vx.
  destruct (paddle1_collision_speed w Sw) as [S1 L1].
  destruct (paddle2_collision_speed _ S1) as [S2 L2].
  split; [exact S2|]. rewrite <- Ew. lra.
Qed.

(** The five ways out of the scoring block. *)
Lemma scoring_cases (r : Random) (b : PongGame) :
  scoring r b = b \/
  scoring r b = set_winner (Some 2%Z) (set_game_over true (set_p2_score (p2_score b + 1) b)) \/
  scoring r b = reset_ball (Some 1%Z) r (set_p2_score (p2_score b + 1) b) \/
  scoring r b = set_winner (Some 1%Z) (set_game_over true (set_p1_score (p1_score b + 1) b)) \/
  scoring r b = reset_ball (Some (-1)%Z) r (set_p1_score (p1_score b + 1) b).
Proof.
  unfold scoring.
  destruct (Qle_bool (ball_x b) 0).
  - pong_goal. destruct (p2_score b + 1 >=? winning_score b)%Z; auto.
  - destruct (Qle_bool (inject_Z (WIDTH - 1)) (ball_x b)); [|auto].
    pong_goal. destruct (p1_score b + 1 >=? winning_score b)%Z; auto 6.
Qed.

(** X3. Once the horizontal speed of the ball is between the serve speed
    0.8 and the cap 2, every [update_ball] keeps it there (a serve after a
    point restarts at 0.8, a paddle hit multiplies by 1.05 up to the cap),
    and the wall and paddle blocks of an update never slow the ball down. *)
Theorem horizontal_speed_stays_bounded (r : Random) (g : PongGame) :
  speed_ok g ->
  speed_ok (update_ball r g) /\
  Qabs (ball_vx g) <= Qabs (ball_vx (ball_physics g)).
Proof.
  intros S. destruct (ball_physics_speed g S) as [Sb L]. split; [|exact L].
  unfold update_ball. revert Sb. generalize (ball_physics g). intros b Sb.
  unfold speed_ok in *.
  destruct (scoring_cases r b) as [E | [E | [E | [E | E]]]]; rewrite E.
  - exact Sb.
  - exact Sb.
  - split; discriminate.
  - exact Sb.
  - split; discriminate.
Qed.

Lemma horizontal_speed_stays_bounded_witness :
  let r := {| choice_dir := -1; uniform := 0.25 |} in
  speed_ok (update_ball r (reset r)) /\
  Qabs (ball_vx (reset r)) <= Qabs (ball_vx (ball_physics (reset r))).
Proof.
  apply (horizontal_speed_stays_bounded {| choice_dir := -1; uniform := 0.25 |}
           (reset {| choice_dir := -1; uniform := 0.25 |})).
  vm_compute. split; discriminate.
Defined.

Lemma rebound_angle_bound (y : Q) (top h : Z) :
  inject_Z top <= y -> y <= inject_Z (top + h - 1) ->
  Qabs ((((y - inject_Z top) / inject_Z h) - 0.5) * 1.5) <= 0.75.
Proof.
  intros L U.
  assert (inject_Z top <= inject_Z (top + h - 1)) as T by lra.
  rewrite <- Zle_Qle in T.
  assert (0 < inject_Z h) as Hh by (change 0 with (inject_Z 0); rewrite <- Zlt_Qlt; lia).
  replace (top + h - 1)%Z with (top + (h + -1))%Z in U by lia.
  rewrite !inject_Z_plus in U. change (inject_Z (-1)) with (-(1)) in U.
  assert (0 <= (y - inject_Z top) / inject_Z h) as A
    by (apply Qle_shift_div_l; [exact Hh | lra]).
  assert ((y - inject_Z top) / inject_Z h <= 1) as B
    by (apply Qle_shift_div_r; [exact Hh | lra]).
  apply Qabs_Qle_condition. lra.
Qed.

Lemma paddle1_collision_vy (g : PongGame) :
  Qabs (ball_vy g) <= 0.75 -> Qabs (ball_vy (paddle1_collision g)) <= 0.75.
Proof.
  unfold paddle1_collision. intros V.
  destruct (_ && _); [|exact V].
  destruct (Qle_bool (inject_Z (p1_y g)) (ball_y g)) eqn:L; [|exact V].
  destruct (Qle_bool (ball_y g) (inject_Z (p1_y g + paddle_height g - 1))) eqn:U;
    [|exact V].
  apply Qle_bool_iff in L, U. cbn [andb]. pong_fields.
  apply rebound_angle_bound; assumption.
Qed.

Lemma paddle2_collision_vy (g : PongGame) :
  Qabs (ball_vy g) <= 0.75 -> Qabs (ball_vy (paddle2_collision g)) <= 0.75.
Proof.
  unfold paddle2_collision. intros V.
  destruct (_ && _); [|exact V].
  destruct (Qle_bool (inject_Z (p2_y g)) (ball_y g)) eqn:L; [|exact V].
  destruct (Qle_bool (ball_y g) (inject_Z (p2_y g + paddle_height g - 1))) eqn:U;
    [|exact V].
  apply Qle_bool_iff in L, U. cbn [andb]. pong_fields.
  apply rebound_angle_bound; assumption.
Qed.

(** X4. When [random.uniform(-0.4, 0.4)] delivers a value of magnitude at
    most 0.4, a ball whose vertical speed has magnitude at most 0.75 keeps
    that bound through [update_ball]: walls only change the sign, a paddle
    hit sets [vy] to [(hit_pos - 0.5) * 1.5] with [hit_pos] in [0,1], and
    a serve takes the drawn value. *)
Theorem vertical_speed_stays_bounded (r : Random) (g : PongGame) :
  Qabs (uniform r) <= 0.4 ->
  Qabs (ball_vy g) <= 0.75 ->
  Qabs (ball_vy (update_ball r g)) <= 0.75.
Proof.
  intros R V.
  assert (Qabs (ball_vy (ball_physics g)) <= 0.75) as Vb.
  { unfold ball_physics. apply paddle2_collision_vy, paddle1_collision_vy.
    rewrite wall_collision_vy. exact V. }
  unfold update_ball. revert Vb. generalize (ball_physics g). intros b Vb.
  destruct (scoring_cases r b) as [E | [E | [E | [E | E]]]]; rewrite E.
  - exact Vb.
  - exact Vb.
  - change (Qabs (uniform r) <= 0.75). lra.
  - exact Vb.
  - change (Qabs (uniform r) <= 0.75). lra.
Qed.

Lemma vertical_speed_stays_bounded_witness :
  let r := {| choice_dir := -1; uniform := 0.25 |} in
  Qabs (ball_vy (update_ball r (reset r))) <= 0.75.
Proof.
  apply (vertical_speed_stays_bounded {| choice_dir := -1; uniform := 0.25 |}
           (reset {| choice_dir := -1; uniform := 0.25 |}));
    vm_compute; discriminate.
Defined.

(** X5. With the paddles on columns 0 and 15, a ball that the wall block
    leaves moving left at column 1 or beyond, on a row covered by paddle 1,
    costs no point: [update_ball] puts it on column 1 moving right, counts
    one more rally hit and leaves both scores and [game_over] alone. *)
Theorem paddle_one_saves_the_point (r : Random) (g : PongGame) :
  let w := wall_collision (integrate g) in
  p1_x g = 0%Z -> p2_x g = 15%Z ->
  ball_x w <= 1 -> ball_vx w < 0 ->
  inject_Z (p1_y g) <= ball_y w <= inject_Z (p1_y g + paddle_height g - 1) ->
  let g' := update_ball r g in
  ball_x g' = 1 /\ 0 < ball_vx g' /\
  rally_count g' = (rally_count g + 1)%Z /\
  p1_score g' = p1_score g /\ p2_score g' = p2_score g /\
  game_over g' = game_over g.
Proof.
  intros w P1 P2 X V [L U]. cbv zeta.
  assert (p1_x w = 0%Z /\ p2_x w = 15%Z /\ p1_y w = p1_y g /\
          paddle_height w = paddle_height g /\ rally_count w = rally_count g /\
          p1_score w = p1_score g /\ p2_score w = p2_score g /\
          game_over w = game_over g) as (W1 & W2 & W3 & W4 & W5 & W6 & W7 & W8).
  { subst w. unfold wall_collision, integrate. split_ifs; pong_fields; auto 10. }
  unfold update_ball, ball_physics. fold w.
  assert (exists vx, 0 < vx /\
            paddle1_collision w =
            set_rally_count (rally_count w + 1)
              (set_ball_vx vx
                 (set_ball_vy ((((ball_y w - inject_Z (p1_y g)) / inject_Z (paddle_height g))
                                - 0.5) * 1.5)
                    (set_ball_x 1 w)))) as (vx & Hvx & E).
  { exists (Qmin (Qabs (ball_vx w) * 1.05) 2.0). split.
    - pose proof (Q.min_spec (Qabs (ball_vx w) * 1.05) 2.0) as M.
      assert (0 < Qabs (ball_vx w)) as A by (rewrite Qabs_neg by lra; lra).
      destruct M as [[_ E]|[_ E]]; lra.
    - unfold paddle1_collision.
      assert (Qle_bool (ball_x w) (inject_Z (p1_x w + 1)) = true) as ->
        by (rewrite W1; apply Qle_bool_iff; exact X).
      assert (Qltb (ball_vx w) 0 = true) as -> by (apply Qltb_lt; exact V).
      assert (Qle_bool (inject_Z (p1_y w)) (ball_y w) = true) as ->
        by (rewrite W3; apply Qle_bool_iff; exact L).
      assert (Qle_bool (ball_y w) (inject_Z (p1_y w + paddle_height w - 1)) = true) as ->
        by (rewrite W3, W4; apply Qle_bool_iff; exact U).
      cbn [andb]. pong_fields. rewrite W1, W3, W4. reflexivity. }
  rewrite E. clear E.
  unfold paddle2_collision. pong_fields. rewrite W2.
  assert (Qle_bool (inject_Z (15 - 1)) 1 = false) as -> by reflexivity.
  cbn [andb]. unfold scoring. pong_fields.
  assert (Qle_bool 1 0 = false) as -> by reflexivity.
  assert (Qle_bool (inject_Z (WIDTH - 1)) 1 = false) as -> by reflexivity.
  pong_fields. rewrite W5. auto 10.
Qed.

Lemma paddle_one_saves_the_point_witness :
  let r := {| choice_dir := -1; uniform := 0 |} in
  let g := set_ball_y 7 (set_ball_x 1.5 (reset r)) in
  let g' := update_ball r g in
  ball_x g' = 1 /\ 0 < ball_vx g' /\
  rally_count g' = (rally_count g + 1)%Z /\
  p1_score g' = p1_score g /\ p2_score g' = p2_score g /\
  game_over g' = game_over g.
Proof.
  apply (paddle_one_saves_the_point {| choice_dir := -1; uniform := 0 |}
           (set_ball_y 7 (set_ball_x 1.5 (reset {| choice_dir := -1; uniform := 0 |}))));
    try reflexivity; vm_compute; try split; discriminate.
Defined.

Lemma scoring_match_consistent (r : Random) (b : PongGame) :
  match_consistent b -> game_over b = false -> match_consistent (scoring r b).
Proof.
  unfold match_consistent. intros M G. rewrite G in M. destruct M as (Wn & S1 & S2).
  unfold scoring, reset_ball.
  destruct (Qle_bool (ball_x b) 0); pong_fields.
  - destruct (p2_score b + 1 >=? winning_score b)%Z eqn:E;
      rewrite Z.geb_leb in E; pong_fields.
    + apply Z.leb_le in E. right. repeat split; lia.
    + apply Z.leb_gt in E. rewrite G. repeat split; try assumption; lia.
  - destruct (Qle_bool (inject_Z (WIDTH - 1)) (ball_x b)); pong_fields.
    + destruct (p1_score b + 1 >=? winning_score b)%Z eqn:E;
        rewrite Z.geb_leb in E; pong_fields.
      * apply Z.leb_le in E. left. repeat split; lia.
      * apply Z.leb_gt in E. rewrite G. repeat split; try assumption; lia.
    + rewrite G. repeat split; assumption.
Qed.

Lemma move_paddle_aside (paddle direction : Z) (g : PongGame) :
  paddles_aside (move_paddle paddle direction g) = paddles_aside g.
Proof. unfold move_paddle. split_ifs; reflexivity. Qed.

Lemma ai_control_aside (a : AiRandom) (g : PongGame) :
  paddles_aside (ai_control a g) = paddles_aside g.
Proof.
  unfold ai_control.
  set (t1 := if Qltb (ball_vx g) 0 then _ else _).
  set (g1 := if Qltb (inject_Z (p1_y g)) t1 then _ else _).
  assert (paddles_aside g1 = paddles_aside g) as E1
    by (subst g1; split_ifs; rewrite ?move_paddle_aside; reflexivity).
  set (t2 := if Qltb 0 (ball_vx g1) then _ else _).
  split_ifs; rewrite ?move_paddle_aside; exact E1.
Qed.

Lemma check_buttons_aside (en : bool) (b : Buttons) (g : PongGame) :
  paddles_aside (fst (check_buttons en b g)) = paddles_aside g.
Proof.
  unfold check_buttons. destruct en; [|reflexivity]. cbn [negb].
  destruct (btn_p1_up b =? 0)%Z, (btn_p1_down b =? 0)%Z,
           (btn_p2_up b =? 0)%Z, (btn_p2_down b =? 0)%Z;
    cbn [fst]; rewrite ?move_paddle_aside; reflexivity.
Qed.

(** The state [tick] hands to [update_ball]. *)
Lemma tick_unfold (en : bool) (b : Buttons) (a : AiRandom) (r : Random) (frame : Z)
  (g : PongGame) :
  exists g1, tick en b a r frame g = update_ball r g1 /\ paddles_aside g1 = paddles_aside g.
Proof.
  unfold tick. pose proof (check_buttons_aside en b g) as E.
  destruct (check_buttons en b g) as [g0 used]. cbn [fst] in E.
  destruct used; cbn [negb].
  - exists g0. split; [reflexivity | exact E].
  - destruct (frame mod 2 =? 0)%Z.
    + exists (ai_control a g0). split; [reflexivity|]. rewrite ai_control_aside. exact E.
    + exists g0. split; [reflexivity | exact E].
Qed.

Lemma match_consistent_aside (g h : PongGame) :
  paddles_aside h = paddles_aside g ->
  (match_consistent g -> match_consistent h) /\ game_over h = game_over g.
Proof.
  intros E. destruct g, h. unfold paddles_aside in E. pong_fields.
  injection E as; subst. split; [tauto | reflexivity].
Qed.

Lemma tick_match_consistent (en : bool) (b : Buttons) (a : AiRandom) (r : Random)
  (frame : Z) (g : PongGame) :
  match_consistent g -> game_over g = false ->
  match_consistent (tick en b a r frame g).
Proof.
  intros M G. destruct (tick_unfold en b a r frame g) as (g1 & -> & E).
  destruct (match_consistent_aside g g1 E) as [M1 G1]. specialize (M1 M).
  destruct (ball_physics_keeps_match g1) as (S1 & S2 & W & GO & Wi).
  unfold update_ball. apply scoring_match_consistent.
  - unfold match_consistent in *. rewrite GO, S1, S2, W, Wi. exact M1.
  - rewrite GO, G1. exact G.
Qed.

(** X6. While the match runs ([game_over] false, no winner, both scores
    below [winning_score]) one iteration of the game loop either leaves it
    running in that state or ends it with [winner] set to a player whose
    score is exactly [winning_score] while the other score is below it;
    each score grows by at most one point and never shrinks. *)
Theorem match_ends_with_one_winner (en : bool) (b : Buttons) (a : AiRandom) (r : Random)
  (frame : Z) (g : PongGame) :
  match_consistent g -> game_over g = false ->
  let g' := tick en b a r frame g in
  match_consistent g' /\
  (p1_score g <= p1_score g' <= p1_score g + 1)%Z /\
  (p2_score g <= p2_score g' <= p2_score g + 1)%Z /\
  winning_score g' = winning_score g.
Proof.
  intros M G. cbv zeta. split; [apply tick_match_consistent; assumption|].
  destruct (tick_unfold en b a r frame g) as (g1 & -> & E).
  assert (p1_score g1 = p1_score g /\ p2_score g1 = p2_score g /\
          winning_score g1 = winning_score g) as (E1 & E2 & E3).
  { destruct g, g1. unfold paddles_aside in E. pong_fields.
    injection E as; subst. auto. }
  destruct (ball_physics_keeps_match g1) as (S1 & S2 & W & _ & _).
  rewrite <- E1, <- E2, <- E3, <- S1, <- S2, <- W.
  unfold update_ball. generalize (ball_physics g1). intros c.
  destruct (scoring_cases r c) as [H | [H | [H | [H | H]]]]; rewrite H;
    unfold reset_ball; pong_goal; lia.
Qed.

Lemma match_ends_with_one_winner_witness :
  let r := {| choice_dir := 1; uniform := 0 |} in
  let a := {| roll1 := 1; offset1 := 0; roll2 := 1; offset2 := 0 |} in
  let g := reset r in
  let g' := tick true p1_down_held a r 0 g in
  match_consistent g' /\
  (p1_score g <= p1_score g' <= p1_score g + 1)%Z /\
  (p2_score g <= p2_score g' <= p2_score g + 1)%Z /\
  winning_score g' = winning_score g.
Proof.
  apply (match_ends_with_one_winner true p1_down_held
           {| roll1 := 1; offset1 := 0; roll2 := 1; offset2 := 0 |}
           {| choice_dir := 1; uniform := 0 |} 0
           (reset {| choice_dir := 1; uniform := 0 |}));
    [vm_compute; auto | reflexivity].
Defined.

Local Open Scope Z_scope.

(** What one [move_paddle] can do to the rows of the two paddles. *)
Lemma move_paddle_rows (paddle direction : Z) (g : PongGame) :
  let g' := move_paddle paddle direction g in
  paddle_height g' = paddle_height g /\
  (p1_y g' = p1_y g \/ (paddle = 1 /\ p1_y g' = p1_y g + direction)) /\
  (p2_y g' = p2_y g \/ (paddle <> 1 /\ p2_y g' = p2_y g + direction)).
Proof.
  unfold move_paddle. destruct (Z.eqb_spec paddle 1); split_ifs; pong_fields; auto.
Qed.

Lemma check_buttons_rows (en : bool) (b : Buttons) (g : PongGame) :
  let g' := fst (check_buttons en b g) in
  paddle_height g' = paddle_height g /\
  Z.abs (p1_y g' - p1_y g) <= 1 /\ Z.abs (p2_y g' - p2_y g) <= 1.
Proof.
  unfold check_buttons. destruct en; cbn [negb]; [|cbn [fst]; lia].
  set (g1 := if btn_p1_up b =? 0 then move_paddle 1 (-1) g else g).
  set (g2 := if btn_p1_down b =? 0 then move_paddle 1 1 g1 else g1).
  set (g3 := if btn_p2_up b =? 0 then move_paddle 2 (-1) g2 else g2).
  set (g4 := if btn_p2_down b =? 0 then move_paddle 2 1 g3 else g3).
  assert (fst (let '(h, pressed) :=
                 if btn_p1_up b =? 0 then (move_paddle 1 (-1) g, true) else (g, false) in
               let '(h, pressed) :=
                 if btn_p1_down b =? 0 then (move_paddle 1 1 h, true) else (h, pressed) in
               let '(h, pressed) :=
                 if btn_p2_up b =? 0 then (move_paddle 2 (-1) h, true) else (h, pressed) in
               let '(h, pressed) :=
                 if btn_p2_down b =? 0 then (move_paddle 2 1 h, true) else (h, pressed) in
               (h, pressed)) = g4) as ->
    by (subst g4 g3 g2 g1;
        destruct (btn_p1_up b =? 0), (btn_p1_down b =? 0),
                 (btn_p2_up b =? 0), (btn_p2_down b =? 0); reflexivity).
  assert (paddle_height g1 = paddle_height g /\
          (p1_y g1 = p1_y g \/ p1_y g1 = p1_y g + -1) /\ p2_y g1 = p2_y g) as (H1 & A1 & B1)
    by (subst g1; destruct (btn_p1_up b =? 0);
        [pose proof (move_paddle_rows 1 (-1) g) | ]; cbv zeta in *; intuition lia).
  assert (paddle_height g2 = paddle_height g1 /\
          (p1_y g2 = p1_y g1 \/ p1_y g2 = p1_y g1 + 1) /\ p2_y g2 = p2_y g1) as (H2 & A2 & B2)
    by (subst g2; destruct (btn_p1_down b =? 0);
        [pose proof (move_paddle_rows 1 1 g1) | ]; cbv zeta in *; intuition lia).
  assert (paddle_height g3 = paddle_height g2 /\
          p1_y g3 = p1_y g2 /\ (p2_y g3 = p2_y g2 \/ p2_y g3 = p2_y g2 + -1)) as (H3 & A3 & B3)
    by (subst g3; destruct (btn_p2_up b =? 0);
        [pose proof (move_paddle_rows 2 (-1) g2) | ]; cbv zeta in *; intuition lia).
  assert (paddle_height g4 = paddle_height g3 /\
          p1_y g4 = p1_y g3 /\ (p2_y g4 = p2_y g3 \/ p2_y g4 = p2_y g3 + 1)) as (H4 & A4 & B4)
    by (subst g4; destruct (btn_p2_down b =? 0);
        [pose proof (move_paddle_rows 2 1 g3) | ]; cbv zeta in *; intuition lia).
  cbv zeta. lia.
Qed.

Lemma ai_control_rows (a : AiRandom) (g : PongGame) :
  let g' := ai_control a g in
  paddle_height g' = paddle_height g /\
  Z.abs (p1_y g' - p1_y g) <= 1 /\ Z.abs (p2_y g' - p2_y g) <= 1.
Proof.
  unfold ai_control.
  set (t1 := if Qltb (ball_vx g) 0 then _ else _).
  set (g1 := if Qltb (inject_Z (p1_y g)) t1 then _ else _).
  assert (paddle_height g1 = paddle_height g /\
          Z.abs (p1_y g1 - p1_y g) <= 1 /\ p2_y g1 = p2_y g) as (H1 & A1 & B1).
  { subst g1. destruct (Qltb (inject_Z (p1_y g)) t1);
      [pose proof (move_paddle_rows 1 1 g); cbv zeta in *; intuition lia|].
    destruct (Qltb t1 (inject_Z (p1_y g)));
      [pose proof (move_paddle_rows 1 (-1) g); cbv zeta in *; intuition lia|].
    lia. }
  set (t2 := if Qltb 0 (ball_vx g1) then _ else _).
  destruct (Qltb (inject_Z (p2_y g1)) t2);
    [pose proof (move_paddle_rows 2 1 g1); cbv zeta in *; intuition lia|].
  destruct (Qltb t2 (inject_Z (p2_y g1)));
    [pose proof (move_paddle_rows 2 (-1) g1); cbv zeta in *; intuition lia|].
  cbv zeta. lia.
Qed.

Lemma wall_collision_rows (g : PongGame) :
  paddle_height (wall_collision g) = paddle_height g /\
  p1_y (wall_collision g) = p1_y g /\ p2_y (wall_collision g) = p2_y g.
Proof. unfold wall_collision. split_ifs; repeat split; reflexivity. Qed.

Lemma paddle1_collision_rows (g : PongGame) :
  paddle_height (paddle1_collision g) = paddle_height g /\
  p1_y (paddle1_collision g) = p1_y g /\ p2_y (paddle1_collision g) = p2_y g.
Proof. unfold paddle1_collision. split_ifs; repeat split; reflexivity. Qed.

Lemma paddle2_collision_rows (g : PongGame) :
  paddle_height (paddle2_collision g) = paddle_height g /\
  p1_y (paddle2_collision g) = p1_y g /\ p2_y (paddle2_collision g) = p2_y g.
Proof. unfold paddle2_collision. split_ifs; repeat split; reflexivity. Qed.

Lemma scoring_rows (r : Random) (g : PongGame) :
  paddle_height (scoring r g) = paddle_height g /\
  p1_y (scoring r g) = p1_y g /\ p2_y (scoring r g) = p2_y g.
Proof.
  destruct (scoring_cases r g) as [H | [H | [H | [H | H]]]]; rewrite H;
    repeat split; reflexivity.
Qed.

Lemma update_ball_rows (r : Random) (g : PongGame) :
  paddle_height (update_ball r g) = paddle_height g /\
  p1_y (update_ball r g) = p1_y g /\ p2_y (update_ball r g) = p2_y g.
Proof.
  unfold update_ball, ball_physics.
  destruct (scoring_rows r (paddle2_collision (paddle1_collision (wall_collision (integrate g)))))
    as (-> & -> & ->).
  destruct (paddle2_collision_rows (paddle1_collision (wall_collision (integrate g))))
    as (-> & -> & ->).
  destruct (paddle1_collision_rows (wall_collision (integrate g))) as (-> & -> & ->).
  destruct (wall_collision_rows (integrate g)) as (-> & -> & ->).
  repeat split; reflexivity.
Qed.

Lemma ai_control_in_range (a : AiRandom) (g : PongGame) :
  paddles_in_range g -> paddles_in_range (ai_control a g).
Proof.
  unfold ai_control. intros R.
  set (t1 := if Qltb (ball_vx g) 0 then _ else _).
  set (g1 := if Qltb (inject_Z (p1_y g)) t1 then _ else _).
  assert (paddles_in_range g1) as R1
    by (subst g1; split_ifs; auto using move_paddle_in_range).
  split_ifs; auto using move_paddle_in_range.
Qed.

Lemma check_buttons_in_range (en : bool) (b : Buttons) (g : PongGame) :
  paddles_in_range g -> paddles_in_range (fst (check_buttons en b g)).
Proof.
  intros R. unfold check_buttons. destruct en; cbn [negb]; [|exact R].
  destruct (btn_p1_up b =? 0), (btn_p1_down b =? 0),
           (btn_p2_up b =? 0), (btn_p2_down b =? 0);
    cbn [fst]; auto 6 using move_paddle_in_range.
Qed.

Lemma tick_in_range (en : bool) (b : Buttons) (a : AiRandom) (r : Random) (frame : Z)
  (g : PongGame) :
  paddles_in_range g -> paddles_in_range (tick en b a r frame g).
Proof.
  intros R. unfold tick.
  pose proof (check_buttons_in_range en b g R) as R0.
  destruct (check_buttons en b g) as [g0 used]. cbn [fst] in R0.
  set (g1 := if negb used then _ else g0).
  assert (paddles_in_range g1) as R1
    by (subst g1; split_ifs; auto using ai_control_in_range).
  destruct (update_ball_rows r g1) as (H & P1 & P2).
  unfold paddles_in_range in *. rewrite H, P1, P2. exact R1.
Qed.

Lemma check_buttons_unused (en : bool) (b : Buttons) (g : PongGame) :
  snd (check_buttons en b g) = false -> fst (check_buttons en b g) = g.
Proof.
  unfold check_buttons. destruct en; cbn [negb]; [|reflexivity].
  destruct (btn_p1_up b =? 0), (btn_p1_down b =? 0),
           (btn_p2_up b =? 0), (btn_p2_down b =? 0);
    cbn [fst snd]; intros H; try discriminate H; reflexivity.
Qed.

Lemma ticks_in_range (en : bool) (inputs : list (Buttons * AiRandom * Random)) :
  forall frame g, paddles_in_range g -> paddles_in_range (ticks en inputs frame g).
Proof.
  induction inputs as [|[[b a] r] rest IH]; intros frame g R; cbn [ticks].
  - exact R.
  - apply IH. apply tick_in_range. exact R.
Qed.

(** X7. One iteration of the game loop, whatever the buttons, the frame
    parity and the draws of the AI, keeps both paddles inside
    [0, 16 - paddle_height] and moves each paddle by at most one row; the
    range therefore holds after any number of iterations. *)
Theorem tick_moves_paddles_one_row (en : bool) (inputs : list (Buttons * AiRandom * Random))
  (b : Buttons) (a : AiRandom) (r : Random) (frame : Z) (g : PongGame) :
  paddles_in_range g ->
  let g' := tick en b a r frame g in
  paddles_in_range g' /\
  Z.abs (p1_y g' - p1_y g) <= 1 /\ Z.abs (p2_y g' - p2_y g) <= 1 /\
  paddles_in_range (ticks en inputs frame g).
Proof.
  intros R. cbv zeta. split; [apply tick_in_range; exact R|].
  assert (Z.abs (p1_y (tick en b a r frame g) - p1_y g) <= 1 /\
          Z.abs (p2_y (tick en b a r frame g) - p2_y g) <= 1) as [A B].
  { unfold tick. pose proof (check_buttons_rows en b g) as C.
    pose proof (check_buttons_unused en b g) as U.
    destruct (check_buttons en b g) as [g0 used]. cbn [fst snd] in C, U. cbv zeta in C.
    destruct used; cbn [negb].
    - destruct (update_ball_rows r g0) as (_ & -> & ->). lia.
    - specialize (U eq_refl). subst g0.
      destruct (frame mod 2 =? 0).
      + pose proof (ai_control_rows a g) as AI. cbv zeta in AI.
        destruct (update_ball_rows r (ai_control a g)) as (_ & -> & ->). lia.
      + destruct (update_ball_rows r g) as (_ & -> & ->). lia. }
  split; [exact A|]. split; [exact B|].
  apply ticks_in_range. exact R.
Qed.

Lemma tick_moves_paddles_one_row_witness :
  let r := {| choice_dir := 1; uniform := 0 |} in
  let a := {| roll1 := 1; offset1 := 0; roll2 := 1; offset2 := 0 |} in
  let g := reset r in
  let g' := tick true p1_down_held a r 0 g in
  paddles_in_range g' /\
  Z.abs (p1_y g' - p1_y g) <= 1 /\ Z.abs (p2_y g' - p2_y g) <= 1 /\
  paddles_in_range (ticks true [(p1_down_held, a, r); (p1_down_held, a, r)] 0 g).
Proof.
  apply (tick_moves_paddles_one_row true
           [(p1_down_held, {| roll1 := 1; offset1 := 0; roll2 := 1; offset2 := 0 |},
             {| choice_dir := 1; uniform := 0 |});
            (p1_down_held, {| roll1 := 1; offset1 := 0; roll2 := 1; offset2 := 0 |},
             {| choice_dir := 1; uniform := 0 |})]
           p1_down_held
           {| roll1 := 1; offset1 := 0; roll2 := 1; offset2 := 0 |}
           {| choice_dir := 1; uniform := 0 |} 0
           (reset {| choice_dir := 1; uniform := 0 |})).
  unfold paddles_in_range. vm_compute. intuition discriminate.
Defined.

Lemma move_paddle_1 (d : Z) (g : PongGame) :
  0 <= p1_y g + d <= HEIGHT - paddle_height g ->
  move_paddle 1 d g = set_p1_y (p1_y g + d) g.
Proof.
  intros H. unfold move_paddle. cbn [Z.eqb Pos.eqb].
  apply range_test in H. rewrite H. reflexivity.
Qed.

Lemma move_paddle_2 (d : Z) (g : PongGame) :
  0 <= p2_y g + d <= HEIGHT - paddle_height g ->
  move_paddle 2 d g = set_p2_y (p2_y g + d) g.
Proof.
  intros H. unfold move_paddle. cbn [Z.eqb Pos.eqb].
  apply range_test in H. rewrite H. reflexivity.
Qed.

Lemma center_row_in_range (g : PongGame) :
  0 <= HEIGHT - paddle_height g -> 0 <= center_row g <= HEIGHT - paddle_height g.
Proof.
  intros H. unfold center_row.
  pose proof (Z.div_mod (HEIGHT - paddle_height g) 2 ltac:(lia)).
  pose proof (Z.mod_pos_bound (HEIGHT - paddle_height g) 2 ltac:(lia)). lia.
Qed.

(** X8. [ai_control] parks a paddle the ball is not coming to: with both
    paddles in range, paddle 1 takes one step toward the center row
    [(16 - paddle_height) // 2] (and stays once there) whenever the ball
    is not moving left, and paddle 2 does the same whenever the ball is
    not moving right; no random draw is involved. *)
Theorem ai_parks_idle_paddle (a : AiRandom) (g : PongGame) :
  paddles_in_range g ->
  (~ (ball_vx g < 0)%Q ->
     p1_y (ai_control a g) = p1_y g + Z.sgn (center_row g - p1_y g)) /\
  (~ (0 < ball_vx g)%Q ->
     p2_y (ai_control a g) = p2_y g + Z.sgn (center_row g - p2_y g)).
Proof.
  intros [R1 R2].
  pose proof (center_row_in_range g ltac:(lia)) as C.
  unfold ai_control.
  set (t1 := if Qltb (ball_vx g) 0 then _ else _).
  set (g1 := if Qltb (inject_Z (p1_y g)) t1 then _ else _).
  assert (paddles_aside g1 = paddles_aside g) as E1
    by (subst g1; split_ifs; rewrite ?move_paddle_aside; reflexivity).
  assert (ball_vx g1 = ball_vx g /\ paddle_height g1 = paddle_height g) as [V1 H1]
    by (destruct g, g1; unfold paddles_aside in E1; pong_fields;
        injection E1 as; subst; auto).
  assert (p2_y g1 = p2_y g) as P2
    by (subst g1; split_ifs;
        [pose proof (move_paddle_rows 1 1 g) | pose proof (move_paddle_rows 1 (-1) g) | ];
        cbv zeta in *; intuition lia).
  set (t2 := if Qltb 0 (ball_vx g1) then _ else _).
  split; intros V.
  - assert (p1_y g1 = p1_y g + Z.sgn (center_row g - p1_y g)) as G1.
    { subst g1 t1.
      assert (Qltb (ball_vx g) 0 = false) as ->
        by (apply not_true_is_false; rewrite Qltb_lt; exact V).
      fold (center_row g). rewrite !Qltb_inject_Z.
      destruct (p1_y g <? center_row g) eqn:A.
      - apply Z.ltb_lt in A. rewrite move_paddle_1 by lia. pong_fields. lia.
      - apply Z.ltb_ge in A. destruct (center_row g <? p1_y g) eqn:B.
        + apply Z.ltb_lt in B. rewrite move_paddle_1 by lia. pong_fields. lia.
        + apply Z.ltb_ge in B. lia. }
    rewrite <- G1.
    split_ifs;
      [pose proof (move_paddle_rows 2 1 g1) | pose proof (move_paddle_rows 2 (-1) g1) | ];
      cbv zeta in *; intuition lia.
  - subst t2. rewrite V1, H1.
    assert (Qltb 0 (ball_vx g) = false) as ->
      by (apply not_true_is_false; rewrite Qltb_lt; exact V).
    fold (center_row g). rewrite !Qltb_inject_Z, P2.
    assert (HEIGHT - paddle_height g1 = HEIGHT - paddle_height g) as HH by lia.
    destruct (p2_y g <? center_row g) eqn:A.
    + apply Z.ltb_lt in A. rewrite move_paddle_2 by lia. pong_fields. lia.
    + apply Z.ltb_ge in A. destruct (center_row g <? p2_y g) eqn:B.
      * apply Z.ltb_lt in B. rewrite move_paddle_2 by lia. pong_fields. lia.
      * apply Z.ltb_ge in B. lia.
Qed.

Lemma ai_parks_idle_paddle_witness :
  let a := {| roll1 := 1; offset1 := 0; roll2 := 1; offset2 := 0 |} in
  let g := set_p1_y 2 (reset {| choice_dir := 1; uniform := 0 |}) in
  (~ (ball_vx g < 0)%Q ->
     p1_y (ai_control a g) = p1_y g + Z.sgn (center_row g - p1_y g)) /\
  (~ (0 < ball_vx g)%Q ->
     p2_y (ai_control a g) = p2_y g + Z.sgn (center_row g - p2_y g)).
Proof.
  apply (ai_parks_idle_paddle {| roll1 := 1; offset1 := 0; roll2 := 1; offset2 := 0 |}
           (set_p1_y 2 (reset {| choice_dir := 1; uniform := 0 |}))).
  unfold paddles_in_range. vm_compute. intuition discriminate.
Defined.

End PaddleMore.

(** ** Properties of the frames the games draw *)

Section DrawMore.

Import Display.

Lemma shooter_set_pixel_bridge (x y : Z) (color : Color) (np : Buffer) :
  Invaders.set_pixel x y color np = Pong.set_pixel (inject_Z x) (inject_Z y) color np.
Proof. unfold Invaders.set_pixel, Pong.set_pixel. rewrite !py_int_inject_Z. reflexivity. Qed.

(** A run of writes that all miss the cell [(x, y)] leaves its slot alone. *)
Lemma writes_elsewhere {A : Type} (cell : A -> Z * Z) (color : A -> Color) (x y : Z)
  (l : list A) :
  in_grid x y -> Forall (fun i => cell i <> (x, y)) l ->
  forall np,
    PongMore.pixel x y
      (fold_left (fun np i => Pong.set_pixel (inject_Z (fst (cell i))) (inject_Z (snd (cell i)))
                                (color i) np) l np)
    = PongMore.pixel x y np.
Proof.
  intros G F. induction F as [|i rest Hi F IH]; intros np; cbn [fold_left]; [reflexivity|].
  rewrite IH. apply set_pixel_other; [exact G|].
  destruct (cell i). exact Hi.
Qed.

Lemma writes_keep_length {A : Type} (cell : A -> Q * Q) (color : A -> Color) (l : list A) :
  forall np,
    length (fold_left (fun np i => Pong.set_pixel (fst (cell i)) (snd (cell i)) (color i) np)
                      l np) = length np.
Proof.
  induction l as [|i rest IH]; intros np; cbn [fold_left]; [reflexivity|].
  rewrite IH. apply set_pixel_length.
Qed.

Lemma clear_length (np : Buffer) : length (clear np) = length np.
Proof. unfold clear. apply length_map. Qed.

Lemma draw_paddle_length (x y h : Z) (color : Color) (np : Buffer) :
  length (PongMore.draw_paddle x y h color np) = length np.
Proof.
  unfold PongMore.draw_paddle.
  apply (writes_keep_length (fun i => (inject_Z x, inject_Z (y + i))) (fun _ => color)).
Qed.

(** X9. [draw_game] keeps the buffer at its size, and on a buffer of 256
    slots it shows the ball: when the truncated ball position is a grid
    cell below row 0, the slot of that cell holds the scaled white
    (76, 76, 76) at the end of the frame (the score dots, drawn after the
    ball, are all on row 0). *)
Theorem draw_game_shows_ball (g : Pong.PongGame) (np : Buffer) :
  length np = 256%nat ->
  in_grid (py_int (Pong.ball_x g)) (py_int (Pong.ball_y g)) ->
  1 <= py_int (Pong.ball_y g) ->
  length (PongMore.draw_game g np) = 256%nat /\
  PongMore.pixel (py_int (Pong.ball_x g)) (py_int (Pong.ball_y g)) (PongMore.draw_game g np)
    = (76, 76, 76).
Proof.
  intros L G Row. unfold PongMore.draw_game.
  set (np1 := PongMore.draw_paddle _ _ _ RED _).
  set (np2 := if Pong.Qltb 0 (Pong.ball_vx g) then _ else _).
  set (np3 := PongMore.draw_ball _ _ WHITE np2).
  assert (length np1 = 256%nat) as L1.
  { subst np1. rewrite !draw_paddle_length. unfold PongMore.draw_center_line.
    rewrite (writes_keep_length (fun y => (inject_Z (WIDTH / 2), inject_Z y))
               (fun _ => (50, 50, 50))).
    rewrite clear_length. exact L. }
  assert (length np2 = 256%nat) as L2
    by (subst np2; destruct (Pong.Qltb 0 (Pong.ball_vx g)); rewrite set_pixel_length; exact L1).
  assert (length np3 = 256%nat) as L3
    by (subst np3; unfold PongMore.draw_ball; rewrite set_pixel_length; exact L2).
  split.
  - rewrite (writes_keep_length (fun i => (inject_Z (WIDTH - 3 - i), 0%Q))
               (fun _ => RED)).
    rewrite (writes_keep_length (fun i => (inject_Z (2 + i), 0%Q))
               (fun _ => PongMore.BLUE)).
    exact L3.
  - change 0%Q with (inject_Z 0).
    rewrite (writes_elsewhere (fun i => (WIDTH - 3 - i, 0)) (fun _ => RED));
      [|exact G | apply Forall_forall; intros i _ E; injection E as _ E; lia].
    rewrite (writes_elsewhere (fun i => (2 + i, 0)) (fun _ => PongMore.BLUE));
      [|exact G | apply Forall_forall; intros i _ E; injection E as _ E; lia].
    subst np3. unfold PongMore.draw_ball.
    rewrite set_pixel_same by assumption. reflexivity.
Qed.

Lemma draw_game_shows_ball_witness :
  let g := Pong.reset {| Pong.choice_dir := 1; Pong.uniform := 0 |} in
  length (PongMore.draw_game g blank) = 256%nat /\
  PongMore.pixel (py_int (Pong.ball_x g)) (py_int (Pong.ball_y g)) (PongMore.draw_game g blank)
    = (76, 76, 76).
Proof.
  apply (draw_game_shows_ball (Pong.reset {| Pong.choice_dir := 1; Pong.uniform := 0 |}) blank);
    [reflexivity | unfold in_grid; vm_compute; intuition discriminate | vm_compute; discriminate].
Defined.

End DrawMore.

(** ** Further properties of the formation shooter *)

Section ShooterMore.

Import Display Invaders InvadersMore.

Variable ticks_diff : Z -> Z -> Z.

(** X10. For every integer position, [wheel] returns three channels in
    [0,255] whose sum is 255. *)
Theorem wheel_is_a_full_color (pos : Z) :
  let '(r, g, b) := wheel pos in
  0 <= r <= 255 /\ 0 <= g <= 255 /\ 0 <= b <= 255 /\ r + g + b = 255.
Proof.
  unfold wheel. pose proof (Z.mod_pos_bound pos 256 ltac:(lia)) as B.
  destruct (pos mod 256 <? 85) eqn:E1; [apply Z.ltb_lt in E1; lia|].
  apply Z.ltb_ge in E1.
  destruct (pos mod 256 <? 170) eqn:E2; [apply Z.ltb_lt in E2; lia|].
  apply Z.ltb_ge in E2. lia.
Qed.

(** *** Hit detection *)

Lemma hit_alien_none (bx by_ : Z) (l : list Alien) :
  hit_alien bx by_ l = None <-> existsb (target bx by_) l = false.
Proof.
  induction l as [|a rest IH]; [cbn; tauto|].
  cbn [hit_alien existsb]. unfold target at 1.
  destruct (alien_alive a); cbn [negb andb].
  - destruct (near bx by_ (alien_x a) (alien_y a)); cbn [orb].
    + split; discriminate.
    + destruct (hit_alien bx by_ rest) as [[t l']|].
      * split; [discriminate | intros H; apply IH in H; discriminate H].
      * split; [intros _; apply IH; reflexivity | reflexivity].
  - destruct (hit_alien bx by_ rest) as [[t l']|].
    + split; [discriminate | intros H; apply IH in H; discriminate H].
    + split; [intros _; apply IH; reflexivity | reflexivity].
Qed.

Lemma hit_alien_some (bx by_ t : Z) (l l' : list Alien) :
  hit_alien bx by_ l = Some (t, l') ->
  exists l1 a l2,
    l = l1 ++ a :: l2 /\ existsb (target bx by_) l1 = false /\
    target bx by_ a = true /\ t = alien_type a /\
    l' = l1 ++ set_alien_alive false a :: l2.
Proof.
  revert t l'. induction l as [|a rest IH]; intros t l' H; [discriminate H|].
  cbn [hit_alien] in H.
  destruct (alien_alive a) eqn:A; cbn [negb] in H.
  - destruct (near bx by_ (alien_x a) (alien_y a)) eqn:N.
    + injection H as <- <-. exists [], a, rest.
      unfold target. rewrite A, N. repeat split.
    + destruct (hit_alien bx by_ rest) as [[t1 l1']|]; [|discriminate H].
      injection H as <- <-.
      destruct (IH t1 l1' eq_refl) as (l1 & b & l2 & -> & F & T & -> & ->).
      exists (a :: l1), b, l2. cbn [existsb]. unfold target at 1. rewrite A, N, F.
      repeat split; assumption.
  - destruct (hit_alien bx by_ rest) as [[t1 l1']|]; [|discriminate H].
    injection H as <- <-.
    destruct (IH t1 l1' eq_refl) as (l1 & b & l2 & -> & F & T & -> & ->).
    exists (a :: l1), b, l2. cbn [existsb]. unfold target at 1. rewrite A, F.
    repeat split; assumption.
Qed.

(** X11. The alien scan of one player bullet hits exactly the first
    alien of the roster that is alive and within one cell of the bullet
    on both axes: that alien is marked dead in place, its type is
    reported and the rest of the roster is untouched; the scan reports no
    hit exactly when no living alien is within one cell. *)
Theorem bullet_hits_first_target (bx by_ : Z) (l : list Alien) :
  match hit_alien bx by_ l with
  | None => existsb (target bx by_) l = false
  | Some (t, l') =>
      exists l1 a l2,
        l = l1 ++ a :: l2 /\ existsb (target bx by_) l1 = false /\
        target bx by_ a = true /\ t = alien_type a /\
        l' = l1 ++ set_alien_alive false a :: l2
  end.
Proof.
  destruct (hit_alien bx by_ l) as [[t l']|] eqn:H.
  - apply hit_alien_some. exact H.
  - apply hit_alien_none. exact H.
Qed.

(** *** Formation movement *)

Lemma hit_edge_spec (d : Z) (l : list Alien) :
  hit_edge d l = true <->
  exists a, In a l /\ alien_alive a = true /\
            ((alien_x a <= 1 /\ d = -1) \/ (14 <= alien_x a /\ d = 1)).
Proof.
  unfold hit_edge. rewrite existsb_exists.
  split; intros (a & I & H); exists a; (split; [exact I|]).
  - unfold at_edge in H. change (WIDTH - 2) with 14 in H.
    apply andb_true_iff in H. destruct H as [A H]. split; [exact A|].
    apply orb_true_iff in H. destruct H as [H | H];
      apply andb_true_iff in H; destruct H as [H1 H2]; apply Z.eqb_eq in H2.
    + left. apply Z.leb_le in H1. split; assumption.
    + right. rewrite Z.geb_leb in H1. apply Z.leb_le in H1. split; assumption.
  - destruct H as [A H]. unfold at_edge. change (WIDTH - 2) with 14. rewrite A. cbn [andb].
    apply orb_true_iff. destruct H as [[H1 H2] | [H1 H2]]; [left | right];
      apply andb_true_iff; (split; [|apply Z.eqb_eq; exact H2]).
    + apply Z.leb_le. exact H1.
    + rewrite Z.geb_leb. apply Z.leb_le. exact H1.
Qed.

Lemma drop_aliens_dropped (l : list Alien) : Forall2 dropped l (fst (drop_aliens l)).
Proof.
  assert (forall k, Forall2 dropped k k) as Refl
    by (induction k; constructor; [unfold dropped; repeat split; auto | assumption]).
  induction l as [|a rest IH]; [constructor|].
  cbn [drop_aliens]. destruct (alien_alive a) eqn:A.
  - destruct (alien_y (set_alien_y (alien_y a + 1) a) >=? HEIGHT - 2).
    + constructor; [unfold dropped; inv_fields; repeat split; auto | apply Refl].
    + destruct (drop_aliens rest) as [rest' over].
      constructor; [unfold dropped; inv_fields; repeat split; auto | exact IH].
  - destruct (drop_aliens rest) as [rest' over].
    constructor; [unfold dropped; repeat split; auto | exact IH].
Qed.

Lemma shift_aliens_shifted (d : Z) (l : list Alien) :
  Forall2 (shifted d) l (shift_aliens d l).
Proof.
  unfold shift_aliens. induction l as [|a rest IH]; cbn [map]; constructor; [|exact IH].
  unfold shifted. destruct (alien_alive a) eqn:A; inv_fields; rewrite ?A; repeat split; auto.
Qed.

(** X12. [move_aliens] does nothing until its timer has run out.  When
    it has, the formation reverses and drops iff some living alien is at
    the margin it travels to ([x <= 1] going left, [x >= 14] going right):
    then the direction is negated, no alien changes column, and every
    alien keeps its row or, when alive, goes down one row; otherwise
    the direction is kept, no alien changes row and exactly the living
    aliens move one column in the direction of travel.  Liveness and
    types are never changed. *)
Theorem formation_reverses_at_the_margin (t : Z) (g : Game) :
  (move_due ticks_diff t g = false -> move_aliens ticks_diff t g = g) /\
  (hit_edge (alien_direction g) (aliens g) = true <->
     exists a, In a (aliens g) /\ alien_alive a = true /\
               ((alien_x a <= 1 /\ alien_direction g = -1) \/
                (14 <= alien_x a /\ alien_direction g = 1))) /\
  (move_due ticks_diff t g = true -> hit_edge (alien_direction g) (aliens g) = true ->
     alien_direction (move_aliens ticks_diff t g) = - alien_direction g /\
     Forall2 dropped (aliens g) (aliens (move_aliens ticks_diff t g))) /\
  (move_due ticks_diff t g = true -> hit_edge (alien_direction g) (aliens g) = false ->
     alien_direction (move_aliens ticks_diff t g) = alien_direction g /\
     Forall2 (shifted (alien_direction g)) (aliens g) (aliens (move_aliens ticks_diff t g))).
Proof.
  unfold move_due, move_aliens.
  split; [|split; [apply hit_edge_spec|split]].
  - intros D. apply negb_false_iff in D. rewrite D. reflexivity.
  - intros D E. apply negb_true_iff in D. rewrite D. inv_fields. rewrite E.
    pose proof (drop_aliens_dropped (aliens g)) as F.
    destruct (drop_aliens (aliens g)) as [l over]. cbn [fst] in F.
    destruct over; inv_fields; (split; [lia | exact F]).
  - intros D E. apply negb_true_iff in D. rewrite D. inv_fields. rewrite E.
    inv_fields. split; [reflexivity | apply shift_aliens_shifted].
Qed.

(** *** What the player-side operations leave alone *)

Lemma formation_kept_refl (g : Game) : formation_kept g g.
Proof. repeat split. Qed.

Lemma formation_kept_trans (g h k : Game) :
  formation_kept g h -> formation_kept h k -> formation_kept g k.
Proof. unfold formation_kept. intuition congruence. Qed.

Lemma move_player_kept (d : Z) (g : Game) : formation_kept g (move_player d g).
Proof. unfold move_player. split_ifs; repeat split. Qed.

Lemma fire_player_kept (g : Game) : formation_kept g (fire_player g).
Proof. unfold fire_player. split_ifs; repeat split. Qed.

Lemma move_bullets_kept (g : Game) : formation_kept g (move_bullets g).
Proof. repeat split. Qed.

Lemma alien_shoot_kept (t : Z) (rnd : nat) (g : Game) :
  formation_kept g (alien_shoot ticks_diff t rnd g).
Proof.
  unfold alien_shoot.
  destruct (ticks_diff t (last_alien_shot g) <? _); [repeat split|]. inv_fields.
  destruct (filter alien_alive (aliens g)); [repeat split|].
  destruct (random_choice rnd _); [|repeat split].
  split_ifs; repeat split.
Qed.

Lemma auto_play_kept (g : Game) : formation_kept g (auto_play g).
Proof.
  unfold auto_play.
  destruct (fold_left _ _ _) as [target_x min_dist].
  set (tg := match find _ _ with Some _ => _ | None => _ end).
  set (g1 := if player_x g <? tg then _ else _).
  assert (formation_kept g g1) as U1
    by (subst g1; split_ifs; auto using move_player_kept, formation_kept_refl).
  set (g2 := set_auto_fire_cooldown _ g1).
  assert (formation_kept g g2) as U2 by exact U1.
  split_ifs; try exact U2.
  apply formation_kept_trans with g2; [exact U2|].
  apply (formation_kept_trans _ (fire_player g2)); [apply fire_player_kept | repeat split].
Qed.

Lemma check_buttons_kept (en : bool) (b : Buttons) (g : Game) :
  formation_kept g (fst (check_buttons en b g)).
Proof.
  unfold check_buttons. destruct en; simpl; [|apply formation_kept_refl].
  set (g1 := if btn_left b =? 0 then move_player (-1) g else g).
  assert (formation_kept g g1) as U1
    by (subst g1; split_ifs; auto using move_player_kept, formation_kept_refl).
  set (g2 := if btn_right b =? 0 then move_player 1 g1 else g1).
  assert (formation_kept g g2) as U2
    by (subst g2; split_ifs; eauto using move_player_kept, formation_kept_trans).
  destruct (btn_left b =? 0), (btn_right b =? 0), (btn_fire b =? 0); simpl;
    subst g2 g1; eauto using fire_player_kept, formation_kept_trans.
Qed.

Lemma handle_input_kept (en : bool) (b : Buttons) (g : Game) :
  formation_kept g (handle_input en b g).
Proof.
  unfold handle_input.
  pose proof (check_buttons_kept en b g) as U.
  destruct (check_buttons en b g) as [g1 pressed]. simpl in U.
  destruct pressed; simpl; [exact U|].
  eauto using auto_play_kept, formation_kept_trans.
Qed.

Lemma before_move_aliens_kept (en : bool) (i : Inputs) (g : Game) :
  formation_kept g (before_move_aliens en i g).
Proof.
  unfold before_move_aliens.
  eauto using handle_input_kept, move_bullets_kept, formation_kept_trans.
Qed.

(** *** What a collision check does to the roster and the score *)

Lemma shot_refl (l : list Alien) : Forall2 shot l l.
Proof. induction l; constructor; [left; reflexivity | assumption]. Qed.

Lemma shot_trans (l1 l2 l3 : list Alien) :
  Forall2 shot l1 l2 -> Forall2 shot l2 l3 -> Forall2 shot l1 l3.
Proof.
  intros H. revert l3. induction H as [|a b l1 l2 Hab H IH]; intros l3 H3.
  - inversion H3. constructor.
  - inversion H3 as [|b' c l2' l3' Hbc H3']; subst. constructor; [|apply IH; exact H3'].
    unfold shot in *. destruct Hab as [-> | [A ->]]; [exact Hbc|].
    destruct Hbc as [-> | [B _]]; [right; auto | discriminate B].
Qed.

Lemma points_between_refl (l : list Alien) : points_between l l = 0.
Proof.
  induction l as [|a rest IH]; [reflexivity|]. cbn [points_between].
  rewrite IH. destruct (alien_alive a); reflexivity.
Qed.

Lemma points_between_trans (l1 l2 l3 : list Alien) :
  Forall2 shot l1 l2 -> Forall2 shot l2 l3 ->
  points_between l1 l3 = points_between l1 l2 + points_between l2 l3.
Proof.
  intros H. revert l3. induction H as [|a b l1 l2 Hab H IH]; intros l3 H3.
  - inversion H3. reflexivity.
  - inversion H3 as [|b' c l2' l3' Hbc H3']; subst. cbn [points_between].
    rewrite (IH _ H3').
    destruct Hab as [-> | [A ->]]; destruct Hbc as [-> | [B ->]]; inv_fields;
      try discriminate B; rewrite ?A, ?B;
      repeat match goal with
             | |- context [alien_alive ?x] => destruct (alien_alive x)
             end; cbn [andb negb]; lia.
Qed.

Lemma hit_alien_shot (bx by_ t : Z) (l l' : list Alien) :
  hit_alien bx by_ l = Some (t, l') ->
  Forall2 shot l l' /\ points_between l l' = 10 * (t + 1) /\
  alive_count l = alive_count l' + 1.
Proof.
  intros H. destruct (hit_alien_some _ _ _ _ _ H) as (l1 & a & l2 & -> & _ & T & -> & ->).
  unfold target in T. apply andb_true_iff in T. destruct T as [A _].
  split; [|split].
  - clear H. induction l1 as [|b rest IH]; cbn [app].
    + constructor; [right; auto | apply shot_refl].
    + constructor; [left; reflexivity | exact IH].
  - clear H. induction l1 as [|b rest IH]; cbn [app points_between].
    + inv_fields. rewrite A, points_between_refl. cbn [andb negb]. lia.
    + rewrite IH. destruct (alien_alive b); cbn [andb negb]; lia.
  - unfold alive_count. rewrite !filter_app, !length_app. cbn [filter]. inv_fields.
    rewrite A. cbn [length]. lia.
Qed.

Lemma remove_first_length (v : Bullet) (l : list Bullet) :
  (length (remove_first v l) <= length l)%nat.
Proof.
  induction l as [|b rest IH]; cbn [remove_first length]; [lia|].
  destruct (Bullet_eqb b v); cbn [length]; lia.
Qed.

(** What one step of the player-bullet loop does. *)
Lemma bullet_hits_account (g : Game) (b : Bullet) :
  let g' := bullet_hits g b in
  Forall2 shot (aliens g) (aliens g') /\
  score g' = score g + points_between (aliens g) (aliens g') /\
  (alive_count (aliens g') = alive_count (aliens g) \/
   alive_count (aliens g) = alive_count (aliens g') + 1) /\
  (length (player_bullets g') <= length (player_bullets g))%nat /\
  alien_direction g' = alien_direction g.
Proof.
  unfold bullet_hits. destruct b as [bx by_].
  destruct (hit_alien bx by_ (aliens g)) as [[t l]|] eqn:H.
  - destruct (hit_alien_shot _ _ _ _ _ H) as (F & P & C).
    cbv zeta.
    assert (forall h : Game,
               aliens h = l -> score h = score g + 10 * (t + 1) ->
               (length (player_bullets h) <= length (player_bullets g))%nat ->
               alien_direction h = alien_direction g ->
               Forall2 shot (aliens g) (aliens h) /\
               score h = score g + points_between (aliens g) (aliens h) /\
               (alive_count (aliens h) = alive_count (aliens g) \/
                alive_count (aliens g) = alive_count (aliens h) + 1) /\
               (length (player_bullets h) <= length (player_bullets g))%nat /\
               alien_direction h = alien_direction g) as K.
    { intros h -> S L D. rewrite P. auto 6. }
    pose proof (remove_first_length (bx, by_) (player_bullets g)) as RL.
    destruct (existsb (Bullet_eqb (bx, by_)) (player_bullets (set_aliens l g)));
      inv_fields;
      match goal with
      | |- context [if ?c then _ else _] => destruct c
      end; apply K; inv_fields; auto.
  - cbv zeta. rewrite points_between_refl.
    split; [apply shot_refl|]. split; [lia|]. auto.
Qed.

Lemma bullet_loop_account (bullets : list Bullet) :
  forall g,
    let g' := fold_left bullet_hits bullets g in
    Forall2 shot (aliens g) (aliens g') /\
    score g' = score g + points_between (aliens g) (aliens g') /\
    alive_count (aliens g') <= alive_count (aliens g)
      <= alive_count (aliens g') + Z.of_nat (length bullets) /\
    (length (player_bullets g') <= length (player_bullets g))%nat /\
    alien_direction g' = alien_direction g.
Proof.
  induction bullets as [|b rest IH]; intros g; cbn [fold_left length]; cbv zeta.
  - rewrite points_between_refl. split; [apply shot_refl|]. repeat split; lia.
  - destruct (bullet_hits_account g b) as (F1 & S1 & C1 & L1 & D1).
    destruct (IH (bullet_hits g b)) as (F2 & S2 & C2 & L2 & D2).
    split; [eapply shot_trans; eassumption|].
    split; [rewrite (points_between_trans _ _ _ F1 F2); lia|].
    split; [lia|]. split; [lia | congruence].
Qed.

Lemma check_collisions_fields (g : Game) :
  let k := fold_left bullet_hits (player_bullets g) g in
  aliens (check_collisions g) = aliens k /\ score (check_collisions g) = score k /\
  player_bullets (check_collisions g) = player_bullets k /\
  alien_bullets (check_collisions g) = alien_bullets k /\
  alien_direction (check_collisions g) = alien_direction k /\
  alien_speed (check_collisions g) = alien_speed k /\
  player_x (check_collisions g) = player_x k /\
  player_y (check_collisions g) = player_y k /\
  level (check_collisions g) = level k.
Proof.
  unfold check_collisions. cbv zeta. split_ifs; repeat split; reflexivity.
Qed.

(** X13. In one [check_collisions] every alien is left as it was or
    goes from alive to dead in place, the score grows by exactly
    [10 * (type + 1)] for each alien that died, at most one alien dies
    per player bullet, and the list of player bullets never grows. *)
Theorem collision_check_accounts_for_kills (g : Game) :
  let g' := check_collisions g in
  Forall2 shot (aliens g) (aliens g') /\
  score g' = score g + points_between (aliens g) (aliens g') /\
  alive_count (aliens g') <= alive_count (aliens g)
    <= alive_count (aliens g') + Z.of_nat (length (player_bullets g)) /\
  (length (player_bullets g') <= length (player_bullets g))%nat.
Proof.
  cbv zeta. destruct (check_collisions_fields g) as (-> & -> & -> & _).
  destruct (bullet_loop_account (player_bullets g) g) as (F & S & C & L & _).
  auto.
Qed.

(** *** Input handling, bullets in flight *)

Lemma move_player_effect (d : Z) (g : Game) :
  let h := move_player d g in
  player_bullets h = player_bullets g /\ alien_bullets h = alien_bullets g /\
  player_y h = player_y g /\
  (player_x h = player_x g \/ (player_x h = player_x g + d /\ 1 <= player_x h <= 14)).
Proof.
  unfold move_player. change (WIDTH - 2) with 14.
  destruct ((1 <=? player_x g + d) && (player_x g + d <=? 14)) eqn:E; cbv zeta; inv_fields.
  - apply andb_true_iff in E. destruct E as [Ea Eb]. apply Z.leb_le in Ea, Eb.
    repeat split. right. lia.
  - auto.
Qed.

Lemma fire_player_effect (g : Game) :
  let h := fire_player g in
  player_x h = player_x g /\ player_y h = player_y g /\
  alien_bullets h = alien_bullets g /\
  (player_bullets h = player_bullets g \/
   ((length (player_bullets g) < 3)%nat /\
    player_bullets h = player_bullets g ++ [(player_x g, player_y g - 2)])).
Proof.
  unfold fire_player.
  destruct (Z.of_nat (length (player_bullets g)) <? 3) eqn:E; cbv zeta; inv_fields.
  - apply Z.ltb_lt in E. repeat split. right. split; [lia | reflexivity].
  - auto.
Qed.

Lemma check_buttons_effect (en : bool) (b : Buttons) (g : Game) :
  input_effect g (fst (check_buttons en b g)).
Proof.
  unfold check_buttons. destruct en; cbn [negb].
  2: { cbn [fst]. unfold input_effect. repeat split; auto; lia. }
  set (g1 := if btn_left b =? 0 then move_player (-1) g else g).
  set (g2 := if btn_right b =? 0 then move_player 1 g1 else g1).
  set (g3 := if btn_fire b =? 0 then fire_player g2 else g2).
  assert (fst (let '(h, p) := if btn_left b =? 0 then (move_player (-1) g, true) else (g, false) in
               let '(h, p) := if btn_right b =? 0 then (move_player 1 h, true) else (h, p) in
               let '(h, p) := if btn_fire b =? 0 then (fire_player h, true) else (h, p) in
               (h, p)) = g3) as ->
    by (subst g3 g2 g1;
        destruct (btn_left b =? 0), (btn_right b =? 0), (btn_fire b =? 0); reflexivity).
  assert (player_bullets g1 = player_bullets g /\ alien_bullets g1 = alien_bullets g /\
          player_y g1 = player_y g /\
          (player_x g1 = player_x g \/ (player_x g1 = player_x g + -1 /\ 1 <= player_x g1 <= 14)))
    as (B1 & A1 & Y1 & X1)
    by (subst g1; destruct (btn_left b =? 0); [apply move_player_effect | auto]).
  assert (player_bullets g2 = player_bullets g1 /\ alien_bullets g2 = alien_bullets g1 /\
          player_y g2 = player_y g1 /\
          (player_x g2 = player_x g1 \/ (player_x g2 = player_x g1 + 1 /\ 1 <= player_x g2 <= 14)))
    as (B2 & A2 & Y2 & X2)
    by (subst g2; destruct (btn_right b =? 0); [apply move_player_effect | auto]).
  assert (player_x g3 = player_x g2 /\ player_y g3 = player_y g2 /\
          alien_bullets g3 = alien_bullets g2 /\
          (player_bullets g3 = player_bullets g2 \/
           ((length (player_bullets g2) < 3)%nat /\
            player_bullets g3 = player_bullets g2 ++ [(player_x g2, player_y g2 - 2)])))
    as (X3 & Y3 & A3 & B3)
    by (subst g3; destruct (btn_fire b =? 0); [apply fire_player_effect | auto]).
  clearbody g1 g2 g3. unfold input_effect.
  rewrite X3, Y3, A3, Y2, A2, Y1, A1.
  split; [reflexivity|]. split; [reflexivity|]. split; [lia|]. split; [lia|].
  rewrite B2, B1 in B3. rewrite Y2, Y1 in B3. exact B3.
Qed.

Lemma auto_play_effect (g : Game) : input_effect g (auto_play g).
Proof.
  unfold auto_play.
  destruct (fold_left _ _ _) as [target_x min_dist].
  set (tg := match find _ _ with Some _ => _ | None => _ end).
  set (g1 := if player_x g <? tg then _ else _).
  assert (player_bullets g1 = player_bullets g /\ alien_bullets g1 = alien_bullets g /\
          player_y g1 = player_y g /\
          (player_x g1 = player_x g \/
           (Z.abs (player_x g1 - player_x g) <= 1 /\ 1 <= player_x g1 <= 14)))
    as (B1 & A1 & Y1 & X1).
  { subst g1. destruct (player_x g <? tg).
    - destruct (move_player_effect 1 g) as (? & ? & ? & [? | ?]); repeat split; auto.
      right. lia.
    - destruct (player_x g >? tg); [|auto].
      destruct (move_player_effect (-1) g) as (? & ? & ? & [? | ?]); repeat split; auto.
      right. lia. }
  set (g2 := set_auto_fire_cooldown _ g1).
  assert (input_effect g g2) as E2.
  { unfold input_effect. subst g2. inv_fields. rewrite A1, Y1, B1.
    split; [reflexivity|]. split; [reflexivity|]. split; [lia|]. split; [lia|]. auto. }
  destruct (auto_fire_cooldown g2 <=? 0); [|exact E2].
  destruct (existsb _ _); [|exact E2].
  destruct (fire_player_effect g2) as (X3 & Y3 & A3 & B3). cbv zeta in *.
  unfold input_effect in *. inv_fields.
  destruct E2 as (A2 & Y2 & X2 & R2 & _).
  change (player_bullets g2) with (player_bullets g1) in B3.
  change (player_x g2) with (player_x g1) in *.
  change (player_y g2) with (player_y g1) in *.
  change (alien_bullets g2) with (alien_bullets g1) in *.
  rewrite X3, Y3, A3. rewrite B1, Y1 in B3.
  split; [exact A2|]. split; [exact Y2|]. split; [exact X2|]. split; [exact R2|].
  exact B3.
Qed.

Lemma handle_input_effect (en : bool) (b : Buttons) (g : Game) :
  input_effect g (handle_input en b g).
Proof.
  unfold handle_input.
  pose proof (check_buttons_effect en b g) as E.
  pose proof (shooter_check_buttons_calls en b g) as C.
  destruct (check_buttons en b g) as [g1 pressed]. cbn [fst] in E.
  destruct pressed; cbn [negb]; [exact E|].
  (* nothing was pressed: the buttons left the game as it was *)
  injection C as C1 C2.
  destruct (Invaders.emitted en b); [|discriminate C2].
  cbn [fold_left] in C1. subst g1. apply auto_play_effect.
Qed.

(** X14. The input stretch of an iteration (buttons, or [auto_play]
    when no button is pressed) moves the player by at most one column,
    keeps a player of columns 1..14 inside them, leaves the player row and
    the alien bullets alone, and adds at most one player bullet: only
    when fewer than 3 are in flight, at the end of the list, on the column
    the player has just reached, two rows above the player. *)
Theorem input_moves_one_column_and_fires_once (en : bool) (b : Buttons) (g : Game) :
  let h := handle_input en b g in
  alien_bullets h = alien_bullets g /\ player_y h = player_y g /\
  Z.abs (player_x h - player_x g) <= 1 /\
  (1 <= player_x g <= 14 -> 1 <= player_x h <= 14) /\
  (player_bullets h = player_bullets g \/
   ((length (player_bullets g) < 3)%nat /\
    player_bullets h = player_bullets g ++ [(player_x h, player_y g - 2)])).
Proof. exact (handle_input_effect en b g). Qed.

(** *** Alien fire *)

Lemma dict_get_none (c : Z) (d : list (Z * Alien)) :
  dict_get c d = None <-> ~ In c (map fst d).
Proof.
  induction d as [|[k a] rest IH]; cbn [dict_get map fst In]; [tauto|].
  destruct (Z.eqb_spec k c).
  - split; [discriminate | intros N; exfalso; apply N; left; exact e].
  - rewrite IH. tauto.
Qed.

Lemma dict_get_some (c : Z) (v : Alien) (d : list (Z * Alien)) :
  dict_get c d = Some v -> In (c, v) d.
Proof.
  induction d as [|[k a] rest IH]; cbn [dict_get In]; [discriminate|].
  destruct (Z.eqb_spec k c).
  - intros H. injection H as <-. left. congruence.
  - intros H. right. apply IH. exact H.
Qed.

Lemma dict_set_keys (c : Z) (v : Alien) (d : list (Z * Alien)) :
  map fst (dict_set c v d) =
  match dict_get c d with
  | Some _ => map fst d
  | None => map fst d ++ [c]
  end.
Proof.
  induction d as [|[k a] rest IH]; cbn [dict_set dict_get map fst app]; [reflexivity|].
  destruct (Z.eqb_spec k c); [reflexivity|].
  cbn [map fst]. rewrite IH. destruct (dict_get c rest); reflexivity.
Qed.

Lemma dict_set_in (c k : Z) (v a : Alien) (d : list (Z * Alien)) :
  NoDup (map fst d) ->
  In (k, a) (dict_set c v d) -> (k = c /\ a = v) \/ (k <> c /\ In (k, a) d).
Proof.
  induction d as [|[k0 a0] rest IH]; cbn [dict_set map fst]; intros N H.
  - destruct H as [H | []]. left. split; congruence.
  - inversion N as [|? ? N1 N2]; subst.
    destruct (Z.eqb_spec k0 c).
    + destruct H as [H | H]; [left; split; congruence|].
      right. split; [|right; exact H].
      intros ->. apply N1. subst k0. apply (in_map fst _ _ H).
    + destruct H as [H | H].
      * right. split; [congruence | left; exact H].
      * destruct (IH N2 H) as [? | [? ?]]; [left; assumption | right; split; [assumption|]].
        right. assumption.
Qed.

Lemma bottom_insert_ok (p : list Alien) (d : list (Z * Alien)) (a : Alien) :
  bottom_ok p d -> bottom_ok (p ++ [a]) (bottom_insert d a).
Proof.
  intros (N & S & C). unfold bottom_insert.
  assert (forall x, In x (p ++ [a]) <-> In x p \/ x = a) as Ia
    by (intros x; rewrite in_app_iff; cbn [In]; intuition congruence).
  destruct (dict_get (alien_x a) d) as [b0|] eqn:G.
  - pose proof (dict_get_some _ _ _ G) as I0.
    destruct (S _ _ I0) as (K0 & P0 & M0).
    destruct (alien_y a >? alien_y b0) eqn:Y.
    + apply Z.gtb_lt in Y.
      split; [rewrite dict_set_keys, G; exact N|]. split.
      * intros k v I. apply (dict_set_in _ _ _ _ _ N) in I.
        destruct I as [[-> ->] | [Nk I]].
        -- split; [reflexivity|]. split; [apply Ia; right; reflexivity|].
           intros b Ib Xb. apply Ia in Ib. destruct Ib as [Ib | ->]; [|lia].
           specialize (M0 b Ib Xb). lia.
        -- destruct (S _ _ I) as (K & P & M).
           split; [exact K|]. split; [apply Ia; left; exact P|].
           intros b Ib Xb. apply Ia in Ib. destruct Ib as [Ib | ->]; [auto | congruence].
      * intros b Ib. rewrite dict_set_keys, G. apply Ia in Ib.
        destruct Ib as [Ib | ->]; [apply C; exact Ib|].
        apply (in_map fst _ _ I0).
    + rewrite Z.gtb_ltb in Y. apply Z.ltb_ge in Y.
      split; [exact N|]. split.
      * intros k v I. destruct (S _ _ I) as (K & P & M).
        split; [exact K|]. split; [apply Ia; left; exact P|].
        intros b Ib Xb. apply Ia in Ib. destruct Ib as [Ib | ->]; [auto|].
        assert (v = b0) as ->.
        { subst k. rewrite <- Xb in I.
          clear -N I I0. induction d as [|[k1 a1] rest IH]; [destruct I|].
          cbn [map fst] in N. inversion N as [|? ? N1 N2]; subst.
          destruct I as [I | I], I0 as [J | J].
          - congruence.
          - exfalso. apply N1. injection I as -> _. apply (in_map fst _ _ J).
          - exfalso. apply N1. injection J as -> _. apply (in_map fst _ _ I).
          - apply IH; assumption. }
        exact Y.
      * intros b Ib. apply Ia in Ib.
        destruct Ib as [Ib | ->]; [apply C; exact Ib | apply (in_map fst _ _ I0)].
  - apply dict_get_none in G.
    split; [|split].
    + rewrite dict_set_keys.
      destruct (dict_get (alien_x a) d) eqn:G'; [exact N|].
      apply NoDup_app; [exact N | repeat constructor; intros [] | ].
      intros x Ix [<- | []]. exact (G Ix).
    + intros k v I. apply (dict_set_in _ _ _ _ _ N) in I.
      destruct I as [[-> ->] | [Nk I]].
      * split; [reflexivity|]. split; [apply Ia; right; reflexivity|].
        intros b Ib Xb. apply Ia in Ib. destruct Ib as [Ib | ->]; [|lia].
        exfalso. apply G. rewrite <- Xb. apply C. exact Ib.
      * destruct (S _ _ I) as (K & P & M).
        split; [exact K|]. split; [apply Ia; left; exact P|].
        intros b Ib Xb. apply Ia in Ib. destruct Ib as [Ib | ->]; [auto | congruence].
    + intros b Ib. rewrite dict_set_keys. apply Ia in Ib.
      destruct (dict_get (alien_x a) d) eqn:G'.
      * destruct Ib as [Ib | ->]; [apply C; exact Ib|].
        exfalso. apply dict_get_some in G'. apply G. apply (in_map fst _ _ G').
      * apply in_app_iff. destruct Ib as [Ib | ->]; [left; apply C; exact Ib|].
        right. left. reflexivity.
Qed.

Lemma bottom_fold_ok (l : list Alien) :
  forall p d, bottom_ok p d -> bottom_ok (p ++ l) (fold_left bottom_insert l d).
Proof.
  induction l as [|a rest IH]; intros p d H; cbn [fold_left].
  - rewrite app_nil_r. exact H.
  - replace (p ++ a :: rest) with ((p ++ [a]) ++ rest)
      by (rewrite <- app_assoc; reflexivity).
    apply IH. apply bottom_insert_ok. exact H.
Qed.

Lemma bottom_aliens_ok (l : list Alien) : bottom_ok l (fold_left bottom_insert l []).
Proof.
  apply (bottom_fold_ok l [] []).
  split; [constructor|]. split; [intros k a []|intros b []].
Qed.

Lemma random_choice_in {A : Type} (rnd : nat) (l : list A) (v : A) :
  random_choice rnd l = Some v -> In v l.
Proof. unfold random_choice. apply nth_error_In. Qed.

Lemma random_choice_some {A : Type} (rnd : nat) (l : list A) :
  l <> [] -> exists v, random_choice rnd l = Some v.
Proof.
  intros N. unfold random_choice.
  destruct (nth_error l (rnd mod length l)) as [v|] eqn:E; [exists v; reflexivity|].
  apply nth_error_None in E. destruct l as [|x rest]; [congruence|].
  pose proof (Nat.mod_upper_bound rnd (length (x :: rest)) ltac:(discriminate)). lia.
Qed.

Lemma alien_shoot_effect (t : Z) (rnd : nat) (g : Game) :
  let g' := alien_shoot ticks_diff t rnd g in
  player_bullets g' = player_bullets g /\ aliens g' = aliens g /\
  player_x g' = player_x g /\
  (alien_bullets g' = alien_bullets g \/
   exists shooter,
     In shooter (aliens g) /\ alien_alive shooter = true /\
     (forall b, In b (aliens g) -> alien_alive b = true ->
                alien_x b = alien_x shooter -> alien_y b <= alien_y shooter) /\
     shoot_due ticks_diff t g = true /\ (length (alien_bullets g) < 5)%nat /\
     alien_bullets g' = alien_bullets g ++ [(alien_x shooter, alien_y shooter + 1)]) /\
  (shoot_due ticks_diff t g = true -> 0 < alive_count (aliens g) ->
   (length (alien_bullets g) < 5)%nat ->
   length (alien_bullets g') = S (length (alien_bullets g))).
Proof.
  cbv zeta. unfold alien_shoot, shoot_due.
  destruct (ticks_diff t (last_alien_shot g) <? Z.max 500 (1500 - level g * 100)) eqn:D.
  { cbn [negb]. repeat split; auto; discriminate. }
  cbn [negb]. inv_fields.
  pose proof (bottom_aliens_ok (filter alien_alive (aliens g))) as (N & S & C).
  unfold alive_count.
  destruct (filter alien_alive (aliens g)) as [|a0 rest] eqn:F.
  { inv_fields. repeat split; auto. cbn [length]. lia. }
  set (bottom := fold_left bottom_insert (a0 :: rest) []) in *.
  assert (map snd bottom <> []) as NE.
  { specialize (C a0 (or_introl eq_refl)). intros E.
    destruct bottom; [destruct C | discriminate E]. }
  destruct (random_choice_some rnd _ NE) as (shooter & R). rewrite R.
  apply random_choice_in in R. apply in_map_iff in R.
  destruct R as ([k s] & Es & Is). cbn [snd] in Es. subst s.
  destruct (S _ _ Is) as (K & P & M).
  rewrite <- F in P. apply filter_In in P. destruct P as [P A].
  destruct (Z.of_nat (length (alien_bullets g)) <? 5) eqn:L; inv_fields.
  - apply Z.ltb_lt in L. repeat split; auto.
    + right. exists shooter. split; [exact P|]. split; [exact A|].
      split; [|split; [reflexivity|split; [lia | reflexivity]]].
      intros b Ib Ab Xb. apply M; [|congruence].
      rewrite <- F. apply filter_In. split; assumption.
    + intros _ _ _. rewrite length_app. cbn [length]. lia.
  - apply Z.ltb_ge in L. repeat split; auto. intros _ _ L'. lia.
Qed.

(** X15. [alien_shoot] leaves everything but the alien bullets and its
    timer alone.  It adds at most one alien bullet, only when its timer
    has run out and fewer than 5 are in flight, at the end of the list,
    one row below a living alien that no living alien of the same column
    is below; and when the timer has run out, a living alien exists and
    fewer than 5 alien bullets are in flight, it does add one. *)
Theorem aliens_fire_from_the_front (t : Z) (rnd : nat) (g : Game) :
  let g' := alien_shoot ticks_diff t rnd g in
  player_bullets g' = player_bullets g /\ aliens g' = aliens g /\
  player_x g' = player_x g /\
  (alien_bullets g' = alien_bullets g \/
   exists shooter,
     In shooter (aliens g) /\ alien_alive shooter = true /\
     (forall b, In b (aliens g) -> alien_alive b = true ->
                alien_x b = alien_x shooter -> alien_y b <= alien_y shooter) /\
     shoot_due ticks_diff t g = true /\ (length (alien_bullets g) < 5)%nat /\
     alien_bullets g' = alien_bullets g ++ [(alien_x shooter, alien_y shooter + 1)]) /\
  (shoot_due ticks_diff t g = true -> 0 < alive_count (aliens g) ->
   (length (alien_bullets g) < 5)%nat ->
   length (alien_bullets g') = S (length (alien_bullets g))).
Proof. exact (alien_shoot_effect t rnd g). Qed.

(** *** Bullets in flight over whole iterations *)

Lemma move_aliens_player (t : Z) (g : Game) :
  player_bullets (move_aliens ticks_diff t g) = player_bullets g /\
  alien_bullets (move_aliens ticks_diff t g) = alien_bullets g /\
  player_x (move_aliens ticks_diff t g) = player_x g /\
  player_y (move_aliens ticks_diff t g) = player_y g.
Proof.
  unfold move_aliens.
  destruct (ticks_diff t (last_alien_move g) <? alien_speed g); [auto|]. inv_fields.
  destruct (hit_edge (alien_direction g) (aliens g)); [|auto].
  destruct (drop_aliens (aliens g)) as [l over]. destruct over; auto.
Qed.

Lemma alien_shoot_player (t : Z) (rnd : nat) (g : Game) :
  player_y (alien_shoot ticks_diff t rnd g) = player_y g.
Proof. apply alien_shoot_kept. Qed.

Lemma move_bullets_player (g : Game) :
  player_x (move_bullets g) = player_x g /\ player_y (move_bullets g) = player_y g.
Proof. split; reflexivity. Qed.

Lemma flat_map_short {A B : Type} (f : A -> list B) (l : list A) :
  (forall x, length (f x) <= 1)%nat -> (length (flat_map f l) <= length l)%nat.
Proof.
  intros H. induction l as [|a rest IH]; cbn [flat_map length]; [lia|].
  rewrite length_app. specialize (H a). lia.
Qed.

Lemma move_bullets_lengths (g : Game) :
  (length (player_bullets (move_bullets g)) <= length (player_bullets g))%nat /\
  (length (alien_bullets (move_bullets g)) <= length (alien_bullets g))%nat.
Proof.
  unfold move_bullets. inv_fields. split; apply flat_map_short; intros [bx by_];
    cbv beta iota zeta.
  - destruct (by_ - 1 >=? 0); cbn [length]; lia.
  - destruct (by_ + 1 <? HEIGHT); cbn [length]; lia.
Qed.

(** The player bullets after [move_bullets]: the old ones one row up,
    without those that left the top. *)
Lemma move_bullets_up (P : Bullet -> Prop) (g : Game) :
  Forall (fun b => 0 <= snd b - 1 -> P (fst b, snd b - 1)) (player_bullets g) ->
  Forall P (player_bullets (move_bullets g)).
Proof.
  unfold move_bullets. inv_fields.
  induction (player_bullets g) as [|[bx by_] rest IH]; intros F; cbn [flat_map].
  - constructor.
  - inversion F as [|? ? F1 F2]; subst. cbn [fst snd] in F1.
    cbv beta iota zeta.
    destruct (by_ - 1 >=? 0) eqn:E; cbn [app]; [|apply IH; exact F2].
    rewrite Z.geb_leb in E. apply Z.leb_le in E.
    constructor; [apply F1; exact E | apply IH; exact F2].
Qed.

Lemma move_bullets_sorted (g : Game) :
  StronglySorted above (player_bullets g) ->
  StronglySorted above (player_bullets (move_bullets g)).
Proof.
  intros S.
  assert (forall l, StronglySorted above l ->
            StronglySorted above
              (flat_map (fun '(bx, by_) =>
                           let by_ := by_ - 1 in if by_ >=? 0 then [(bx, by_)] else []) l) /\
            forall b, Forall (above b) l ->
              Forall (above (fst b, snd b - 1))
                (flat_map (fun '(bx, by_) =>
                             let by_ := by_ - 1 in if by_ >=? 0 then [(bx, by_)] else []) l))
    as K.
  { induction l as [|[bx by_] rest IH]; intros H; cbn [flat_map].
    - split; [constructor | intros; constructor].
    - inversion H as [|? ? H1 H2]; subst. destruct (IH H1) as [IH1 IH2].
      cbv beta iota zeta. destruct (by_ - 1 >=? 0); cbn [app].
      + split.
        * constructor; [exact IH1 | apply (IH2 (bx, by_)); exact H2].
        * intros b F. inversion F as [|? ? F1 F2]; subst.
          constructor; [unfold above in *; cbn [fst snd] in *; lia | apply IH2; exact F2].
      + split; [exact IH1|].
        intros b F. inversion F as [|? ? F1 F2]; subst. apply IH2. exact F2. }
  unfold move_bullets. inv_fields. apply K. exact S.
Qed.

Lemma sorted_snoc (l : list Bullet) (b : Bullet) :
  StronglySorted above l -> Forall (fun a => above a b) l ->
  StronglySorted above (l ++ [b]).
Proof.
  induction 1 as [|a rest S IH F]; intros H; cbn [app].
  - constructor; constructor.
  - inversion H as [|? ? H1 H2]; subst.
    constructor; [apply IH; exact H2|].
    apply Forall_app. split; [exact F | constructor; [exact H1 | constructor]].
Qed.

Lemma remove_first_in (v x : Bullet) (l : list Bullet) :
  In x (remove_first v l) -> In x l.
Proof.
  induction l as [|b rest IH]; cbn [remove_first]; [tauto|].
  destruct (Bullet_eqb b v); cbn [In]; intuition.
Qed.

Lemma remove_first_forall (P : Bullet -> Prop) (v : Bullet) (l : list Bullet) :
  Forall P l -> Forall P (remove_first v l).
Proof.
  intros F. apply Forall_forall. intros x I.
  apply remove_first_in in I. revert x I. apply Forall_forall. exact F.
Qed.

Lemma remove_first_sorted (v : Bullet) (l : list Bullet) :
  StronglySorted above l -> StronglySorted above (remove_first v l).
Proof.
  induction 1 as [|a rest S IH F]; cbn [remove_first]; [constructor|].
  destruct (Bullet_eqb a v); [exact S|].
  constructor; [exact IH | apply remove_first_forall; exact F].
Qed.

Lemma bullet_hits_bullets (g : Game) (b : Bullet) :
  player_bullets (bullet_hits g b) = player_bullets g \/
  player_bullets (bullet_hits g b) = remove_first b (player_bullets g).
Proof.
  unfold bullet_hits. destruct b as [bx by_].
  destruct (hit_alien bx by_ (aliens g)) as [[t l]|]; [|left; reflexivity].
  destruct (existsb (Bullet_eqb (bx, by_)) (player_bullets (set_aliens l g)));
    inv_fields;
    match goal with
    | |- context [if ?c then _ else _] => destruct c
    end; inv_fields; auto.
Qed.

Lemma bullet_loop_bullets (P : list Bullet -> Prop) (bullets : list Bullet) :
  (forall v l, P l -> P (remove_first v l)) ->
  forall g, P (player_bullets g) -> P (player_bullets (fold_left bullet_hits bullets g)).
Proof.
  intros R. induction bullets as [|b rest IH]; intros g H; cbn [fold_left]; [exact H|].
  apply IH. destruct (bullet_hits_bullets g b) as [-> | ->]; [exact H | apply R; exact H].
Qed.

Lemma check_collisions_bullets (P : list Bullet -> Prop) (g : Game) :
  (forall v l, P l -> P (remove_first v l)) ->
  P (player_bullets g) -> P (player_bullets (check_collisions g)).
Proof.
  intros R H. destruct (check_collisions_fields g) as (_ & _ & -> & _).
  apply bullet_loop_bullets; assumption.
Qed.

Lemma check_collisions_player (g : Game) :
  player_x (check_collisions g) = player_x g /\
  player_y (check_collisions g) = player_y g /\
  alien_bullets (check_collisions g) = alien_bullets g.
Proof.
  destruct (check_collisions_fields g) as (_ & _ & _ & -> & _ & _ & -> & -> & _).
  destruct (bullet_loop_keeps_frame (player_bullets g) g) as (_ & _ & AB & PX & PY & _).
  auto.
Qed.

Lemma update_flight (en : bool) (i : Inputs) (g : Game) :
  flight_ok 12 g -> flight_ok 12 (update en ticks_diff i g).
Proof.
  unfold flight_ok. change (HEIGHT - 1) with 15. intros (Y & X & S & F).
  unfold update, before_check_collisions, before_move_aliens.
  destruct (handle_input_effect en (buttons i) g) as (_ & Yh & _ & Xh & Bh).
  set (h := handle_input en (buttons i) g) in *.
  specialize (Xh X). rewrite Y in *.
  assert (StronglySorted above (player_bullets h) /\
          Forall (fun b => 1 <= fst b <= 14 /\ 0 <= snd b <= 13) (player_bullets h))
    as [Sh Fh].
  { destruct Bh as [-> | [_ ->]].
    - split; [exact S|]. revert F. apply Forall_impl. intros b. lia.
    - split.
      + apply sorted_snoc; [exact S|]. revert F. apply Forall_impl.
        intros b. unfold above. cbn [snd]. lia.
      + apply Forall_app. split.
        * revert F. apply Forall_impl. intros b. lia.
        * constructor; [cbn [fst snd]; lia | constructor]. }
  set (m := move_bullets h).
  assert (player_y m = 15 /\ 1 <= player_x m <= 14 /\
          StronglySorted above (player_bullets m) /\
          Forall (fun b => 1 <= fst b <= 14 /\ 0 <= snd b <= 12) (player_bullets m))
    as (Ym & Xm & Sm & Fm).
  { subst m. destruct (move_bullets_player h) as [-> ->].
    split; [exact Yh|]. split; [exact Xh|].
    split; [apply move_bullets_sorted; exact Sh|].
    apply move_bullets_up. revert Fh. apply Forall_impl.
    intros b Hb Hy. cbn [fst snd]. lia. }
  set (a := move_aliens ticks_diff (move_time i) m).
  destruct (move_aliens_player (move_time i) m) as (Ba & _ & Xa & Ya). fold a in Ba, Xa, Ya.
  destruct (alien_shoot_effect (shoot_time i) (shooter_draw i) a) as (Bs & _ & Xs & _).
  cbv zeta in Bs, Xs.
  pose proof (alien_shoot_player (shoot_time i) (shooter_draw i) a) as Ys.
  set (s := alien_shoot ticks_diff (shoot_time i) (shooter_draw i) a) in *.
  destruct (check_collisions_player s) as (-> & -> & _).
  rewrite Ys, Ya, Xs, Xa.
  split; [exact Ym|]. split; [exact Xm|]. split.
  - apply check_collisions_bullets; [apply remove_first_sorted|].
    rewrite Bs, Ba. exact Sm.
  - apply (check_collisions_bullets
             (Forall (fun b => 1 <= fst b <= 14 /\ 0 <= snd b <= 12)));
      [intros v l; apply remove_first_forall|].
    rewrite Bs, Ba. exact Fm.
Qed.

Lemma update_capped (en : bool) (i : Inputs) (g : Game) :
  bullets_capped g -> bullets_capped (update en ticks_diff i g).
Proof.
  unfold bullets_capped. intros [P A].
  unfold update, before_check_collisions, before_move_aliens.
  destruct (handle_input_effect en (buttons i) g) as (Ah & _ & _ & _ & Bh).
  set (h := handle_input en (buttons i) g) in *.
  assert ((length (player_bullets h) <= 3)%nat) as Ph
    by (destruct Bh as [-> | [L ->]]; [exact P | rewrite length_app; cbn [length]; lia]).
  destruct (move_bullets_lengths h) as [Pm Am]. rewrite Ah in Am.
  set (m := move_bullets h) in *.
  destruct (move_aliens_player (move_time i) m) as (Ba & Aa & _ & _).
  set (a := move_aliens ticks_diff (move_time i) m) in *.
  destruct (alien_shoot_effect (shoot_time i) (shooter_draw i) a) as (Bs & _ & _ & As & _).
  cbv zeta in Bs, As.
  set (s := alien_shoot ticks_diff (shoot_time i) (shooter_draw i) a) in *.
  destruct (check_collisions_player s) as (_ & _ & ->).
  split.
  - apply (check_collisions_bullets (fun l => (length l <= 3)%nat)).
    + intros v l H. pose proof (remove_first_length v l). lia.
    + rewrite Bs, Ba. lia.
  - destruct As as [-> | (sh & _ & _ & _ & _ & L & ->)].
    + rewrite Aa. lia.
    + rewrite length_app. cbn [length]. lia.
Qed.

(** X16. Over any number of iterations of the game loop, a game with at
    most 3 player bullets and 5 alien bullets in flight keeps both caps. *)
Theorem bullet_caps_hold (en : bool) (inputs : list Inputs) (g : Game) :
  bullets_capped g -> bullets_capped (run en ticks_diff inputs g).
Proof.
  unfold run. revert g. induction inputs as [|i rest IH]; intros g H; cbn [fold_left].
  - exact H.
  - apply IH. apply update_capped. exact H.
Qed.

(** X17. Over any number of iterations of the game loop, with the player
    on the bottom row inside columns 1..14 and the player bullets, oldest
    first, on strictly increasing rows of [0,12] inside columns 1..14, the
    same holds afterwards: the player bullets stay on the board, no two
    of them share a row, and the player never leaves columns 1..14. *)
Theorem player_bullets_stay_in_order (en : bool) (inputs : list Inputs) (g : Game) :
  flight_ok 12 g -> flight_ok 12 (run en ticks_diff inputs g).
Proof.
  unfold run. revert g. induction inputs as [|i rest IH]; intros g H; cbn [fold_left].
  - exact H.
  - apply IH. apply update_flight. exact H.
Qed.

(** *** The formation over whole iterations *)

Lemma forall2_transfer {A : Type} (R : A -> A -> Prop) (P Q : A -> Prop) (l l' : list A) :
  (forall a a', R a a' -> P a -> Q a') -> Forall2 R l l' -> Forall P l -> Forall Q l'.
Proof.
  intros H F. induction F as [|a a' l l' Ha F IH]; intros FP; [constructor|].
  inversion FP; subst. constructor; [eapply H; eassumption | apply IH; assumption].
Qed.

Lemma shift_inside (d : Z) (l : list Alien) :
  d = 1 \/ d = -1 -> hit_edge d l = false ->
  Forall inside l -> Forall inside (shift_aliens d l).
Proof.
  intros D. unfold hit_edge, shift_aliens.
  induction l as [|a rest IH]; cbn [existsb map]; intros E F; [constructor|].
  apply orb_false_iff in E. destruct E as [E1 E2].
  inversion F as [|? ? F1 F2]; subst.
  constructor; [|apply IH; assumption].
  unfold inside in *. unfold at_edge in E1. change (WIDTH - 2) with 14 in E1.
  destruct (alien_alive a) eqn:A; inv_fields; rewrite ?A; [|discriminate].
  intros _. specialize (F1 eq_refl). cbn [andb] in E1.
  apply orb_false_iff in E1. destruct E1 as [L R].
  apply andb_false_iff in L, R. rewrite Z.geb_leb in R.
  rewrite Z.leb_gt, Z.eqb_neq in L. rewrite Z.leb_gt, Z.eqb_neq in R. lia.
Qed.

Lemma move_aliens_inside (t : Z) (g : Game) :
  formation_inside g -> formation_inside (move_aliens ticks_diff t g).
Proof.
  unfold formation_inside, move_aliens. intros [D F].
  destruct (ticks_diff t (last_alien_move g) <? alien_speed g); [auto|]. inv_fields.
  destruct (hit_edge (alien_direction g) (aliens g)) eqn:E.
  - pose proof (drop_aliens_dropped (aliens g)) as R.
    destruct (drop_aliens (aliens g)) as [l over]. cbn [fst] in R.
    assert (Forall inside l) as Fl.
    { revert R F. apply forall2_transfer. unfold dropped, inside.
      intros a a' (X & A & _) H. rewrite X, A. exact H. }
    destruct over; inv_fields; (split; [lia | exact Fl]).
  - inv_fields. split; [exact D | apply shift_inside; assumption].
Qed.

Lemma check_collisions_inside (g : Game) :
  formation_inside g -> formation_inside (check_collisions g).
Proof.
  unfold formation_inside. intros [D F].
  destruct (check_collisions_fields g) as (-> & _ & _ & _ & -> & _).
  destruct (bullet_loop_account (player_bullets g) g) as (R & _ & _ & _ & ->).
  split; [exact D|]. revert R F. apply forall2_transfer. unfold shot, inside.
  intros a a' [-> | [A ->]] H; [exact H|]. inv_fields. discriminate.
Qed.

Lemma update_inside (en : bool) (i : Inputs) (g : Game) :
  formation_inside g -> formation_inside (update en ticks_diff i g).
Proof.
  intros H. unfold update, before_check_collisions.
  apply check_collisions_inside.
  destruct (alien_shoot_kept (shoot_time i) (shooter_draw i)
              (move_aliens ticks_diff (move_time i) (before_move_aliens en i g)))
    as (Ea & Ed & _).
  unfold formation_inside. rewrite Ea, Ed. apply move_aliens_inside.
  destruct (before_move_aliens_kept en i g) as (Ea' & Ed' & _).
  unfold formation_inside. rewrite Ea', Ed'. exact H.
Qed.

(** X18. A formation that travels left or right with its living aliens
    inside columns 1..14 is still so after any number of iterations of the
    game loop: no living alien ever steps onto column 0 or column 15. *)
Theorem formation_stays_inside (en : bool) (inputs : list Inputs) (g : Game) :
  formation_inside g -> formation_inside (run en ticks_diff inputs g).
Proof.
  unfold run. revert g. induction inputs as [|i rest IH]; intros g H; cbn [fold_left].
  - exact H.
  - apply IH. apply update_inside. exact H.
Qed.

Lemma margins_hit_edge (d : Z) (l : list Alien) :
  both_margins l = true -> d = 1 \/ d = -1 -> hit_edge d l = true.
Proof.
  unfold both_margins, hit_edge. intros B D.
  apply andb_true_iff in B. destruct B as [L R].
  apply existsb_exists in L, R. apply existsb_exists.
  destruct L as (a & Ia & Ha), R as (b & Ib & Hb).
  unfold on_left_margin in Ha. unfold on_right_margin in Hb.
  apply andb_true_iff in Ha, Hb. destruct Ha as [Aa Xa], Hb as [Ab Xb].
  destruct D as [-> | ->].
  - exists b. split; [exact Ib|]. unfold at_edge. rewrite Ab, Xb.
    cbn [andb]. apply orb_true_r.
  - exists a. split; [exact Ia|]. unfold at_edge. rewrite Aa, Xa. reflexivity.
Qed.

Lemma dropped_margins (l l' : list Alien) :
  Forall2 dropped l l' ->
  map alien_x l' = map alien_x l /\
  existsb on_left_margin l' = existsb on_left_margin l /\
  existsb on_right_margin l' = existsb on_right_margin l.
Proof.
  induction 1 as [|a a' l l' (X & A & _) F (IH1 & IH2 & IH3)]; [auto|].
  cbn [map existsb]. unfold on_left_margin at 1 3, on_right_margin at 1 3.
  rewrite X, A, IH1, IH2, IH3. auto.
Qed.

Lemma spawn_wide (g : Game) :
  level g = 3 \/ 5 <= level g -> both_margins (aliens (spawn_aliens g)) = true.
Proof.
  intros H. unfold spawn_aliens. inv_fields.
  fold (formation_rows (level g)) (formation_cols (level g)).
  destruct H as [-> | H]; [vm_compute; reflexivity|].
  destruct (formation_from_level_5 _ H) as (-> & -> & _). vm_compute. reflexivity.
Qed.

(** X19. When living aliens stand on both margins (one with [x <= 1]
    and one with [x >= 14]) every timed move of a formation travelling
    left or right is a drop with a reversal: no alien changes column and
    living aliens still stand on both margins afterwards, so the formation
    can only come down.  [spawn_aliens] produces such a formation at
    level 3 and from level 5 up. *)
Theorem wide_formation_only_drops (t : Z) (g : Game) :
  both_margins (aliens g) = true ->
  alien_direction g = 1 \/ alien_direction g = -1 ->
  move_due ticks_diff t g = true ->
  let g' := move_aliens ticks_diff t g in
  alien_direction g' = - alien_direction g /\
  map alien_x (aliens g') = map alien_x (aliens g) /\
  both_margins (aliens g') = true /\
  (forall h, level h = 3 \/ 5 <= level h -> both_margins (aliens (spawn_aliens h)) = true).
Proof.
  intros B D M. cbv zeta.
  pose proof (margins_hit_edge _ _ B D) as E.
  unfold move_due in M. apply negb_true_iff in M.
  assert (alien_direction (move_aliens ticks_diff t g) = - alien_direction g /\
          Forall2 dropped (aliens g) (aliens (move_aliens ticks_diff t g))) as [Dg F].
  { unfold move_aliens. rewrite M. inv_fields. rewrite E.
    pose proof (drop_aliens_dropped (aliens g)) as F.
    destruct (drop_aliens (aliens g)) as [l over]. cbn [fst] in F.
    destruct over; inv_fields; (split; [lia | exact F]). }
  destruct (dropped_margins _ _ F) as (X & L & R).
  split; [exact Dg|]. split; [exact X|]. split; [|exact spawn_wide].
  unfold both_margins in *. rewrite L, R. exact B.
Qed.

(** *** The fresh formation *)

Lemma freshb_fresh (a : Alien) : freshb a = true -> fresh a.
Proof.
  unfold freshb, fresh. intros H.
  repeat (apply andb_true_iff in H; destruct H as [H ?]).
  repeat match goal with
         | X : (_ <=? _) = true |- _ => apply Z.leb_le in X
         | X : (_ =? _) = true |- _ => apply Z.eqb_eq in X
         end.
  repeat split; assumption.
Qed.

Lemma distinct_cells_nodup (l : list (Z * Z)) : distinct_cells l = true -> NoDup l.
Proof.
  induction l as [|c rest IH]; cbn [distinct_cells]; intros H; [constructor|].
  apply andb_true_iff in H. destruct H as [H1 H2]. apply negb_true_iff in H1.
  constructor; [|apply IH; exact H2].
  intros I. assert (existsb (fun c' => (fst c' =? fst c) && (snd c' =? snd c)) rest = true)
    as E by (apply existsb_exists; exists c; split; [exact I | rewrite !Z.eqb_refl; reflexivity]).
  congruence.
Qed.

Lemma spawn_checks (g : Game) :
  1 <= level g ->
  forallb freshb (aliens (spawn_aliens g)) = true /\
  distinct_cells (map cell_of (aliens (spawn_aliens g))) = true.
Proof.
  intros H. unfold spawn_aliens. inv_fields.
  fold (formation_rows (level g)) (formation_cols (level g)).
  assert (level g = 1 \/ level g = 2 \/ level g = 3 \/ level g = 4 \/ 5 <= level g)
    as [E | [E | [E | [E | E]]]] by lia;
    try (rewrite E; vm_compute; split; reflexivity).
  destruct (formation_from_level_5 _ E) as (-> & -> & _). vm_compute. split; reflexivity.
Qed.

(** X20. For every level from 1 up, [spawn_aliens] lays out a roster of
    living aliens on the odd rows 1..9, each typed by its row
    ([((y - 1) // 2) % 3]), between columns -2 and 14, no two on the same
    cell, and sets the move interval to [max(150, 400 - 30 * level)], which
    lies in [150,370]. *)
Theorem spawned_formation_layout (g : Game) :
  1 <= level g ->
  Forall fresh (aliens (spawn_aliens g)) /\
  NoDup (map cell_of (aliens (spawn_aliens g))) /\
  alien_speed (spawn_aliens g) = Z.max 150 (400 - level g * 30) /\
  150 <= alien_speed (spawn_aliens g) <= 370.
Proof.
  intros H. destruct (spawn_checks g H) as [F N].
  split; [|split; [apply distinct_cells_nodup; exact N|]].
  - apply Forall_forall. intros a I. apply freshb_fresh.
    rewrite forallb_forall in F. apply F. exact I.
  - unfold spawn_aliens. inv_fields. split; [reflexivity | lia].
Qed.

(** *** The move interval *)

Lemma py_int_le (k : Z) (v : Q) : (v <= inject_Z k)%Q -> py_int v <= k.
Proof.
  unfold Qle, py_int, inject_Z. destruct v as [n d]. simpl. intros H.
  assert (n ÷ Z.pos d <= (k * Z.pos d) ÷ Z.pos d) as L
    by (apply Z.quot_le_mono; lia).
  rewrite Z.quot_mul in L by lia. exact L.
Qed.

Lemma alive_count_le (l : list Alien) : alive_count l <= Z.of_nat (length l).
Proof.
  unfold alive_count. pose proof (filter_length_le alien_alive l). lia.
Qed.

Lemma bullet_hits_speed (g : Game) (b : Bullet) :
  80 <= alien_speed g <= 400 -> 80 <= alien_speed (bullet_hits g b) <= 400.
Proof.
  intros H. unfold bullet_hits. destruct b as [bx by_].
  destruct (hit_alien bx by_ (aliens g)) as [[t l]|]; [|exact H].
  set (g1 := set_score _ _).
  assert (alien_speed g1 = alien_speed g) as E1
    by (subst g1; split_ifs; reflexivity).
  destruct (alive_count (aliens g1) >? 0) eqn:C; [|rewrite E1; exact H].
  rewrite Z.gtb_ltb in C. apply Z.ltb_lt in C.
  pose proof (alive_count_le (aliens g1)) as L.
  inv_fields.
  set (q := (inject_Z (alive_count (aliens g1)) / inject_Z (Z.of_nat (length (aliens g1))))%Q).
  assert (0 <= q <= 1)%Q as [Q0 Q1].
  { assert (0 < inject_Z (Z.of_nat (length (aliens g1))))%Q as Hl
      by (change 0%Q with (inject_Z 0); rewrite <- Zlt_Qlt; lia).
    assert (0 <= inject_Z (alive_count (aliens g1)))%Q as Ha
      by (change 0%Q with (inject_Z 0); rewrite <- Zle_Qle; lia).
    assert (inject_Z (alive_count (aliens g1)) <= inject_Z (Z.of_nat (length (aliens g1))))%Q
      as Hle by (rewrite <- Zle_Qle; exact L).
    subst q. split.
    - apply Qle_shift_div_l; [exact Hl | lra].
    - apply Qle_shift_div_r; [exact Hl | lra]. }
  pose proof (Q.max_spec 80 (400 * q)) as M.
  set (m := Qmax 80 (400 * q)) in *.
  assert (inject_Z 80 <= m <= inject_Z 400)%Q as [M0 M1].
  { change (inject_Z 80) with 80%Q. change (inject_Z 400) with 400%Q.
    destruct M as [[? E] | [? E]]; lra. }
  split; [apply py_int_ge; [lia | exact M0] | apply py_int_le; exact M1].
Qed.

Lemma bullet_loop_speed (bullets : list Bullet) :
  forall g, 80 <= alien_speed g <= 400 ->
            80 <= alien_speed (fold_left bullet_hits bullets g) <= 400.
Proof.
  induction bullets as [|b rest IH]; intros g H; cbn [fold_left]; [exact H|].
  apply IH. apply bullet_hits_speed. exact H.
Qed.

Lemma move_aliens_speed (t : Z) (g : Game) :
  alien_speed (move_aliens ticks_diff t g) = alien_speed g.
Proof.
  unfold move_aliens.
  destruct (ticks_diff t (last_alien_move g) <? alien_speed g); [auto|]. inv_fields.
  destruct (hit_edge (alien_direction g) (aliens g)); [|auto].
  destruct (drop_aliens (aliens g)) as [l over]. destruct over; auto.
Qed.

Lemma update_speed (en : bool) (i : Inputs) (g : Game) :
  80 <= alien_speed g <= 400 -> 80 <= alien_speed (update en ticks_diff i g) <= 400.
Proof.
  intros H. unfold update, before_check_collisions.
  set (s := alien_shoot _ _ _ _).
  assert (alien_speed s = alien_speed g) as E.
  { subst s.
    destruct (alien_shoot_kept (shoot_time i) (shooter_draw i)
                (move_aliens ticks_diff (move_time i) (before_move_aliens en i g)))
      as (_ & _ & _ & _ & -> & _).
    rewrite move_aliens_speed.
    destruct (before_move_aliens_kept en i g) as (_ & _ & _ & _ & -> & _). reflexivity. }
  destruct (check_collisions_fields s) as (_ & _ & _ & _ & _ & -> & _).
  rewrite <- E in H. apply bullet_loop_speed. exact H.
Qed.

(** X21. An alien move interval between 80 and 400 ms stays between 80
    and 400 ms over any number of iterations of the game loop (the
    speed-up after a kill is computed with exact rationals here). *)
Theorem move_interval_stays_in_range (en : bool) (inputs : list Inputs) (g : Game) :
  80 <= alien_speed g <= 400 ->
  80 <= alien_speed (run en ticks_diff inputs g) <= 400.
Proof.
  unfold run. revert g. induction inputs as [|i rest IH]; intros g H; cbn [fold_left].
  - exact H.
  - apply IH. apply update_speed. exact H.
Qed.


End ShooterMore.

(** *** Runs of the loop from a fresh game *)

Section ShooterRuns.

Import Display Invaders InvadersMore.

Lemma bullet_caps_hold_witness :
  bullets_capped
    (run true Z.sub
       [mkInputs (mkButtons 1 1 0) 100 600 0; mkInputs (mkButtons 0 1 0) 500 2000 1]
       reset).
Proof.
  apply (bullet_caps_hold Z.sub true
           [mkInputs (mkButtons 1 1 0) 100 600 0; mkInputs (mkButtons 0 1 0) 500 2000 1]
           reset).
  unfold bullets_capped. cbn. lia.
Defined.

Lemma player_bullets_stay_in_order_witness :
  flight_ok 12
    (run true Z.sub
       [mkInputs (mkButtons 1 1 0) 100 600 0; mkInputs (mkButtons 0 1 0) 500 2000 1]
       reset).
Proof.
  apply (player_bullets_stay_in_order Z.sub true
           [mkInputs (mkButtons 1 1 0) 100 600 0; mkInputs (mkButtons 0 1 0) 500 2000 1]
           reset).
  unfold flight_ok. cbn. repeat split; try constructor; lia.
Defined.

Lemma formation_stays_inside_witness :
  formation_inside
    (run false Z.sub
       [mkInputs (mkButtons 1 1 1) 400 600 0; mkInputs (mkButtons 1 1 1) 800 2000 1]
       reset).
Proof.
  apply (formation_stays_inside Z.sub false
           [mkInputs (mkButtons 1 1 1) 400 600 0; mkInputs (mkButtons 1 1 1) 800 2000 1]
           reset).
  split; [left; reflexivity|].
  cbn. repeat (apply Forall_cons; [intros _; cbn; lia|]). apply Forall_nil.
Defined.

Lemma wide_formation_only_drops_witness :
  let g := spawn_aliens (set_level 3 reset) in
  let g' := move_aliens Z.sub 1000 g in
  alien_direction g' = - alien_direction g /\
  map alien_x (aliens g') = map alien_x (aliens g) /\
  both_margins (aliens g') = true /\
  (forall h, level h = 3 \/ 5 <= level h -> both_margins (aliens (spawn_aliens h)) = true).
Proof.
  apply (wide_formation_only_drops Z.sub 1000 (spawn_aliens (set_level 3 reset)));
    [reflexivity | left; reflexivity | reflexivity].
Defined.

Lemma spawned_formation_layout_witness :
  Forall fresh (aliens (spawn_aliens reset)) /\
  NoDup (map cell_of (aliens (spawn_aliens reset))) /\
  alien_speed (spawn_aliens reset) = Z.max 150 (400 - level reset * 30) /\
  150 <= alien_speed (spawn_aliens reset) <= 370.
Proof.
  apply (spawned_formation_layout reset). vm_compute. discriminate.
Defined.

Lemma move_interval_stays_in_range_witness :
  80 <= alien_speed
          (run true Z.sub
             [mkInputs (mkButtons 1 1 0) 100 600 0; mkInputs (mkButtons 0 1 0) 500 2000 1]
             reset) <= 400.
Proof.
  apply (move_interval_stays_in_range Z.sub true
           [mkInputs (mkButtons 1 1 0) 100 600 0; mkInputs (mkButtons 0 1 0) 500 2000 1]
           reset).
  vm_compute. split; discriminate.
Defined.

End ShooterRuns.

(** ** The frame of the formation shooter *)

Section ShooterFrame.

Import Display Invaders InvadersMore.

Lemma shooter_set_pixel_length (x y : Z) (color : Color) (np : Buffer) :
  length (Invaders.set_pixel x y color np) = length np.
Proof. rewrite shooter_set_pixel_bridge. apply set_pixel_length. Qed.

Lemma draw_sprite_length (x y : Z) (color : Color) (sprite : list (Z * Z)) :
  forall np, length (draw_sprite x y color sprite np) = length np.
Proof.
  unfold draw_sprite. induction sprite as [|[dx dy] rest IH]; intros np; cbn [fold_left].
  - reflexivity.
  - rewrite IH. apply shooter_set_pixel_length.
Qed.

Lemma draw_aliens_length (g : Game) (np : Buffer) :
  length (draw_aliens g np) = length np.
Proof.
  unfold draw_aliens. revert np.
  induction (aliens g) as [|a rest IH]; intros np; cbn [fold_left]; [reflexivity|].
  rewrite IH. unfold draw_alien.
  destruct (negb (alien_alive a)); [reflexivity | apply draw_sprite_length].
Qed.

Lemma draw_bullets_length (g : Game) (np : Buffer) :
  length (draw_bullets g np) = length np.
Proof.
  assert (forall color l np0,
            length (fold_left (fun np '(bx, by_) => Invaders.set_pixel bx by_ color np) l np0)
            = length np0) as K.
  { intros color l. induction l as [|[bx by_] rest IH]; intros np0; cbn [fold_left].
    - reflexivity.
    - rewrite IH. apply shooter_set_pixel_length. }
  unfold draw_bullets. rewrite !K. reflexivity.
Qed.

Lemma shooter_write_other (x y x' y' : Z) (color : Color) (np : Buffer) :
  in_grid x y -> x' <> x \/ y' <> y ->
  PongMore.pixel x y (Invaders.set_pixel x' y' color np) = PongMore.pixel x y np.
Proof.
  intros G N. rewrite shooter_set_pixel_bridge. apply set_pixel_other; [exact G|].
  intros E. injection E as E1 E2. tauto.
Qed.

Lemma shooter_write_same (x y : Z) (color : Color) (np : Buffer) :
  length np = 256%nat -> in_grid x y ->
  PongMore.pixel x y (Invaders.set_pixel x y color np) = scale_color color.
Proof. intros L G. rewrite shooter_set_pixel_bridge. apply set_pixel_same; assumption. Qed.

Lemma draw_score_elsewhere (g : Game) (x y : Z) (np : Buffer) :
  in_grid x y -> 1 <= y ->
  PongMore.pixel x y (draw_score g np) = PongMore.pixel x y np.
Proof.
  intros G Y. unfold draw_score. revert np.
  induction (range (Z.min (level g) 3)) as [|i rest IH]; intros np; cbn [fold_left].
  - reflexivity.
  - rewrite IH. apply shooter_write_other; [exact G | right; lia].
Qed.

(** X22. [render] keeps the buffer at its size, and on a buffer of 256
    slots it shows the whole ship of a living player that stands on the
    bottom row inside columns 1..14: at the end of the frame the four
    cells of the sprite (the player's cell, its left and right neighbours
    and the cell above) hold the scaled green (0, 76, 0). *)
Theorem render_shows_the_player (g : Game) (np : Buffer) :
  length np = 256%nat ->
  player_alive g = true -> player_y g = 15 -> 1 <= player_x g <= 14 ->
  length (render g np) = 256%nat /\
  Forall (fun '(dx, dy) =>
            PongMore.pixel (player_x g + dx) (player_y g + dy) (render g np) = (0, 76, 0))
         PLAYER_SPRITE.
Proof.
  intros L A Y X. unfold render.
  set (np3 := draw_bullets g (draw_aliens g (clear np))).
  assert (length np3 = 256%nat) as L3
    by (subst np3; rewrite draw_bullets_length, draw_aliens_length;
        unfold clear; rewrite length_map; exact L).
  unfold draw_player. rewrite A. cbn [negb].
  unfold draw_sprite, PLAYER_SPRITE. cbn [fold_left]. rewrite Y.
  set (p := player_x g) in *.
  set (n1 := Invaders.set_pixel (p + 0) (15 + 0) GREEN np3).
  set (n2 := Invaders.set_pixel (p + -1) (15 + 0) GREEN n1).
  set (n3 := Invaders.set_pixel (p + 1) (15 + 0) GREEN n2).
  set (n4 := Invaders.set_pixel (p + 0) (15 + -1) GREEN n3).
  assert (length n1 = 256%nat) as L1 by (subst n1; rewrite shooter_set_pixel_length; exact L3).
  assert (length n2 = 256%nat) as L2 by (subst n2; rewrite shooter_set_pixel_length; exact L1).
  assert (length n3 = 256%nat) as L4 by (subst n3; rewrite shooter_set_pixel_length; exact L2).
  assert (forall x y, in_grid x y <-> 0 <= x < 16 /\ 0 <= y < 16) as G by (intros; reflexivity).
  split.
  - unfold draw_score.
    assert (forall l np0,
              length (fold_left (fun np i => Invaders.set_pixel (WIDTH - 1 - i) 0 WHITE np) l np0)
              = length np0) as K.
    { induction l as [|i rest IH]; intros np0; cbn [fold_left]; [reflexivity|].
      rewrite IH. apply shooter_set_pixel_length. }
    rewrite K. subst n4. rewrite shooter_set_pixel_length. exact L4.
  - repeat constructor; rewrite draw_score_elsewhere by (try apply G; lia); subst n4.
    + rewrite shooter_write_other by (try apply G; lia).
      subst n3.
      rewrite shooter_write_other by (try apply G; lia).
      subst n2.
      rewrite shooter_write_other by (try apply G; lia).
      subst n1. apply shooter_write_same; [exact L3 | apply G; lia].
    + rewrite shooter_write_other by (try apply G; lia).
      subst n3.
      rewrite shooter_write_other by (try apply G; lia).
      subst n2. apply shooter_write_same; [exact L1 | apply G; lia].
    + rewrite shooter_write_other by (try apply G; lia).
      subst n3. apply shooter_write_same; [exact L2 | apply G; lia].
    + apply shooter_write_same; [exact L4 | apply G; lia].
Qed.

Lemma render_shows_the_player_witness :
  length (render reset blank) = 256%nat /\
  Forall (fun '(dx, dy) =>
            PongMore.pixel (player_x reset + dx) (player_y reset + dy) (render reset blank)
            = (0, 76, 0))
         PLAYER_SPRITE.
Proof.
  apply (render_shows_the_player reset blank); [reflexivity | reflexivity | reflexivity|].
  vm_compute. split; discriminate.
Defined.

End ShooterFrame.
